(** * Auriga cable-guide viewer: the geometry scale engine

    A shallow embedding of the scaling logic of the three variants of the
    viewer found in the repository:

    - the vanilla variant ([main.ts], second half of [src/App.tsx]):
      [computeAxisLengths], [getScaleForTargetLength], [bakeScaleAlongAxis],
      the depth-slider listener, the reset listener and
      [exportCurrentMeshAsSTL];
    - the React variant ([src/App.tsx] and [src/components/ThreeScene.tsx]):
      the depth input handlers, the Reset button, the depth effect and
      [exportSTL];
    - the depth-and-height variant of [ThreeScene] with its extrusion loop.

    Numbers.  A JavaScript number is modelled as an extended rational
    ([num]): finite values are exact rationals, and [NaN], [+Infinity] and
    [-Infinity] follow the IEEE rules.  Rounding, overflow and the sign of
    zero are not modelled, so a statement "up to floating-point tolerance"
    becomes an exact equation here.  The code computes factors in double
    precision and stores positions in single precision: a statement about
    the size of a result outside the slider domain carries the hypothesis
    that the result fits these formats ([no_overflow], [height_fits]).

    Geometry.  A [THREE.BufferGeometry] is modelled by its position
    attribute (which the STL loader always creates), a list of vertices.
    Normals, materials, the camera, the renderer and the DOM output
    elements do not influence vertex positions and are left out.
    Geometries are mutable objects: they live in a store and the session
    holds references to them, so that cloning and in-place transformation
    are distinguished.

    Outputs.  The console holds the messages the viewer itself writes, and
    the downloads are the files it offers, each with the vertices handed to
    the STL exporter.  The message three.js writes when a bounding box has
    a [NaN] bound is not modelled: statements about the console are made
    for geometries with finite coordinates, where it cannot occur.  A
    fetch is modelled from the point where it has answered with a body the
    STL loader decodes. *)

From Stdlib Require Import QArith Qcanon Qround.
From stdpp Require Import base numbers option list gmap strings pretty.

Local Open Scope Qc_scope.

(** ** Exact rationals: boolean comparisons *)

Definition Qcltb (a b : Qc) : bool :=
  match a ?= b with Lt => true | _ => false end.

Definition Qcleb (a b : Qc) : bool :=
  match a ?= b with Gt => false | _ => true end.

(** Decimal literals of the sources. *)
Definition qz (n : Z) : Qc := Q2Qc (inject_Z n).
Definition qfrac (n : Z) (d : positive) : Qc := Q2Qc (n # d).

(** ** JavaScript numbers *)

Inductive num : Type :=
  | NaN
  | NegInf
  | Fin (q : Qc)
  | PosInf.

Global Instance num_eq_dec : EqDecision num.
Proof. solve_decision. Defined.

Definition nz (n : Z) : num := Fin (qz n).

Definition is_finite (a : num) : bool :=
  match a with Fin _ => true | _ => false end.

(** [isNaN] *)
Definition isNaN (a : num) : bool :=
  match a with NaN => true | _ => false end.

(** [a < b] *)
Definition nlt (a b : num) : bool :=
  match a, b with
  | NaN, _ | _, NaN => false
  | NegInf, NegInf => false
  | NegInf, _ => true
  | _, NegInf => false
  | PosInf, _ => false
  | Fin _, PosInf => true
  | Fin x, Fin y => Qcltb x y
  end.

(** [a <= b] *)
Definition nle (a b : num) : bool :=
  match a, b with
  | NaN, _ | _, NaN => false
  | NegInf, _ => true
  | _, NegInf => false
  | _, PosInf => true
  | PosInf, _ => false
  | Fin x, Fin y => Qcleb x y
  end.

(** [a > b] *)
Definition ngt (a b : num) : bool := nlt b a.

(** [a !== b] on numbers: [NaN] differs from everything, itself included. *)
Definition nneq (a b : num) : bool :=
  match a, b with
  | NaN, _ | _, NaN => true
  | _, _ => negb (bool_decide (a = b))
  end.

(** [-a] *)
Definition nneg (a : num) : num :=
  match a with
  | NaN => NaN
  | NegInf => PosInf
  | PosInf => NegInf
  | Fin x => Fin (- x)
  end.

(** [a + b] *)
Definition nadd (a b : num) : num :=
  match a, b with
  | NaN, _ | _, NaN => NaN
  | PosInf, NegInf | NegInf, PosInf => NaN
  | PosInf, _ | _, PosInf => PosInf
  | NegInf, _ | _, NegInf => NegInf
  | Fin x, Fin y => Fin (x + y)
  end.

(** [a - b] *)
Definition nsub (a b : num) : num := nadd a (nneg b).

(** The infinity with the sign of [x * y], where [y] is infinite of the
    given sign; [NaN] for [0 * Infinity]. *)
Definition signed_inf (x : Qc) (positive_inf : bool) : num :=
  if Qcltb 0 x then (if positive_inf then PosInf else NegInf)
  else if Qcltb x 0 then (if positive_inf then NegInf else PosInf)
  else NaN.

(** [a * b] *)
Definition nmul (a b : num) : num :=
  match a, b with
  | NaN, _ | _, NaN => NaN
  | Fin x, Fin y => Fin (x * y)
  | Fin x, PosInf | PosInf, Fin x => signed_inf x true
  | Fin x, NegInf | NegInf, Fin x => signed_inf x false
  | PosInf, PosInf | NegInf, NegInf => PosInf
  | PosInf, NegInf | NegInf, PosInf => NegInf
  end.

(** [a / b]; a zero divisor is taken to be [+0].  The quotient of finite
    numbers is exact: the code rounds a quotient beyond the range of double
    precision to an infinity ([fits_double] says that this does not
    happen). *)
Definition ndiv (a b : num) : num :=
  match a, b with
  | NaN, _ | _, NaN => NaN
  | Fin x, Fin y =>
      if bool_decide (y = 0) then signed_inf x true else Fin (x / y)
  | Fin _, _ => Fin 0
  | PosInf, Fin y => if Qcltb y 0 then NegInf else PosInf
  | NegInf, Fin y => if Qcltb y 0 then PosInf else NegInf
  | _, _ => NaN
  end.

(** [Math.min(a, b)], [Math.max(a, b)], [Math.abs(a)] *)
Definition nmin (a b : num) : num :=
  match a, b with
  | NaN, _ | _, NaN => NaN
  | _, _ => if nlt b a then b else a
  end.

Definition nmax (a b : num) : num :=
  match a, b with
  | NaN, _ | _, NaN => NaN
  | _, _ => if nlt a b then b else a
  end.

Definition nabs (a : num) : num :=
  match a with
  | NaN => NaN
  | NegInf | PosInf => PosInf
  | Fin x => Fin (if Qcltb x 0 then - x else x)
  end.

Declare Scope num_scope.
Delimit Scope num_scope with num.
Bind Scope num_scope with num.
Infix "+" := nadd : num_scope.
Infix "-" := nsub : num_scope.
Infix "*" := nmul : num_scope.
Infix "/" := ndiv : num_scope.
Infix "<?" := nlt : num_scope.
Infix "<=?" := nle : num_scope.
Infix ">?" := ngt : num_scope.

Local Open Scope num_scope.

(** ** The parts of the THREE library the viewer calls

    [Vector3], [Matrix4] (with the library's row-major argument names, so
    that [n34] is [elements[14]]), [Box3] and the position attribute. *)

Record Vector3 : Type := V3 { vx : num; vy : num; vz : num }.

Global Instance Vector3_eq_dec : EqDecision Vector3.
Proof. solve_decision. Defined.

Record Matrix4 : Type := M4 {
  n11 : num; n12 : num; n13 : num; n14 : num;
  n21 : num; n22 : num; n23 : num; n24 : num;
  n31 : num; n32 : num; n33 : num; n34 : num;
  n41 : num; n42 : num; n43 : num; n44 : num }.

(** [new THREE.Matrix4().makeScale(x, y, z)] *)
Definition makeScale (x y z : num) : Matrix4 :=
  M4 x      (nz 0) (nz 0) (nz 0)
     (nz 0) y      (nz 0) (nz 0)
     (nz 0) (nz 0) z      (nz 0)
     (nz 0) (nz 0) (nz 0) (nz 1).

(** [new THREE.Matrix4().makeTranslation(x, y, z)] *)
Definition makeTranslation (x y z : num) : Matrix4 :=
  M4 (nz 1) (nz 0) (nz 0) x
     (nz 0) (nz 1) (nz 0) y
     (nz 0) (nz 0) (nz 1) z
     (nz 0) (nz 0) (nz 0) (nz 1).

(** [Vector3.applyMatrix4]: the affine image of the point, divided by the
    perspective component. *)
Definition Vector3_applyMatrix4 (m : Matrix4) (v : Vector3) : Vector3 :=
  let x := vx v in
  let y := vy v in
  let z := vz v in
  let w := nz 1 / (n41 m * x + n42 m * y + n43 m * z + n44 m) in
  V3 ((n11 m * x + n12 m * y + n13 m * z + n14 m) * w)
     ((n21 m * x + n22 m * y + n23 m * z + n24 m) * w)
     ((n31 m * x + n32 m * y + n33 m * z + n34 m) * w).

Record Box3 : Type := mkBox3 { bmin : Vector3; bmax : Vector3 }.

(** [Box3.makeEmpty]: the empty box has [min = +Infinity], [max = -Infinity]. *)
Definition makeEmpty : Box3 :=
  mkBox3 (V3 PosInf PosInf PosInf) (V3 NegInf NegInf NegInf).

(** [Vector3.min], [Vector3.max]: componentwise [Math.min] / [Math.max]. *)
Definition Vector3_min (a b : Vector3) : Vector3 :=
  V3 (nmin (vx a) (vx b)) (nmin (vy a) (vy b)) (nmin (vz a) (vz b)).
Definition Vector3_max (a b : Vector3) : Vector3 :=
  V3 (nmax (vx a) (vx b)) (nmax (vy a) (vy b)) (nmax (vz a) (vz b)).

(** [Box3.expandByPoint] *)
Definition expandByPoint (b : Box3) (p : Vector3) : Box3 :=
  mkBox3 (Vector3_min (bmin b) p) (Vector3_max (bmax b) p).

(** [Box3.setFromBufferAttribute]: start from the empty box and expand by
    every vertex in index order. *)
Definition setFromBufferAttribute (positions : list Vector3) : Box3 :=
  fold_left expandByPoint positions makeEmpty.

(** [Box3.isEmpty] and [Box3.getCenter] *)
Definition Box3_isEmpty (b : Box3) : bool :=
  nlt (vx (bmax b)) (vx (bmin b)) ||
  nlt (vy (bmax b)) (vy (bmin b)) ||
  nlt (vz (bmax b)) (vz (bmin b)).

Definition Vector3_addVectors (a b : Vector3) : Vector3 :=
  V3 (vx a + vx b) (vy a + vy b) (vz a + vz b).
Definition Vector3_multiplyScalar (a : Vector3) (s : num) : Vector3 :=
  V3 (vx a * s) (vy a * s) (vz a * s).
Definition Vector3_negate (a : Vector3) : Vector3 :=
  V3 (nneg (vx a)) (nneg (vy a)) (nneg (vz a)).

Definition half : num := Fin (qfrac 1 2).

Definition Box3_getCenter (b : Box3) : Vector3 :=
  if Box3_isEmpty b then V3 (nz 0) (nz 0) (nz 0)
  else Vector3_multiplyScalar (Vector3_addVectors (bmin b) (bmax b)) half.

(** The three coordinate axes, and the component of a vector along one. *)
Inductive axis : Type := axis_x | axis_y | axis_z.

Global Instance axis_eq_dec : EqDecision axis.
Proof. solve_decision. Defined.

Definition coord (a : axis) (v : Vector3) : num :=
  match a with axis_x => vx v | axis_y => vy v | axis_z => vz v end.

(** A [BufferGeometry]: its position attribute (one entry per vertex; three
    consecutive vertices form a triangle) and whether [dispose()] was
    called on it. *)
Record BufferGeometry : Type := mkGeometry {
  position : list Vector3;
  disposed : bool }.

(** [BufferAttribute.applyMatrix4]: every vertex is transformed in place.
    The coordinates written are exact: the code stores them in a
    [Float32Array], where a finite value beyond the range of single
    precision becomes an infinity ([fits_float32] says that this does not
    happen). *)
Definition positions_applyMatrix4 (m : Matrix4) (ps : list Vector3)
  : list Vector3 :=
  map (Vector3_applyMatrix4 m) ps.

(** [geometry.computeBoundingBox(); geometry.boundingBox].  When a bound
    is [NaN] three.js also writes an error to the console; the model keeps
    the box only. *)
Definition computeBoundingBox (g : BufferGeometry) : Box3 :=
  setFromBufferAttribute (position g).

(** Number of vertices and of triangles of a geometry. *)
Definition vertexCount (g : BufferGeometry) : nat := length (position g).
Definition triangleCount (g : BufferGeometry) : nat := vertexCount g / 3.

(** The extent of a geometry along an axis: [max - min] of its bounding
    box. *)
Definition extent (a : axis) (g : BufferGeometry) : num :=
  let bb := computeBoundingBox g in
  coord a (bmax bb) - coord a (bmin bb).

Global Instance BufferGeometry_eq_dec : EqDecision BufferGeometry.
Proof. solve_decision. Defined.

Global Instance BufferGeometry_inhabited : Inhabited BufferGeometry :=
  populate (mkGeometry [] false).

(** ** The session: object store, scene references, console and downloads *)

Inductive log_entry : Type :=
  | Warn (msg : string)
  | Error (msg : string).

(** A file offered for download: name, content type, and the vertices the
    STL exporter serialises. *)
Record download : Type := mkDownload {
  filename : string;
  mime : string;
  body : list Vector3 }.

(** [mesh] is the displayed mesh, identified with the reference its
    [geometry] field holds; [baseGeometry] is the reference to the
    unscaled geometry.  In the vanilla variant these are the module-level
    variables, in the React variants the fields of [sceneRef.current]. *)
Record session : Type := mkSession {
  store : gmap nat BufferGeometry;
  mesh : option nat;
  baseGeometry : option nat;
  console : list log_entry;
  downloads : list download }.

(** The geometry a reference denotes. *)
Definition deref (s : session) (l : nat) : BufferGeometry := store s !!! l.

(** The geometry on display, if a mesh is loaded. *)
Definition displayed (s : session) : option BufferGeometry :=
  deref s <$> mesh s.

(** The base geometry of the session, if one is loaded. *)
Definition base (s : session) : option BufferGeometry :=
  deref s <$> baseGeometry s.

(** Handlers run in a state monad over the session; a handler completes
    normally or with a thrown error. *)
Inductive completion (A : Type) : Type :=
  | Normal (a : A)
  | Throw (e : string).
Arguments Normal {A} a.
Arguments Throw {A} e.

Definition M (A : Type) : Type := session → completion A * session.

Global Instance M_ret : MRet M := λ A (a : A) s, (Normal a, s).
Global Instance M_bind : MBind M := λ A B (f : A → M B) (m : M A) s,
  match m s with
  | (Normal a, s') => f a s'
  | (Throw e, s') => (Throw e, s')
  end.

Definition get : M session := λ s, (Normal s, s).
Definition throw {A : Type} (e : string) : M A := λ s, (Throw e, s).

(** [try { body } catch (err) { handler(err) }] *)
Definition try_catch {A : Type} (body : M A) (handler : string → M A) : M A :=
  λ s, match body s with
       | (Normal a, s') => (Normal a, s')
       | (Throw e, s') => handler e s'
       end.

(** The session a handler leaves behind. *)
Definition exec {A : Type} (m : M A) (s : session) : session := (m s).2.

(** Whether a handler completes without throwing. *)
Definition returns {A : Type} (m : M A) (s : session) : bool :=
  match (m s).1 with Normal _ => true | Throw _ => false end.

(** Object store primitives. *)
Definition alloc (g : BufferGeometry) : M nat := λ s,
  let l := fresh (dom (store s)) in
  (Normal l, mkSession (<[l := g]> (store s)) (mesh s) (baseGeometry s)
                       (console s) (downloads s)).

Definition update (l : nat) (f : BufferGeometry → BufferGeometry) : M unit :=
  λ s, (Normal tt, mkSession (<[l := f (deref s l)]> (store s)) (mesh s)
                             (baseGeometry s) (console s) (downloads s)).

(** [geometry.clone()]: a new object with a copy of the attributes. *)
Definition BufferGeometry_clone (l : nat) : M nat :=
  s ← get; alloc (mkGeometry (position (deref s l)) false).

(** [geometry.applyMatrix4(m)]: transforms the object in place. *)
Definition BufferGeometry_applyMatrix4 (l : nat) (m : Matrix4) : M unit :=
  update l (λ g,
    mkGeometry (positions_applyMatrix4 m (position g)) (disposed g)).

(** [geometry.dispose()] *)
Definition BufferGeometry_dispose (l : nat) : M unit :=
  update l (λ g, mkGeometry (position g) true).

(** [mesh.geometry = geo] and the assignments to the scene variables. *)
Definition set_mesh (m : option nat) : M unit := λ s,
  (Normal tt, mkSession (store s) m (baseGeometry s) (console s) (downloads s)).
Definition set_baseGeometry (b : option nat) : M unit := λ s,
  (Normal tt, mkSession (store s) (mesh s) b (console s) (downloads s)).

(** [console.warn], [console.error] *)
Definition console_log (e : log_entry) : M unit := λ s,
  (Normal tt, mkSession (store s) (mesh s) (baseGeometry s)
                        (console s ++ [e]) (downloads s)).

(** The STL exporter serialises the geometry of the mesh and the page
    offers the result as a download. *)
Definition offer_download (name : string) (l : nat) : M unit := λ s,
  (Normal tt, mkSession (store s) (mesh s) (baseGeometry s) (console s)
     (downloads s
      ++ [mkDownload name "application/sla" (position (deref s l))])).

(** [geometry.translate(x, y, z)] and [geometry.center()] *)
Definition BufferGeometry_translate (l : nat) (x y z : num) : M unit :=
  BufferGeometry_applyMatrix4 l (makeTranslation x y z).

Definition BufferGeometry_center (l : nat) : M unit :=
  s ← get;
  let box := computeBoundingBox (deref s l) in
  let offset := Vector3_negate (Box3_getCenter box) in
  BufferGeometry_translate l (vx offset) (vy offset) (vz offset).

(** What [fetch('/model/4040_cableguide.stl')] delivers: the HTTP outcome
    and the vertices the STL loader decodes from the body.  A fetch that is
    rejected and a body the STL loader throws on are not outcomes of this
    record. *)
Record response : Type := mkResponse {
  ok : bool;
  status : nat;
  parsed : list Vector3 }.

(** ** The vanilla variant ([main.ts]) *)

Module Vanilla.

(** [const DEPTH_AXIS = 'z'] *)
Definition DEPTH_AXIS : axis := axis_z.

Definition getSelectedAxis : axis := DEPTH_AXIS.

(** [computeAxisLengths]: the bounding box is computed on a private clone,
    so the argument is only read. *)
Definition computeAxisLengths (g : BufferGeometry) : Vector3 :=
  let bb := computeBoundingBox g in
  V3 (vx (bmax bb) - vx (bmin bb))
     (vy (bmax bb) - vy (bmin bb))
     (vz (bmax bb) - vz (bmin bb)).

Definition getScaleForTargetLength
    (g : BufferGeometry) (a : axis) (target : num) : num :=
  let lengths := computeAxisLengths g in
  let cur := coord a lengths in
  if cur >? nz 0 then target / cur else nz 1.

Definition clearModel : M unit :=
  s ← get;
  match mesh s with
  | Some m => BufferGeometry_dispose m;; set_mesh None
  | None => mret tt
  end;;
  match baseGeometry s with
  | Some b => BufferGeometry_dispose b
  | None => mret tt
  end;;
  set_baseGeometry None.

Definition loadSTLFromArrayBuffer (vertices : list Vector3) : M unit :=
  geo ← alloc (mkGeometry vertices false);
  s ← get;
  let bb := computeBoundingBox (deref s geo) in
  let center :=
    Vector3_multiplyScalar (Vector3_addVectors (bmin bb) (bmax bb)) half in
  BufferGeometry_translate geo
    (nneg (vx center)) (nneg (vy center)) (nneg (vz center));;
  clearModel;;
  set_mesh (Some geo);;
  b ← BufferGeometry_clone geo;
  set_baseGeometry (Some b).

Definition bakeScaleAlongAxis (a : axis) (scale : num) : M unit :=
  s ← get;
  match mesh s, baseGeometry s with
  | Some m, Some b =>
      geo ← BufferGeometry_clone b;
      let sx := if decide (a = axis_x) then scale else nz 1 in
      let sy := if decide (a = axis_y) then scale else nz 1 in
      let sz := if decide (a = axis_z) then scale else nz 1 in
      let mat := makeScale sx sy sz in
      BufferGeometry_applyMatrix4 geo mat;;
      BufferGeometry_dispose m;;
      set_mesh (Some geo)
  | _, _ => mret tt
  end.

(** [exportCurrentMeshAsSTL]; [now] is the value of [Date.now()]. *)
Definition exportCurrentMeshAsSTL (now : N) : M unit :=
  s ← get;
  match mesh s with
  | None => mret tt
  | Some m =>
      offer_download
        ("auriga-simracing-cable-guide-" +:+ pretty now +:+ ".stl") m
  end.

Definition autoLoadProvidedSTL (res : response) : M unit :=
  try_catch
    (if negb (ok res)
     then throw ("Failed to load /model/4040_cableguide.stl: "
                 +:+ pretty (status res))
     else loadSTLFromArrayBuffer (parsed res))
    (λ err, console_log (Error err)).

(** The [input] listener of the depth slider; [target] is
    [Number(depthRange.value)]. *)
Definition depthRange_input (target : num) : M unit :=
  s ← get;
  match mesh s with
  | None => mret tt
  | Some m =>
      let g := deref s (default m (baseGeometry s)) in
      let scale := getScaleForTargetLength g DEPTH_AXIS target in
      bakeScaleAlongAxis DEPTH_AXIS scale
  end.

(** The [click] listener of the reset button. *)
Definition resetScaleBtn_click : M unit :=
  s ← get;
  match mesh s, baseGeometry s with
  | Some m, Some b =>
      BufferGeometry_dispose m;;
      geo ← BufferGeometry_clone b;
      set_mesh (Some geo)
  | _, _ => mret tt
  end.

(** The events of a session and the session after a sequence of them. *)
Inductive event : Type :=
  | Loaded (res : response)
  | DepthInput (target : num)
  | ResetClick
  | ExportClick (now : N).

Definition handle (e : event) : M unit :=
  match e with
  | Loaded res => autoLoadProvidedSTL res
  | DepthInput target => depthRange_input target
  | ResetClick => resetScaleBtn_click
  | ExportClick now => exportCurrentMeshAsSTL now
  end.

Definition run (es : list event) (s : session) : session :=
  fold_left (λ s e, exec (handle e) s) es s.

End Vanilla.

(** ** The React variant ([App.tsx], [components/ThreeScene.tsx]) *)

Module React.

Record Parameters : Type := mkParameters { depth : num }.

(** [ThreeScene.exportSTL] *)
Definition exportSTL : M unit :=
  s ← get;
  match mesh s with
  | None => console_log (Warn "No mesh to export")
  | Some m => offer_download "auriga_cable_guide.stl" m
  end.

(** [ThreeScene.loadSTL], from the point where the fetch has answered. *)
Definition loadSTL (res : response) : M unit :=
  try_catch
    (if negb (ok res)
     then throw ("Failed to load STL: " +:+ pretty (status res))
     else
       geometry ← alloc (mkGeometry (parsed res) false);
       BufferGeometry_center geometry;;
       s ← get;
       match mesh s with
       | Some old => BufferGeometry_dispose old
       | None => mret tt
       end;;
       set_mesh (Some geometry);;
       b ← BufferGeometry_clone geometry;
       set_baseGeometry (Some b))
    (λ err, console_log (Error ("Error loading STL: " +:+ err))).

(** The effect of [ThreeScene] that depends on [parameters.depth]. *)
Definition depthEffect (parameters : Parameters) : M unit :=
  s ← get;
  match mesh s, baseGeometry s with
  | Some m, Some b =>
      let targetDepth := depth parameters in
      let bbox := setFromBufferAttribute (position (deref s b)) in
      let currentDepth := vz (bmax bbox) - vz (bmin bbox) in
      if currentDepth <=? nz 0 then mret tt
      else
        let scale := targetDepth / currentDepth in
        newGeometry ← BufferGeometry_clone b;
        let scaleMatrix := makeScale (nz 1) (nz 1) scale in
        BufferGeometry_applyMatrix4 newGeometry scaleMatrix;;
        BufferGeometry_dispose m;;
        set_mesh (Some newGeometry)
  | _, _ => mret tt
  end.

(** The component [App]: its state hook and the scene it renders.  The
    initial state is the mounted component whose fetch is still pending. *)
Record app : Type := mkApp { parameters : Parameters; scene : session }.

(** [setParameters(p)]: the component re-renders, and the depth effect runs
    when [parameters.depth] is not the same value as in the last render. *)
Definition setParameters (p : Parameters) (a : app) : app :=
  mkApp p (if decide (depth p = depth (parameters a)) then scene a
           else exec (depthEffect p) (scene a)).

(** [updateParameter('depth', value)] *)
Definition updateParameter (value : num) (a : app) : app :=
  setParameters (mkParameters value) a.

(** The depth number input; [value] is [Number(e.target.value)]. *)
Definition depth_onChange (value : num) (a : app) : app :=
  if negb (isNaN value) then updateParameter value a else a.

Definition depth_onBlur (value : num) (a : app) : app :=
  if value <? nz 10 then updateParameter (nz 10) a
  else if value >? nz 300 then updateParameter (nz 300) a
  else a.

(** The slider: [onValueChange={(value) => updateParameter('depth', value[0])}]
  *)
Definition slider_onValueChange (value : num) (a : app) : app :=
  updateParameter value a.

(** The Reset button: [setParameters({ depth: 10 })] *)
Definition reset_onClick (a : app) : app :=
  setParameters (mkParameters (nz 10)) a.

Definition handleExportSTL (a : app) : app :=
  mkApp (parameters a) (exec exportSTL (scene a)).

Inductive event : Type :=
  | Fetched (res : response)
  | Change (value : num)
  | Blur (value : num)
  | Slide (value : num)
  | ResetClick
  | ExportClick.

Definition handle (e : event) (a : app) : app :=
  match e with
  | Fetched res => mkApp (parameters a) (exec (loadSTL res) (scene a))
  | Change v => depth_onChange v a
  | Blur v => depth_onBlur v a
  | Slide v => slider_onValueChange v a
  | ResetClick => reset_onClick a
  | ExportClick => handleExportSTL a
  end.

Definition run (es : list event) (a : app) : app :=
  fold_left (λ a e, handle e a) es a.

End React.

(** ** The depth-and-height variant of [ThreeScene] *)

Module DepthHeight.

Record Parameters : Type := mkParameters { depth : num; height : num }.

(** The extrusion loop over the position array.  The raised Y is exact:
    the code stores it in a [Float32Array]. *)
Definition extrude (yThreshold centerX xRange extrusionHeight : num)
    (positions : list Vector3) : list Vector3 :=
  map (λ v,
         let x := vx v in
         let y := vy v in
         let isAboveThreshold := y >? yThreshold in
         let distanceFromCenter := nabs (x - centerX) in
         let isAtExtremity :=
           distanceFromCenter >? xRange * Fin (qfrac 25 100) in
         if isAboveThreshold && isAtExtremity
         then V3 (vx v) (y + extrusionHeight) (vz v)
         else v)
      positions.

(** The selective height scaling applied to the cloned geometry. *)
Definition heightStep (heightScale : num) (newGeometry : nat) : M unit :=
  s ← get;
  let newBbox := computeBoundingBox (deref s newGeometry) in
  let yRange := vy (bmax newBbox) - vy (bmin newBbox) in
  let yThreshold := vy (bmin newBbox) + yRange * Fin (qfrac 55 100) in
  let extrusionHeight :=
    (heightScale - nz 1) * (vy (bmax newBbox) - yThreshold) in
  if extrusionHeight >? nz 0 then
    let xRange := vx (bmax newBbox) - vx (bmin newBbox) in
    let centerX := (vx (bmin newBbox) + vx (bmax newBbox)) / nz 2 in
    update newGeometry (λ g,
      mkGeometry (extrude yThreshold centerX xRange extrusionHeight
                    (position g)) (disposed g))
  else mret tt.

(** The effect that depends on [parameters.depth] and [parameters.height]. *)
Definition effect (parameters : Parameters) : M unit :=
  s ← get;
  match mesh s, baseGeometry s with
  | Some m, Some b =>
      let targetDepth := depth parameters in
      let targetHeight := height parameters in
      let bbox := setFromBufferAttribute (position (deref s b)) in
      let currentDepth := vz (bmax bbox) - vz (bmin bbox) in
      let currentHeight := vy (bmax bbox) - vy (bmin bbox) in
      if (currentDepth <=? nz 0) || (currentHeight <=? nz 0) then mret tt
      else
        let depthScale := targetDepth / currentDepth in
        let heightScale := targetHeight / currentHeight in
        newGeometry ← BufferGeometry_clone b;
        (if nneq depthScale (nz 1)
         then BufferGeometry_applyMatrix4 newGeometry
                (makeScale (nz 1) (nz 1) depthScale)
         else mret tt);;
        (if nneq heightScale (nz 1)
         then heightStep heightScale newGeometry
         else mret tt);;
        BufferGeometry_dispose m;;
        set_mesh (Some newGeometry)
  | _, _ => mret tt
  end.

End DepthHeight.

(** ** Notions used in the statements *)

(** A vertex, and a geometry, all of whose coordinates are finite numbers. *)
Definition finiteV (v : Vector3) : bool :=
  is_finite (vx v) && is_finite (vy v) && is_finite (vz v).

Definition finite_geometry (g : BufferGeometry) : bool :=
  forallb finiteV (position g).

(** Running [Math.min] / [Math.max] over a list, from the empty box. *)
Definition lmin (l : list num) : num := fold_left nmin l PosInf.
Definition lmax (l : list num) : num := fold_left nmax l NegInf.

(** The vertex with its coordinate along [a] multiplied by [scale]. *)
Definition scaleCoord (a : axis) (scale : num) (v : Vector3) : Vector3 :=
  match a with
  | axis_x => V3 (scale * vx v) (vy v) (vz v)
  | axis_y => V3 (vx v) (scale * vy v) (vz v)
  | axis_z => V3 (vx v) (vy v) (scale * vz v)
  end.

(** The diagonal scale matrix along one axis, as [bakeScaleAlongAxis]
    builds it, and the geometry baked from a base geometry with it. *)
Definition axisScaleMatrix (a : axis) (scale : num) : Matrix4 :=
  makeScale (if decide (a = axis_x) then scale else nz 1)
            (if decide (a = axis_y) then scale else nz 1)
            (if decide (a = axis_z) then scale else nz 1).

Definition baked (a : axis) (scale : num) (g : BufferGeometry) : BufferGeometry
  :=
  mkGeometry (positions_applyMatrix4 (axisScaleMatrix a scale) (position g))
    false.

(** A fresh clone of a geometry. *)
Definition cloneOf (g : BufferGeometry) : BufferGeometry :=
  mkGeometry (position g) false.

(** The target-length domain of the depth controls. *)
Definition in_domain (t : num) : bool := (nz 10 <=? t) && (t <=? nz 300).

(** Well-formed sessions: the scene references denote stored objects, and
    the mesh never shares its geometry object with the base geometry. *)
Definition wf (s : session) : Prop :=
  (∀ m, mesh s = Some m → m ∈ dom (store s)) ∧
  (∀ b, baseGeometry s = Some b → b ∈ dom (store s)) ∧
  (∀ m b, mesh s = Some m → baseGeometry s = Some b → m ≠ b).

(** In the vanilla variant the displayed geometry [d] always derives from
    the base geometry [g]: it has the positions of the base, or those of
    the base baked along the depth axis for some target length. *)
Definition vanilla_derived (g d : BufferGeometry) : Prop :=
  position d = position g ∨
  ∃ target,
    let scale := Vanilla.getScaleForTargetLength g axis_z target in
    position d = position (baked axis_z scale g).

Definition vanilla_inv (s : session) : Prop :=
  wf s ∧ (is_Some (mesh s) ↔ is_Some (baseGeometry s)) ∧
  ∀ d g, displayed s = Some d → base s = Some g → vanilla_derived g d.

(** The same for the React variant, where the depth effect bakes the
    factor [target / extent] and only when the extent is positive. *)
Definition react_derived (g d : BufferGeometry) : Prop :=
  position d = position g ∨
  ∃ target, (extent axis_z g <=? nz 0) = false ∧
            position d = position (baked axis_z (target / extent axis_z g) g).

Definition react_inv (s : session) : Prop :=
  wf s ∧ (is_Some (mesh s) ↔ is_Some (baseGeometry s)) ∧
  ∀ d g, displayed s = Some d → base s = Some g → react_derived g d.

(** A sequence of scale operations, one per target length: slider inputs
    in the vanilla variant, runs of the depth effect in the React variant. *)
Definition vanilla_scales (ts : list num) (s : session) : session :=
  Vanilla.run (Vanilla.DepthInput <$> ts) s.

Definition react_scales (ts : list num) (s : session) : session :=
  fold_left (λ s t, exec (React.depthEffect (React.mkParameters t)) s) ts s.

(** A handler reports an error when it throws or writes to the console. *)
Definition reports_error {A : Type} (m : M A) (s : session) : Prop :=
  returns m s = false ∨ console (exec m s) ≠ console s.

(** The session before anything is loaded. *)
Definition session0 : session := mkSession ∅ None None [] [].

(** A concrete asset for the examples: a prism of two triangles, 4 wide,
    6 high and 50 deep, centred at the origin, and a session in which it is
    loaded (object 0 is the geometry of the mesh, object 1 the base). *)
Definition prism_vertices : list Vector3 :=
  [ V3 (nz (-2)) (nz (-3)) (nz (-25)); V3 (nz 2) (nz (-3)) (nz (-25));
    V3 (nz 0) (nz 3) (nz (-25));
    V3 (nz (-2)) (nz (-3)) (nz 25); V3 (nz 2) (nz (-3)) (nz 25);
    V3 (nz 0) (nz 3) (nz 25) ].

Definition prism : BufferGeometry := mkGeometry prism_vertices false.

Definition prism_session : session :=
  mkSession {[ 0%nat := prism; 1%nat := prism ]}
            (Some 0%nat) (Some 1%nat) [] [].

(** The answer of a successful fetch of the prism, and the initial state of
    the React component. *)
Definition prism_response : response := mkResponse true 200 prism_vertices.

Definition app0 : React.app :=
  React.mkApp (React.mkParameters (nz 10)) session0.

(** A bracket whose two upper corners lie at the outer edges: the shape the
    extrusion of the depth-and-height variant acts on. *)
Definition bracket_vertices : list Vector3 :=
  [ V3 (nz (-2)) (nz (-3)) (nz (-25)); V3 (nz 2) (nz (-3)) (nz (-25));
    V3 (nz (-2)) (nz 3) (nz (-25));
    V3 (nz 2) (nz 3) (nz 25); V3 (nz 0) (nz 0) (nz 25);
    V3 (nz 0) (nz (-3)) (nz 25) ].

Definition bracket : BufferGeometry := mkGeometry bracket_vertices false.

Definition bracket_session : session :=
  mkSession {[ 0%nat := bracket; 1%nat := bracket ]}
            (Some 0%nat) (Some 1%nat) [] [].

(** A degenerate asset: a single triangle lying in the plane [z = 0]. *)
Definition flat_vertices : list Vector3 :=
  [ V3 (nz (-2)) (nz (-3)) (nz 0); V3 (nz 2) (nz (-3)) (nz 0);
    V3 (nz 0) (nz 3) (nz 0) ].

Definition flat : BufferGeometry := mkGeometry flat_vertices false.

Definition flat_session : session :=
  mkSession {[ 0%nat := flat; 1%nat := flat ]} (Some 0%nat) (Some 1%nat) [] [].

(** The number formats of the code.  The factor is computed in double
    precision and the positions are stored in single precision (a
    [Float32Array]), while the numbers of the model are exact.  A result
    fits a format when it is not a finite number beyond the largest finite
    number of the format. *)
Definition double_max : Qc := qz (2 ^ 1024 - 2 ^ 971).
Definition float32_max : Qc := qz (2 ^ 128 - 2 ^ 104).

Definition within (bound : Qc) (a : num) : bool :=
  match a with
  | Fin q => Qcleb (- bound) q && Qcleb q bound
  | _ => true
  end.

Definition fits_double : num → bool := within double_max.
Definition fits_float32 : num → bool := within float32_max.

(** Scaling [g] along Z by [factor] does not overflow: the factor fits
    double precision and every scaled Z fits single precision. *)
Definition no_overflow (factor : num) (g : BufferGeometry) : bool :=
  fits_double factor
  && forallb (λ v, fits_float32 (factor * vz v)) (position g).

(** Raising the vertices of [g] towards the target height [H] does not
    overflow: the height scale fits double precision and every Y raised by
    the extrusion height fits single precision. *)
Definition height_fits (H : num) (g : BufferGeometry) : bool :=
  let rise := Fin (qfrac 45 100) * (H - extent axis_y g) in
  fits_double (H / extent axis_y g)
  && forallb (λ v, fits_float32 (vy v + rise)) (position g).

(** ** Notions used in the further properties *)

(** A geometry whose bounding box is centred at the origin: along every
    axis the lower bound is the opposite of the upper bound. *)
Definition centred (g : BufferGeometry) : Prop :=
  ∀ a, coord a (bmin (computeBoundingBox g))
       = nneg (coord a (bmax (computeBoundingBox g))).

(** The positions moved by the vector [t], as [geometry.translate] does. *)
Definition translated (t : Vector3) (ps : list Vector3) : list Vector3 :=
  positions_applyMatrix4 (makeTranslation (vx t) (vy t) (vz t)) ps.

(** The translation the vanilla loader applies to the decoded vertices, and
    the one [geometry.center()] applies in the React variants. *)
Definition vanilla_offset (ps : list Vector3) : Vector3 :=
  let bb := setFromBufferAttribute ps in
  Vector3_negate
    (Vector3_multiplyScalar (Vector3_addVectors (bmin bb) (bmax bb)) half).

Definition react_offset (ps : list Vector3) : Vector3 :=
  Vector3_negate (Box3_getCenter (setFromBufferAttribute ps)).

(** An asset that is not centred when decoded: the prism moved by
    (10, 20, 30). *)
Definition shifted_vertices : list Vector3 :=
  [ V3 (nz 8) (nz 17) (nz 5); V3 (nz 12) (nz 17) (nz 5);
    V3 (nz 10) (nz 23) (nz 5);
    V3 (nz 8) (nz 17) (nz 55); V3 (nz 12) (nz 17) (nz 55);
    V3 (nz 10) (nz 23) (nz 55) ].

Definition shifted_response : response := mkResponse true 200 shifted_vertices.

(** Two sessions that agree on everything but the console. *)
Definition same_scene (s1 s2 : session) : Prop :=
  store s1 = store s2 ∧ mesh s1 = mesh s2 ∧
  baseGeometry s1 = baseGeometry s2 ∧ downloads s1 = downloads s2.

(** Resource discipline.  A stored geometry is in use when the mesh or the
    base-geometry reference points to it.  No geometry in use has been
    disposed; no geometry out of use is left undisposed. *)
Definition in_use (s : session) (l : nat) : Prop :=
  mesh s = Some l ∨ baseGeometry s = Some l.

Definition no_use_after_dispose (s : session) : Prop :=
  ∀ l g, store s !! l = Some g → in_use s l → disposed g = false.

Definition no_leak (s : session) : Prop :=
  ∀ l g, store s !! l = Some g → ¬ in_use s l → disposed g = true.

(** A fetch answered with an HTTP error. *)
Definition not_found : response := mkResponse false 404 [].

(** The scene of the React component is in step with its depth parameter:
    the displayed geometry has the positions of the base geometry (nothing
    was scaled since the load), or those of the base geometry baked for the
    depth the component currently holds. *)
Definition react_synced (a : React.app) : Prop :=
  ∀ d g, displayed (React.scene a) = Some d → base (React.scene a) = Some g →
    position d = position g ∨
    ((extent axis_z g <=? nz 0) = false ∧
     position d
     = position (baked axis_z
                   (React.depth (React.parameters a) / extent axis_z g) g)).

(** Events that can replace the base geometry: successful loads. *)
Definition vanilla_loads (e : Vanilla.event) : bool :=
  match e with Vanilla.Loaded res => ok res | _ => false end.

Definition react_loads (e : React.event) : bool :=
  match e with React.Fetched res => ok res | _ => false end.

(** Slider events that deliver a number. *)
Definition slides_number (e : React.event) : bool :=
  match e with React.Slide v => negb (isNaN v) | _ => true end.

(** ** The depth-and-height variant: positions and placement *)

(** The data path of the depth-and-height effect, as functions of the
    position array: the selective height scaling, and the two steps applied
    to the positions of the base geometry. *)
Definition heightStep_positions (heightScale : num) (positions : list Vector3)
    : list Vector3 :=
  let newBbox := setFromBufferAttribute positions in
  let yRange := vy (bmax newBbox) - vy (bmin newBbox) in
  let yThreshold := vy (bmin newBbox) + yRange * Fin (qfrac 55 100) in
  let extrusionHeight :=
    (heightScale - nz 1) * (vy (bmax newBbox) - yThreshold) in
  if extrusionHeight >? nz 0 then
    let xRange := vx (bmax newBbox) - vx (bmin newBbox) in
    let centerX := (vx (bmin newBbox) + vx (bmax newBbox)) / nz 2 in
    DepthHeight.extrude yThreshold centerX xRange extrusionHeight positions
  else positions.

Definition effect_positions (p : DepthHeight.Parameters)
    (positions : list Vector3) : list Vector3 :=
  let bbox := setFromBufferAttribute positions in
  let currentDepth := vz (bmax bbox) - vz (bmin bbox) in
  let currentHeight := vy (bmax bbox) - vy (bmin bbox) in
  let depthScale := DepthHeight.depth p / currentDepth in
  let heightScale := DepthHeight.height p / currentHeight in
  let scaled :=
    if nneq depthScale (nz 1)
    then positions_applyMatrix4 (makeScale (nz 1) (nz 1) depthScale) positions
    else positions in
  if nneq heightScale (nz 1)
  then heightStep_positions heightScale scaled
  else scaled.

(** [loadSTL] of the depth-and-height variant positions the mesh: its Y
    position is the opposite of the lowest Y of the decoded vertices, taken
    before the geometry is centred, plus 2. *)
Definition mesh_position_y (vertices : list Vector3) : num :=
  let bbox := setFromBufferAttribute vertices in
  let yOffset := nneg (vy (bmin bbox)) in
  yOffset + nz 2.

(** The lowest Y of that mesh in the scene: the lowest Y of its centred
    geometry, moved by the position of the mesh. *)
Definition mesh_bottom (vertices : list Vector3) : num :=
  vy (bmin (setFromBufferAttribute
              (translated (react_offset vertices) vertices)))
  + mesh_position_y vertices.

(** ** The depth readout and the slider of the vanilla variant *)

(** [Math.round]: the nearest integer, halves towards [+Infinity]. *)
Definition Math_round (a : num) : num :=
  match a with
  | Fin q => nz (Qfloor (q + qfrac 1 2)%Qc)
  | _ => a
  end.

(** [a || b] on numbers: [b] when [a] is [0] or [NaN]. *)
Definition num_or (a b : num) : num :=
  match a with
  | NaN => b
  | Fin q => if bool_decide (q = 0%Qc) then b else a
  | _ => a
  end.

(** [updateCurrentDepthDisplay]: the text written to the depth readout. *)
Definition updateCurrentDepthDisplay (geometry : BufferGeometry) (a : axis)
    : num :=
  let lens := Vanilla.computeAxisLengths geometry in
  Math_round (coord a lens).

(** The value [loadSTLFromArrayBuffer] gives the depth slider after a
    load; [range_min] and [range_max] are [Number(depthRange.min)] and
    [Number(depthRange.max)]. *)
Definition initial_slider_value (range_min range_max : num)
    (geo : BufferGeometry) : num :=
  let min := num_or range_min (nz 20) in
  let max := num_or range_max (nz 300) in
  nmin (nmax (Math_round (coord Vanilla.DEPTH_AXIS
                            (Vanilla.computeAxisLengths geo))) min) max.

(** ** Proof automation for the object store *)

(** Names the locations allocated in the goal, innermost first, and records
    that each is outside the domain it was drawn from. *)
Ltac name_fresh :=
  repeat match goal with
  | |- context [fresh (dom ?st)] =>
      lazymatch st with context [fresh _] => fail | _ => idtac end;
      let H := fresh "Hfresh" in
      let l := fresh "l" in
      pose proof (is_fresh (dom st)) as H;
      set (l := fresh (dom st)) in *; clearbody l;
      rewrite ?dom_insert_L in H
  end.

(** Goals about the store after a handler: the references involved are
    pairwise distinct because cloning allocates a fresh one. *)
Ltac store_facts :=
  unfold wf, displayed, base, deref in *; simpl in *;
  rewrite ?dom_insert_L;
  repeat first
    [ rewrite lookup_total_insert_eq
    | rewrite lookup_total_insert_ne by (done || set_solver) ].

(** Goals about the disposal flags after a handler: a lookup in the
    updated store is a lookup at one of the written references or in the
    old store. *)
Ltac disposal_solver :=
  unfold no_use_after_dispose, no_leak, in_use in *; simpl;
  split; intros k gk Hk Hu; rewrite !lookup_insert_Some in Hk;
  unfold deref in Hk; simpl in Hk;
  rewrite ?lookup_total_insert_eq in Hk;
  naive_solver.

(** ** Arithmetic of exact rationals *)

Section rationals.
Local Open Scope Qc_scope.

Lemma Qcltb_lt (a b : Qc) : Qcltb a b = true ↔ a < b.
Proof.
  unfold Qcltb. rewrite Qclt_alt. destruct (a ?= b); intuition congruence.
Qed.

Lemma Qcleb_le (a b : Qc) : Qcleb a b = true ↔ a ≤ b.
Proof.
  unfold Qcleb. rewrite Qcle_alt. destruct (a ?= b); intuition congruence.
Qed.

Lemma Qcltb_mult_pos_l (s x y : Qc) :
  0 < s → Qcltb (s * x) (s * y) = Qcltb x y.
Proof.
  intros Hs. apply eq_true_iff_eq. rewrite !Qcltb_lt.
  symmetry. by apply Qcmult_lt_mono_pos_l.
Qed.

Lemma Qcleb_Qcltb (a b : Qc) : Qcleb a b = negb (Qcltb b a).
Proof.
  apply eq_true_iff_eq. rewrite negb_true_iff, Qcleb_le.
  destruct (Qcltb b a) eqn:E.
  - apply Qcltb_lt in E. split; [|done].
    intros H. by destruct (Qclt_not_le _ _ E).
  - split; [done|]. intros _. apply Qcnot_lt_le.
    intros H%Qcltb_lt. congruence.
Qed.

Lemma Qcinv_pos (c : Qc) : 0 < c → 0 < / c.
Proof.
  intros Hc. destruct (Qclt_le_dec 0 (/ c)) as [|Hle]; [done|].
  exfalso. assert (c * / c ≤ c * 0) as H.
  { apply Qcmult_le_mono_nonneg_l; [by apply Qclt_le_weak|done]. }
  rewrite Qcmult_inv_r, Qcmult_0_r in H.
  - by apply (Qclt_not_le 0 1).
  - intros ->. by apply (Qclt_not_eq 0 0).
Qed.

Lemma Qcdiv_pos (t c : Qc) : 0 < t → 0 < c → 0 < t / c.
Proof. intros. apply Qcmult_pos_pos; [done|by apply Qcinv_pos]. Qed.

Lemma Qcdiv_mult_cancel (t c : Qc) : c ≠ 0 → t / c * c = t.
Proof. intros. by field. Qed.

Lemma Qc_pos_neq_0 (c : Qc) : 0 < c → c ≠ 0.
Proof. intros H ->. by apply (Qclt_not_eq 0 0). Qed.

End rationals.

(** ** Arithmetic of JavaScript numbers *)

Section numbers.

Lemma nz_0 : nz 0 = Fin 0%Qc.
Proof. reflexivity. Qed.
Lemma nz_1 : nz 1 = Fin 1%Qc.
Proof. reflexivity. Qed.

Lemma nadd_0_r (a : num) : a + Fin 0%Qc = a.
Proof. destruct a; simpl; by rewrite ?Qcplus_0_r. Qed.

Lemma nadd_0_l (a : num) : Fin 0%Qc + a = a.
Proof. destruct a; simpl; by rewrite ?Qcplus_0_l. Qed.

Lemma nmul_1_l (a : num) : Fin 1%Qc * a = a.
Proof. destruct a; simpl; by rewrite ?Qcmult_1_l. Qed.

Lemma nmul_1_r (a : num) : a * Fin 1%Qc = a.
Proof. destruct a; simpl; by rewrite ?Qcmult_1_r. Qed.

Lemma nmul_0_fin (x : Qc) : Fin 0%Qc * Fin x = Fin 0%Qc.
Proof. simpl. by rewrite Qcmult_0_l. Qed.

Lemma signed_inf_pos (s : Qc) (p : bool) :
  (0 < s)%Qc → signed_inf s p = if p then PosInf else NegInf.
Proof. intros Hs%Qcltb_lt. unfold signed_inf. by rewrite Hs. Qed.

Lemma nmax_scale (s : Qc) (a b : num) :
  (0 < s)%Qc → nmax (Fin s * a) (Fin s * b) = Fin s * nmax a b.
Proof.
  intros Hs. destruct a, b; simpl; rewrite ?signed_inf_pos by done; try done.
  rewrite Qcltb_mult_pos_l by done. by destruct (Qcltb q q0).
Qed.

Lemma nmin_scale (s : Qc) (a b : num) :
  (0 < s)%Qc → nmin (Fin s * a) (Fin s * b) = Fin s * nmin a b.
Proof.
  intros Hs. destruct a, b; simpl; rewrite ?signed_inf_pos by done; try done.
  rewrite Qcltb_mult_pos_l by done. by destruct (Qcltb q0 q).
Qed.

Lemma nsub_scale (s : Qc) (a b : num) :
  (0 < s)%Qc → Fin s * a - Fin s * b = Fin s * (a - b).
Proof.
  intros Hs. unfold nsub.
  destruct a, b; simpl; rewrite ?signed_inf_pos by done; try done.
  f_equal. ring.
Qed.

End numbers.

(** ** Scaling a vertex and measuring a geometry *)

Section geometry.

Lemma finiteV_inv (v : Vector3) :
  finiteV v = true → ∃ x y z, v = V3 (Fin x) (Fin y) (Fin z).
Proof.
  destruct v as [[]  [] []]; try discriminate. intros _. by eexists _, _, _.
Qed.

(** On a finite vertex the scale matrix multiplies each coordinate by its
    diagonal entry, whatever the entries are. *)
Lemma applyMatrix4_makeScale (sx sy sz : num) (v : Vector3) :
  finiteV v = true →
  Vector3_applyMatrix4 (makeScale sx sy sz) v
  = V3 (sx * vx v) (sy * vy v) (sz * vz v).
Proof.
  intros (x & y & z & ->)%finiteV_inv.
  unfold Vector3_applyMatrix4, makeScale. cbn [vx vy vz n11 n12 n13 n14
    n21 n22 n23 n24 n31 n32 n33 n34 n41 n42 n43 n44].
  rewrite nz_0, nz_1, !nmul_0_fin.
  assert (Fin 0%Qc + Fin 0%Qc + Fin 0%Qc + Fin 1%Qc = Fin 1%Qc) as ->
    by compute_done.
  assert (Fin 1%Qc / Fin 1%Qc = Fin 1%Qc) as -> by compute_done.
  by rewrite !nmul_1_r, !nadd_0_r, !nadd_0_l.
Qed.

Lemma applyMatrix4_axisScale (a : axis) (scale : num) (v : Vector3) :
  finiteV v = true →
  Vector3_applyMatrix4 (axisScaleMatrix a scale) v = scaleCoord a scale v.
Proof.
  intros Hv. unfold axisScaleMatrix. rewrite applyMatrix4_makeScale by done.
  rewrite nz_1. destruct a; cbn -[nmul]; by rewrite !nmul_1_l.
Qed.

Lemma coord_scaleCoord_same (a : axis) (scale : num) (v : Vector3) :
  coord a (scaleCoord a scale v) = scale * coord a v.
Proof. by destruct a. Qed.

Lemma coord_scaleCoord_other (a a' : axis) (scale : num) (v : Vector3) :
  a' ≠ a → coord a' (scaleCoord a scale v) = coord a' v.
Proof. by destruct a, a'. Qed.

Lemma position_baked (a : axis) (scale : num) (g : BufferGeometry) :
  finite_geometry g = true →
  position (baked a scale g) = map (scaleCoord a scale) (position g).
Proof.
  unfold finite_geometry, baked, positions_applyMatrix4. simpl.
  induction (position g) as [|v ps IH]; simpl; [done|].
  intros [Hv Hps]%andb_true_iff.
  by rewrite applyMatrix4_axisScale, IH.
Qed.

(** The bounding box, one axis at a time. *)
Lemma fold_expandByPoint_coord (a : axis) (ps : list Vector3) (b : Box3) :
  coord a (bmin (fold_left expandByPoint ps b))
    = fold_left nmin (map (coord a) ps) (coord a (bmin b)) ∧
  coord a (bmax (fold_left expandByPoint ps b))
    = fold_left nmax (map (coord a) ps) (coord a (bmax b)).
Proof.
  revert b. induction ps as [|p ps IH]; intros b; simpl; [done|].
  destruct (IH (expandByPoint b p)) as [-> ->]. by destruct a.
Qed.

Lemma extent_lmax_lmin (a : axis) (g : BufferGeometry) :
  extent a g = lmax (map (coord a) (position g))
               - lmin (map (coord a) (position g)).
Proof.
  unfold extent, computeBoundingBox, setFromBufferAttribute, lmax, lmin.
  destruct (fold_expandByPoint_coord a (position g) makeEmpty) as [-> ->].
  by destruct a.
Qed.

Lemma fold_nmax_scale (s : Qc) (l : list num) (acc : num) :
  (0 < s)%Qc →
  fold_left nmax (map (nmul (Fin s)) l) (Fin s * acc)
  = Fin s * fold_left nmax l acc.
Proof.
  intros Hs. revert acc.
  induction l as [|x l IH]; intros acc; cbn [fold_left map]; [done|].
  by rewrite nmax_scale, IH.
Qed.

Lemma fold_nmin_scale (s : Qc) (l : list num) (acc : num) :
  (0 < s)%Qc →
  fold_left nmin (map (nmul (Fin s)) l) (Fin s * acc)
  = Fin s * fold_left nmin l acc.
Proof.
  intros Hs. revert acc.
  induction l as [|x l IH]; intros acc; cbn [fold_left map]; [done|].
  by rewrite nmin_scale, IH.
Qed.

Lemma lmax_scale (s : Qc) (l : list num) :
  (0 < s)%Qc → lmax (map (nmul (Fin s)) l) = Fin s * lmax l.
Proof.
  intros Hs. unfold lmax. rewrite <-fold_nmax_scale by done.
  simpl. by rewrite signed_inf_pos.
Qed.

Lemma lmin_scale (s : Qc) (l : list num) :
  (0 < s)%Qc → lmin (map (nmul (Fin s)) l) = Fin s * lmin l.
Proof.
  intros Hs. unfold lmin. rewrite <-fold_nmin_scale by done.
  simpl. by rewrite signed_inf_pos.
Qed.

(** Baking a positive finite factor multiplies the extent along the scale
    axis by the factor. *)
Lemma extent_baked_same (a : axis) (s : Qc) (g : BufferGeometry) :
  finite_geometry g = true → (0 < s)%Qc →
  extent a (baked a (Fin s) g) = Fin s * extent a g.
Proof.
  intros Hg Hs. rewrite !extent_lmax_lmin, position_baked by done.
  rewrite map_map.
  rewrite (map_ext _ (λ v, Fin s * coord a v))
    by (intros; apply coord_scaleCoord_same).
  rewrite <-(map_map (coord a) (nmul (Fin s))).
  by rewrite lmax_scale, lmin_scale, nsub_scale.
Qed.

(** Baking any factor leaves the extents along the other axes alone. *)
Lemma extent_baked_other (a a' : axis) (scale : num) (g : BufferGeometry) :
  finite_geometry g = true → a' ≠ a →
  extent a' (baked a scale g) = extent a' g.
Proof.
  intros Hg Ha. rewrite !extent_lmax_lmin, position_baked by done.
  rewrite map_map.
  by rewrite (map_ext _ (coord a'))
    by (intros; by apply coord_scaleCoord_other).
Qed.

End geometry.

Section finite_extent.

Lemma fold_nmax_finite (l : list num) (acc : num) :
  forallb is_finite l = true → acc = NegInf ∨ is_finite acc = true →
  fold_left nmax l acc = NegInf ∨ is_finite (fold_left nmax l acc) = true.
Proof.
  revert acc. induction l as [|x l IH]; intros acc; simpl; [done|].
  intros [Hx Hl]%andb_true_iff Hacc. apply IH; [done|].
  destruct x; try discriminate.
  destruct Hacc as [->|Hacc]; [by right|].
  destruct acc; try discriminate. simpl. right. by destruct (Qcltb _ _).
Qed.

Lemma fold_nmin_finite (l : list num) (acc : num) :
  forallb is_finite l = true → acc = PosInf ∨ is_finite acc = true →
  fold_left nmin l acc = PosInf ∨ is_finite (fold_left nmin l acc) = true.
Proof.
  revert acc. induction l as [|x l IH]; intros acc; simpl; [done|].
  intros [Hx Hl]%andb_true_iff Hacc. apply IH; [done|].
  destruct x; try discriminate.
  destruct Hacc as [->|Hacc]; [by right|].
  destruct acc; try discriminate. simpl. right. by destruct (Qcltb _ _).
Qed.

Lemma finite_coords (a : axis) (ps : list Vector3) :
  forallb finiteV ps = true → forallb is_finite (map (coord a) ps) = true.
Proof.
  induction ps as [|v ps IH]; simpl; [done|].
  intros [Hv Hps]%andb_true_iff. rewrite IH by done.
  apply finiteV_inv in Hv as (x & y & z & ->). by destruct a.
Qed.

(** The bounds of a finite geometry along an axis. *)
Lemma bounds_finite (a : axis) (g : BufferGeometry) :
  finite_geometry g = true →
  (lmax (map (coord a) (position g)) = NegInf ∨
   is_finite (lmax (map (coord a) (position g))) = true) ∧
  (lmin (map (coord a) (position g)) = PosInf ∨
   is_finite (lmin (map (coord a) (position g))) = true).
Proof.
  intros Hg. pose proof (finite_coords a _ Hg) as Hf. split.
  - apply fold_nmax_finite; [done|by left].
  - apply fold_nmin_finite; [done|by left].
Qed.

(** A positive extent of a finite geometry is a positive rational. *)
Lemma extent_finite_pos (a : axis) (g : BufferGeometry) :
  finite_geometry g = true → (extent a g >? nz 0) = true →
  ∃ c : Qc, extent a g = Fin c ∧ (0 < c)%Qc.
Proof.
  intros Hg. rewrite extent_lmax_lmin.
  destruct (bounds_finite a g Hg) as [Hmax Hmin].
  destruct (lmax _) as [| |x|], (lmin _) as [| |y|];
    destruct Hmax as [?|?], Hmin as [?|?]; try discriminate.
  unfold ngt, nsub. simpl. intros Hpos%Qcltb_lt. by eexists.
Qed.

(** The extent of a finite geometry is never [NaN]: it is positive, or it
    is zero or (for a geometry without vertices) [-Infinity]. *)
Lemma extent_finite_cases (a : axis) (g : BufferGeometry) :
  finite_geometry g = true →
  (extent a g >? nz 0) = true ∨ (extent a g <=? nz 0) = true.
Proof.
  intros Hg. rewrite extent_lmax_lmin.
  destruct (bounds_finite a g Hg) as [Hmax Hmin].
  destruct (lmax _) as [| |x|], (lmin _) as [| |y|];
    destruct Hmax as [?|?], Hmin as [?|?]; try discriminate;
    try (by right).
  unfold ngt, nsub. simpl. rewrite Qcleb_Qcltb.
  destruct (Qcltb _ _); [by left|by right].
Qed.

End finite_extent.

(** ** Handlers and the object store *)

Section handlers.

Lemma fresh_ne (st : gmap nat BufferGeometry) (k : nat) :
  k ∈ dom st → fresh (dom st) ≠ k.
Proof. intros Hk E. apply (is_fresh (dom st)). by rewrite E. Qed.

Lemma fresh_insert (st : gmap nat BufferGeometry) (m : nat)
    (g : BufferGeometry) :
  (fresh (dom (<[m:=g]> st)) ∉ dom st) ∧ (fresh (dom (<[m:=g]> st)) ≠ m).
Proof.
  pose proof (is_fresh (dom (<[m:=g]> st))) as H.
  remember (fresh (dom (<[m:=g]> st))) as l eqn:E. clear E.
  rewrite dom_insert_L in H. set_solver.
Qed.

Lemma bake_spec (a : axis) (scale : num) (s : session) (m b : nat) :
  wf s → mesh s = Some m → baseGeometry s = Some b →
  let s' := exec (Vanilla.bakeScaleAlongAxis a scale) s in
  wf s' ∧ displayed s' = Some (baked a scale (deref s b)) ∧
  baseGeometry s' = Some b ∧ deref s' b = deref s b ∧
  console s' = console s ∧ downloads s' = downloads s ∧
  returns (Vanilla.bakeScaleAlongAxis a scale) s = true.
Proof.
  intros (Hm & Hb & Hmb) Em Eb.
  unfold Vanilla.bakeScaleAlongAxis, exec, returns.
  unfold mbind, M_bind, get. rewrite Em, Eb. simpl.
  pose proof (fresh_ne _ _ (Hm _ Em)) as Hlm.
  pose proof (fresh_ne _ _ (Hb _ Eb)) as Hlb.
  specialize (Hmb _ _ Em Eb). specialize (Hb _ Eb).
  store_facts. split_and!; try done; intros; simplify_eq; set_solver.
Qed.

Lemma bake_skip (a : axis) (scale : num) (s : session) :
  mesh s = None ∨ baseGeometry s = None →
  Vanilla.bakeScaleAlongAxis a scale s = (Normal tt, s).
Proof.
  unfold Vanilla.bakeScaleAlongAxis, mbind, M_bind, get.
  intros [-> | ->]; [done|]. by destruct (mesh s).
Qed.

Lemma depthRange_input_eq (target : num) (s : session) (m b : nat) :
  mesh s = Some m → baseGeometry s = Some b →
  Vanilla.depthRange_input target s
  = Vanilla.bakeScaleAlongAxis axis_z
      (Vanilla.getScaleForTargetLength (deref s b) axis_z target) s.
Proof.
  intros Em Eb. unfold Vanilla.depthRange_input.
  unfold mbind at 1. unfold M_bind at 1. unfold get at 1.
  by rewrite Em, Eb.
Qed.

Lemma depthRange_input_skip (target : num) (s : session) :
  mesh s = None ∨ baseGeometry s = None →
  Vanilla.depthRange_input target s = (Normal tt, s).
Proof.
  intros H. unfold Vanilla.depthRange_input.
  unfold mbind at 1. unfold M_bind at 1. unfold get at 1.
  destruct (mesh s) eqn:Em; [|done].
  apply bake_skip. destruct H; [congruence|by right].
Qed.

Lemma depthRange_input_spec (target : num) (s : session) (m b : nat) :
  wf s → mesh s = Some m → baseGeometry s = Some b →
  let scale := Vanilla.getScaleForTargetLength (deref s b) axis_z target in
  let s' := exec (Vanilla.depthRange_input target) s in
  wf s' ∧ displayed s' = Some (baked axis_z scale (deref s b)) ∧
  baseGeometry s' = Some b ∧ deref s' b = deref s b ∧
  console s' = console s ∧ downloads s' = downloads s ∧
  returns (Vanilla.depthRange_input target) s = true.
Proof.
  intros Hwf Em Eb. unfold exec, returns.
  rewrite (depthRange_input_eq _ _ _ _ Em Eb).
  by apply (bake_spec axis_z _ s m b).
Qed.

Lemma reset_spec (s : session) (m b : nat) :
  wf s → mesh s = Some m → baseGeometry s = Some b →
  let s' := exec Vanilla.resetScaleBtn_click s in
  wf s' ∧ displayed s' = Some (cloneOf (deref s b)) ∧
  baseGeometry s' = Some b ∧ deref s' b = deref s b ∧
  console s' = console s ∧ downloads s' = downloads s ∧
  returns Vanilla.resetScaleBtn_click s = true.
Proof.
  intros (Hm & Hb & Hmb) Em Eb.
  unfold Vanilla.resetScaleBtn_click, exec, returns.
  unfold mbind, M_bind, get. rewrite Em, Eb. simpl.
  assert (m ∈ dom (store s)) as Hmd by auto.
  destruct (fresh_insert (store s) m (mkGeometry (position (deref s m)) true))
    as [Hl Hlm].
  specialize (Hmb _ _ Em Eb). specialize (Hb _ Eb).
  set (l := fresh _) in *. clearbody l.
  assert (l ≠ b) as Hlb by set_solver.
  store_facts. split_and!; try done; intros; simplify_eq; set_solver.
Qed.

Lemma reset_skip (s : session) :
  mesh s = None ∨ baseGeometry s = None →
  Vanilla.resetScaleBtn_click s = (Normal tt, s).
Proof.
  unfold Vanilla.resetScaleBtn_click, mbind, M_bind, get.
  intros [-> | ->]; [done|]. by destruct (mesh s).
Qed.

(** The geometry a successful load installs: the decoded vertices moved so
    that the centre of their bounding box is the origin. *)
Lemma autoLoad_ok_spec (res : response) (s : session) :
  wf s → ok res = true →
  let s' := exec (Vanilla.autoLoadProvidedSTL res) s in
  ∃ g, wf s' ∧ displayed s' = Some g ∧ base s' = Some (cloneOf g) ∧
       vertexCount g = length (parsed res).
Proof.
  intros (Hm & Hb & Hmb) Hok.
  unfold Vanilla.autoLoadProvidedSTL, try_catch, exec. rewrite Hok. simpl.
  unfold Vanilla.loadSTLFromArrayBuffer, Vanilla.clearModel.
  unfold mbind, M_bind, get. simpl.
  destruct (mesh s) as [m|] eqn:Em, (baseGeometry s) as [b|] eqn:Eb; simpl.
  all: eexists; name_fresh; store_facts.
  all: split_and!; try done; try (intros; simplify_eq; set_solver).
  all: unfold vertexCount, positions_applyMatrix4; simpl.
  all: apply length_map.
Qed.

Lemma autoLoad_fail_spec (res : response) (s : session) :
  ok res = false →
  let s' := exec (Vanilla.autoLoadProvidedSTL res) s in
  store s' = store s ∧ mesh s' = mesh s ∧ baseGeometry s' = baseGeometry s ∧
  downloads s' = downloads s.
Proof.
  intros Hok. unfold Vanilla.autoLoadProvidedSTL, try_catch, exec.
  rewrite Hok. simpl. done.
Qed.

Lemma exportCurrentMeshAsSTL_frame (now : N) (s : session) :
  let s' := exec (Vanilla.exportCurrentMeshAsSTL now) s in
  store s' = store s ∧ mesh s' = mesh s ∧ baseGeometry s' = baseGeometry s ∧
  console s' = console s.
Proof.
  unfold Vanilla.exportCurrentMeshAsSTL, exec, mbind, M_bind, get.
  destruct (mesh s) eqn:E; simpl; by rewrite ?E.
Qed.

Lemma vanilla_inv_ext (s s' : session) :
  store s' = store s → mesh s' = mesh s → baseGeometry s' = baseGeometry s →
  vanilla_inv s → vanilla_inv s'.
Proof.
  unfold vanilla_inv, wf, displayed, base, deref. by intros -> -> ->.
Qed.

Lemma both_or_none (s : session) :
  (is_Some (mesh s) ↔ is_Some (baseGeometry s)) →
  (∃ m b, mesh s = Some m ∧ baseGeometry s = Some b) ∨
  (mesh s = None ∧ baseGeometry s = None).
Proof.
  intros [H1 H2]. destruct (mesh s) as [m|], (baseGeometry s) as [b|].
  - left. by eexists _, _.
  - by destruct H1 as [? [=]].
  - by destruct H2 as [? [=]].
  - by right.
Qed.

Lemma displayed_is_Some (s : session) (d : BufferGeometry) :
  displayed s = Some d → is_Some (mesh s).
Proof. unfold displayed. by destruct (mesh s). Qed.

Lemma base_is_Some (s : session) (g : BufferGeometry) :
  base s = Some g → is_Some (baseGeometry s).
Proof. unfold base. by destruct (baseGeometry s). Qed.

Lemma base_deref (s : session) (b : nat) :
  baseGeometry s = Some b → base s = Some (deref s b).
Proof. unfold base. by intros ->. Qed.

Lemma displayed_deref (s : session) (m : nat) :
  mesh s = Some m → displayed s = Some (deref s m).
Proof. unfold displayed. by intros ->. Qed.

Lemma vanilla_inv_handle (e : Vanilla.event) (s : session) :
  vanilla_inv s → vanilla_inv (exec (Vanilla.handle e) s).
Proof.
  intros (Hwf & Hboth & Hder).
  destruct e as [res|target| |now]; simpl.
  - destruct (ok res) eqn:Hok.
    + destruct (autoLoad_ok_spec res s Hwf Hok) as (g & Hwf' & Hd & Hb & _).
      split_and!; [done|..].
      * split; intros _; eauto using displayed_is_Some, base_is_Some.
      * intros d g' Hd' Hb'. left. by simplify_eq.
    + destruct (autoLoad_fail_spec res s Hok) as (? & ? & ? & _).
      by eapply vanilla_inv_ext.
  - destruct (both_or_none s Hboth) as [(m & b & Em & Eb)|[Em Eb]].
    + destruct (depthRange_input_spec target s m b Hwf Em Eb)
        as (Hwf' & Hd & Hb & Hbg & _).
      split_and!; [done|..].
      * rewrite Hb. split; intros _; eauto using displayed_is_Some.
      * intros d g' Hd' Hb'. right. exists target.
        rewrite (base_deref _ _ Hb), Hbg in Hb'. by simplify_eq.
    + unfold exec. by rewrite depthRange_input_skip by by left.
  - destruct (both_or_none s Hboth) as [(m & b & Em & Eb)|[Em Eb]].
    + destruct (reset_spec s m b Hwf Em Eb) as (Hwf' & Hd & Hb & Hbg & _).
      split_and!; [done|..].
      * rewrite Hb. split; intros _; eauto using displayed_is_Some.
      * intros d g' Hd' Hb'. left.
        rewrite (base_deref _ _ Hb), Hbg in Hb'. by simplify_eq.
    + unfold exec. by rewrite reset_skip by by left.
  - destruct (exportCurrentMeshAsSTL_frame now s) as (? & ? & ? & _).
    by eapply vanilla_inv_ext.
Qed.

Lemma vanilla_inv_run (es : list Vanilla.event) (s : session) :
  vanilla_inv s → vanilla_inv (Vanilla.run es s).
Proof.
  revert s. induction es as [|e es IH]; intros s Hs; simpl; [done|].
  by apply IH, vanilla_inv_handle.
Qed.

Lemma vanilla_inv_session0 : vanilla_inv session0.
Proof.
  split_and!; [split_and!|..]; done.
Qed.

(** *** The React variant *)

Lemma depthEffect_skip (p : React.Parameters) (s : session) :
  mesh s = None ∨ baseGeometry s = None →
  React.depthEffect p s = (Normal tt, s).
Proof.
  unfold React.depthEffect, mbind, M_bind, get.
  intros [-> | ->]; [done|]. by destruct (mesh s).
Qed.

Lemma depthEffect_degenerate (p : React.Parameters) (s : session) (b : nat) :
  baseGeometry s = Some b → (extent axis_z (deref s b) <=? nz 0) = true →
  React.depthEffect p s = (Normal tt, s).
Proof.
  intros Eb Hdeg. unfold React.depthEffect, mbind, M_bind, get.
  rewrite Eb. destruct (mesh s); [|done].
  unfold extent, computeBoundingBox in Hdeg. simpl in *. by rewrite Hdeg.
Qed.

Lemma depthEffect_spec (p : React.Parameters) (s : session) (m b : nat) :
  wf s → mesh s = Some m → baseGeometry s = Some b →
  (extent axis_z (deref s b) <=? nz 0) = false →
  let scale := React.depth p / extent axis_z (deref s b) in
  let s' := exec (React.depthEffect p) s in
  wf s' ∧ displayed s' = Some (baked axis_z scale (deref s b)) ∧
  baseGeometry s' = Some b ∧ deref s' b = deref s b ∧
  console s' = console s ∧ downloads s' = downloads s ∧
  returns (React.depthEffect p) s = true.
Proof.
  intros (Hm & Hb & Hmb) Em Eb Hpos.
  unfold React.depthEffect, exec, returns.
  unfold mbind, M_bind, get. rewrite Em, Eb.
  unfold extent, computeBoundingBox in Hpos. simpl in *. rewrite Hpos. simpl.
  specialize (Hmb _ _ Em Eb). specialize (Hb _ Eb). specialize (Hm _ Em).
  name_fresh. store_facts.
  split_and!; try done; intros; simplify_eq; set_solver.
Qed.

Lemma loadSTL_ok_spec (res : response) (s : session) :
  wf s → ok res = true →
  let s' := exec (React.loadSTL res) s in
  ∃ g, wf s' ∧ displayed s' = Some g ∧ base s' = Some (cloneOf g) ∧
       vertexCount g = length (parsed res).
Proof.
  intros (Hm & Hb & Hmb) Hok.
  unfold React.loadSTL, try_catch, exec. rewrite Hok. simpl.
  unfold BufferGeometry_center, BufferGeometry_translate.
  unfold mbind, M_bind, get. simpl.
  destruct (mesh s) as [m|] eqn:Em, (baseGeometry s) as [b|] eqn:Eb; simpl.
  all: eexists; name_fresh; store_facts.
  all: split_and!; try done; try (intros; simplify_eq; set_solver).
  all: unfold vertexCount, positions_applyMatrix4; simpl.
  all: apply length_map.
Qed.

Lemma loadSTL_fail_spec (res : response) (s : session) :
  ok res = false →
  let s' := exec (React.loadSTL res) s in
  store s' = store s ∧ mesh s' = mesh s ∧ baseGeometry s' = baseGeometry s ∧
  downloads s' = downloads s.
Proof.
  intros Hok. unfold React.loadSTL, try_catch, exec.
  rewrite Hok. simpl. done.
Qed.

Lemma exportSTL_frame (s : session) :
  let s' := exec React.exportSTL s in
  store s' = store s ∧ mesh s' = mesh s ∧ baseGeometry s' = baseGeometry s.
Proof.
  unfold React.exportSTL, exec, mbind, M_bind, get.
  destruct (mesh s) eqn:E; simpl; by rewrite ?E.
Qed.

Lemma react_inv_ext (s s' : session) :
  store s' = store s → mesh s' = mesh s → baseGeometry s' = baseGeometry s →
  react_inv s → react_inv s'.
Proof.
  unfold react_inv, wf, displayed, base, deref. by intros -> -> ->.
Qed.

Lemma react_inv_depthEffect (p : React.Parameters) (s : session) :
  react_inv s → react_inv (exec (React.depthEffect p) s).
Proof.
  intros (Hwf & Hboth & Hder).
  destruct (both_or_none s Hboth) as [(m & b & Em & Eb)|[Em Eb]].
  - destruct (extent axis_z (deref s b) <=? nz 0) eqn:Hdeg.
    + unfold exec. by rewrite (depthEffect_degenerate _ _ _ Eb Hdeg).
    + destruct (depthEffect_spec p s m b Hwf Em Eb Hdeg)
        as (Hwf' & Hd & Hb & Hbg & _).
      split_and!; [done|..].
      * rewrite Hb. split; intros _; eauto using displayed_is_Some.
      * intros d g' Hd' Hb'. right. exists (React.depth p).
        rewrite (base_deref _ _ Hb), Hbg in Hb'. by simplify_eq.
  - unfold exec. by rewrite depthEffect_skip by by left.
Qed.

Lemma react_inv_setParameters (p : React.Parameters) (a : React.app) :
  react_inv (React.scene a) → react_inv (React.scene (React.setParameters p a)).
Proof.
  intros H. unfold React.setParameters. simpl.
  destruct (decide _); [done|]. by apply react_inv_depthEffect.
Qed.

Lemma react_inv_handle (e : React.event) (a : React.app) :
  react_inv (React.scene a) → react_inv (React.scene (React.handle e a)).
Proof.
  intros Hinv. destruct e as [res|v|v|v| |]; simpl.
  - destruct Hinv as (Hwf & Hboth & Hder). destruct (ok res) eqn:Hok.
    + destruct (loadSTL_ok_spec res _ Hwf Hok) as (g & Hwf' & Hd & Hb & _).
      split_and!; [done|..].
      * split; intros _; eauto using displayed_is_Some, base_is_Some.
      * intros d g' Hd' Hb'. left. by simplify_eq.
    + destruct (loadSTL_fail_spec res (React.scene a) Hok) as (? & ? & ? & _).
      by eapply (react_inv_ext (React.scene a)).
  - unfold React.depth_onChange, React.updateParameter.
    destruct (negb _); [|done].
    by apply (react_inv_setParameters (React.mkParameters v)).
  - unfold React.depth_onBlur, React.updateParameter.
    destruct (v <? nz 10);
      [by apply (react_inv_setParameters (React.mkParameters (nz 10)))|].
    destruct (v >? nz 300); [|done].
    by apply (react_inv_setParameters (React.mkParameters (nz 300))).
  - by apply (react_inv_setParameters (React.mkParameters v)).
  - by apply (react_inv_setParameters (React.mkParameters (nz 10))).
  - destruct (exportSTL_frame (React.scene a)) as (? & ? & ?).
    by eapply (react_inv_ext (React.scene a)).
Qed.

Lemma react_inv_run (es : list React.event) (a : React.app) :
  react_inv (React.scene a) → react_inv (React.scene (React.run es a)).
Proof.
  revert a. induction es as [|e es IH]; intros a Ha; simpl; [done|].
  by apply IH, react_inv_handle.
Qed.

Lemma react_inv_session0 : react_inv session0.
Proof. split_and!; [split_and!|..]; done. Qed.

End handlers.

(** ** The scale factor *)

Section scale_factor.

Lemma coord_computeAxisLengths (a : axis) (g : BufferGeometry) :
  coord a (Vanilla.computeAxisLengths g) = extent a g.
Proof. by destruct a. Qed.

Lemma getScale_unfold (g : BufferGeometry) (a : axis) (target : num) :
  Vanilla.getScaleForTargetLength g a target
  = if extent a g >? nz 0 then target / extent a g else nz 1.
Proof.
  unfold Vanilla.getScaleForTargetLength. cbv zeta.
  by rewrite coord_computeAxisLengths.
Qed.

Lemma ndiv_fin (t c : Qc) : (0 < c)%Qc → Fin t / Fin c = Fin (t / c)%Qc.
Proof.
  intros Hc%Qc_pos_neq_0. unfold ndiv. by rewrite bool_decide_eq_false_2.
Qed.

Lemma in_domain_inv (t : num) :
  in_domain t = true →
  ∃ q : Qc, t = Fin q ∧ (qz 10 ≤ q)%Qc ∧ (q ≤ qz 300)%Qc ∧ (0 < q)%Qc.
Proof.
  unfold in_domain. intros [H1 H2]%andb_true_iff.
  destruct t as [| |q|]; try discriminate.
  apply Qcleb_le in H1, H2. exists q. split_and!; try done.
  apply Qclt_le_trans with (qz 10); [|done]. by apply Qcltb_lt.
Qed.

Lemma pos_not_le (c : Qc) : (0 < c)%Qc → (Fin c <=? nz 0) = false.
Proof.
  intros Hc%Qcltb_lt. simpl. rewrite Qcleb_Qcltb.
  change (qz 0) with 0%Qc. by rewrite Hc.
Qed.

(** Baking the factor computed for a positive target makes the extent
    along the scale axis equal to the target. *)
Lemma baked_extent_target (a : axis) (g : BufferGeometry) (t c : Qc) :
  finite_geometry g = true → (0 < t)%Qc → (0 < c)%Qc →
  extent a g = Fin c →
  extent a (baked a (Fin t / Fin c) g) = Fin t.
Proof.
  intros Hg Ht Hc Hext. rewrite ndiv_fin by done.
  rewrite extent_baked_same by (done || by apply Qcdiv_pos).
  rewrite Hext. simpl. f_equal.
  by apply Qcdiv_mult_cancel, Qc_pos_neq_0.
Qed.

End scale_factor.

(** ** The claims *)

(** C1.  For every target length [T] of the domain [10, 300] and every
    (finite) base geometry with a positive extent along the scale axis,
    the scale operation yields a geometry whose extent along that axis is
    [T]: for the factor computed by [getScaleForTargetLength] and baked
    along any axis, for the depth-slider listener of the vanilla variant,
    and for the depth effect of the React variant. *)
Theorem C1_scale_reaches_target (s : session) (g : BufferGeometry) (T : num) :
  wf s → is_Some (mesh s) → base s = Some g →
  finite_geometry g = true → in_domain T = true →
  (extent axis_z g >? nz 0) = true →
  (∀ a, (extent a g >? nz 0) = true →
        extent a (baked a (Vanilla.getScaleForTargetLength g a T) g) = T) ∧
  (∃ d, displayed (exec (Vanilla.depthRange_input T) s) = Some d ∧
        extent axis_z d = T) ∧
  (∃ d, displayed (exec (React.depthEffect (React.mkParameters T)) s) = Some d ∧
        extent axis_z d = T).
Proof.
  intros Hwf [m Em] Hbase Hg (t & -> & _ & _ & Ht)%in_domain_inv Hpos.
  assert (∀ a, (extent a g >? nz 0) = true →
    extent a (baked a (Vanilla.getScaleForTargetLength g a (Fin t)) g) = Fin t)
    as Hpure.
  { intros a Ha. rewrite getScale_unfold, Ha.
    destruct (extent_finite_pos a g Hg Ha) as (c & Hc & Hcpos).
    rewrite Hc. by apply baked_extent_target. }
  destruct (base_is_Some _ _ Hbase) as [b Eb].
  rewrite (base_deref _ _ Eb) in Hbase. injection Hbase as Hbase.
  split_and!; [done|..].
  - destruct (depthRange_input_spec (Fin t) s m b Hwf Em Eb) as (_ & Hd & _).
    eexists. split; [done|]. rewrite Hbase. by apply Hpure.
  - destruct (extent_finite_pos axis_z g Hg Hpos) as (c & Hc & Hcpos).
    assert ((extent axis_z (deref s b) <=? nz 0) = false) as Hnd.
    { rewrite Hbase, Hc. by apply pos_not_le. }
    destruct (depthEffect_spec (React.mkParameters (Fin t)) s m b Hwf Em Eb Hnd)
      as (_ & Hd & _).
    eexists. split; [done|]. simpl. rewrite Hbase, Hc.
    by apply baked_extent_target.
Qed.

Lemma wf_prism_session : wf prism_session.
Proof.
  unfold wf, prism_session. simpl.
  split_and!; intros; simplify_eq; compute_done.
Qed.

Lemma C1_scale_reaches_target_witness :
  (∀ a, (extent a prism >? nz 0) = true →
        extent a (baked a (Vanilla.getScaleForTargetLength prism a (nz 100))
                    prism) = nz 100) ∧
  (∃ d, displayed (exec (Vanilla.depthRange_input (nz 100)) prism_session)
        = Some d ∧ extent axis_z d = nz 100) ∧
  (∃ d, displayed (exec (React.depthEffect (React.mkParameters (nz 100)))
                     prism_session) = Some d ∧ extent axis_z d = nz 100).
Proof.
  apply (C1_scale_reaches_target prism_session prism (nz 100)).
  - exact wf_prism_session.
  - by eexists.
  - reflexivity.
  - reflexivity.
  - reflexivity.
  - reflexivity.
Defined.

(** C2.  For every target length, the scale operation leaves the extents
    along the two other axes equal to those of the (finite) base geometry:
    for a factor baked along any axis, for the depth-slider listener of
    the vanilla variant, and for the depth effect of the React variant
    (which either changes nothing or bakes along Z). *)
Theorem C2_other_axes_unchanged (s : session) (g : BufferGeometry) (T : num) :
  wf s → is_Some (mesh s) → base s = Some g → finite_geometry g = true →
  (∀ a a' scale, a' ≠ a → extent a' (baked a scale g) = extent a' g) ∧
  (∃ d, displayed (exec (Vanilla.depthRange_input T) s) = Some d ∧
        extent axis_x d = extent axis_x g ∧
        extent axis_y d = extent axis_y g) ∧
  (let s' := exec (React.depthEffect (React.mkParameters T)) s in
   s' = s ∨
   ∃ d, displayed s' = Some d ∧
        extent axis_x d = extent axis_x g ∧
        extent axis_y d = extent axis_y g).
Proof.
  intros Hwf [m Em] Hbase Hg.
  destruct (base_is_Some _ _ Hbase) as [b Eb].
  rewrite (base_deref _ _ Eb) in Hbase. injection Hbase as Hbase.
  split_and!.
  - intros a a' scale Ha. by apply extent_baked_other.
  - destruct (depthRange_input_spec T s m b Hwf Em Eb) as (_ & Hd & _).
    eexists. split; [done|]. rewrite Hbase.
    split; by apply extent_baked_other.
  - simpl. destruct (extent axis_z (deref s b) <=? nz 0) eqn:Hdeg.
    + left. unfold exec. by rewrite (depthEffect_degenerate _ _ _ Eb Hdeg).
    + right.
      destruct (depthEffect_spec (React.mkParameters T) s m b Hwf Em Eb Hdeg)
        as (_ & Hd & _).
      eexists. split; [done|]. rewrite Hbase.
      split; by apply extent_baked_other.
Qed.

Lemma C2_other_axes_unchanged_witness :
  (∀ a a' scale, a' ≠ a → extent a' (baked a scale prism) = extent a' prism) ∧
  (∃ d, displayed (exec (Vanilla.depthRange_input (nz 25)) prism_session)
        = Some d ∧
        extent axis_x d = extent axis_x prism ∧
        extent axis_y d = extent axis_y prism) ∧
  (let s' := exec (React.depthEffect (React.mkParameters (nz 25)))
                  prism_session in
   s' = prism_session ∨
   ∃ d, displayed s' = Some d ∧
        extent axis_x d = extent axis_x prism ∧
        extent axis_y d = extent axis_y prism).
Proof.
  apply (C2_other_axes_unchanged prism_session prism (nz 25)).
  - exact wf_prism_session.
  - by eexists.
  - reflexivity.
  - reflexivity.
Defined.

Section scale_sequences.

Lemma vanilla_scales_snoc (ts : list num) (t : num) (s : session) :
  vanilla_scales (ts ++ [t]) s
  = exec (Vanilla.depthRange_input t) (vanilla_scales ts s).
Proof.
  unfold vanilla_scales, Vanilla.run. by rewrite fmap_app, fold_left_app.
Qed.

Lemma react_scales_snoc (ts : list num) (t : num) (s : session) :
  react_scales (ts ++ [t]) s
  = exec (React.depthEffect (React.mkParameters t)) (react_scales ts s).
Proof. unfold react_scales. by rewrite fold_left_app. Qed.

(** Scale operations never touch the base geometry. *)
Lemma vanilla_scales_frame (ts : list num) (s : session) (m b : nat) :
  wf s → mesh s = Some m → baseGeometry s = Some b →
  let s' := vanilla_scales ts s in
  wf s' ∧ is_Some (mesh s') ∧ baseGeometry s' = Some b ∧
  deref s' b = deref s b.
Proof.
  revert s m. induction ts as [|t ts IH]; intros s m Hwf Em Eb.
  { by split_and!. }
  destruct (depthRange_input_spec t s m b Hwf Em Eb)
    as (Hwf' & Hd & Hb & Hbg & _).
  destruct (displayed_is_Some _ _ Hd) as [m' Em'].
  destruct (IH _ m' Hwf' Em' Hb) as (? & ? & ? & Hbg').
  split_and!; try done. cbn zeta in *. by rewrite <-Hbg.
Qed.

Lemma react_scales_frame (ts : list num) (s : session) (m b : nat) :
  wf s → mesh s = Some m → baseGeometry s = Some b →
  let s' := react_scales ts s in
  wf s' ∧ is_Some (mesh s') ∧ baseGeometry s' = Some b ∧
  deref s' b = deref s b ∧
  ((extent axis_z (deref s b) <=? nz 0) = true → s' = s).
Proof.
  revert s m. induction ts as [|t ts IH]; intros s m Hwf Em Eb.
  { by split_and!. }
  simpl. destruct (extent axis_z (deref s b) <=? nz 0) eqn:Hdeg.
  - unfold exec at 1 2 3 4 5.
    rewrite (depthEffect_degenerate _ _ _ Eb Hdeg). simpl.
    destruct (IH s m Hwf Em Eb) as (? & ? & ? & ? & Hsame).
    split_and!; try done. intros _. apply Hsame, Hdeg.
  - destruct (depthEffect_spec (React.mkParameters t) s m b Hwf Em Eb Hdeg)
      as (Hwf' & Hd & Hb & Hbg & _).
    destruct (displayed_is_Some _ _ Hd) as [m' Em'].
    destruct (IH _ m' Hwf' Em' Hb) as (? & ? & ? & Hbg' & _).
    split_and!; try done. cbn zeta in *. by rewrite <-Hbg.
Qed.

End scale_sequences.

(** C3.  The scale operation is a function of the base geometry and the
    target length alone: after any sequence [prior] of earlier scale
    operations the result for target [T] is the base geometry baked with
    the factor computed from the base, the base geometry itself is
    untouched, and applying [T] a second time changes nothing. *)
Theorem C3_scale_is_function_of_base
    (s : session) (g : BufferGeometry) (prior : list num) (T : num) :
  wf s → is_Some (mesh s) → base s = Some g →
  (displayed (vanilla_scales (prior ++ [T]) s)
     = Some (baked axis_z (Vanilla.getScaleForTargetLength g axis_z T) g) ∧
   displayed (vanilla_scales (prior ++ [T; T]) s)
     = displayed (vanilla_scales (prior ++ [T]) s) ∧
   base (vanilla_scales (prior ++ [T]) s) = Some g) ∧
  (displayed (react_scales (prior ++ [T]) s) = displayed (react_scales [T] s) ∧
   displayed (react_scales (prior ++ [T; T]) s)
     = displayed (react_scales (prior ++ [T]) s) ∧
   base (react_scales (prior ++ [T]) s) = Some g ∧
   ((extent axis_z g <=? nz 0) = false →
    displayed (react_scales (prior ++ [T]) s)
      = Some (baked axis_z (T / extent axis_z g) g))).
Proof.
  intros Hwf [m Em] Hbase.
  destruct (base_is_Some _ _ Hbase) as [b Eb].
  rewrite (base_deref _ _ Eb) in Hbase. injection Hbase as Hbase.
  assert (∀ ts, displayed (vanilla_scales (ts ++ [T]) s)
            = Some (baked axis_z
                      (Vanilla.getScaleForTargetLength g axis_z T) g) ∧
          base (vanilla_scales (ts ++ [T]) s) = Some g) as Hv.
  { intros ts. rewrite vanilla_scales_snoc.
    destruct (vanilla_scales_frame ts s m b Hwf Em Eb)
      as (Hwf' & [m' Em'] & Hb' & Hbg').
    destruct (depthRange_input_spec T _ m' b Hwf' Em' Hb')
      as (_ & Hd & Hb'' & Hbg'' & _).
    rewrite Hd, (base_deref _ _ Hb''), Hbg'', Hbg', Hbase. done. }
  assert (∀ ts, base (react_scales ts s) = Some g) as Hrb.
  { intros ts.
    destruct (react_scales_frame ts s m b Hwf Em Eb)
      as (_ & _ & Hb' & Hbg' & _).
    by rewrite (base_deref _ _ Hb'), Hbg', Hbase. }
  assert (∀ ts, (extent axis_z g <=? nz 0) = false →
            displayed (react_scales (ts ++ [T]) s)
            = Some (baked axis_z (T / extent axis_z g) g)) as Hr.
  { intros ts Hdeg. rewrite react_scales_snoc.
    destruct (react_scales_frame ts s m b Hwf Em Eb)
      as (Hwf' & [m' Em'] & Hb' & Hbg' & _).
    assert ((extent axis_z (deref (react_scales ts s) b) <=? nz 0)
      = false) as Hdeg'
      by by rewrite Hbg', Hbase.
    destruct (depthEffect_spec (React.mkParameters T) _ m' b Hwf' Em' Hb' Hdeg')
      as (_ & Hd & _).
    rewrite Hd. simpl. by rewrite Hbg', Hbase. }
  assert (∀ ts, (extent axis_z g <=? nz 0) = true → react_scales ts s
    = s) as Hr0.
  { intros ts Hdeg.
    destruct (react_scales_frame ts s m b Hwf Em Eb) as (_ & _ & _ & _ & Hs).
    apply Hs. by rewrite Hbase. }
  split; split_and!.
  - apply Hv.
  - replace (prior ++ [T; T]) with ((prior ++ [T]) ++ [T])
      by by rewrite <-app_assoc.
    destruct (Hv (prior ++ [T])) as [-> _]. by destruct (Hv prior) as [-> _].
  - apply Hv.
  - destruct (extent axis_z g <=? nz 0) eqn:Hdeg.
    + by rewrite !Hr0.
    + change (react_scales [T] s) with (react_scales ([] ++ [T]) s).
      by rewrite (Hr prior), (Hr []).
  - replace (prior ++ [T; T]) with ((prior ++ [T]) ++ [T])
      by by rewrite <-app_assoc.
    destruct (extent axis_z g <=? nz 0) eqn:Hdeg.
    + by rewrite !Hr0.
    + by rewrite (Hr prior), (Hr (prior ++ [T])).
  - apply Hrb.
  - apply Hr.
Qed.

Lemma C3_scale_is_function_of_base_witness :
  (displayed (vanilla_scales ([nz 25; nz 300] ++ [nz 100]) prism_session)
     = Some (baked axis_z
               (Vanilla.getScaleForTargetLength prism axis_z (nz 100)) prism) ∧
   displayed
     (vanilla_scales ([nz 25; nz 300] ++ [nz 100; nz 100]) prism_session)
     = displayed (vanilla_scales ([nz 25; nz 300] ++ [nz 100]) prism_session) ∧
   base (vanilla_scales ([nz 25; nz 300] ++ [nz 100]) prism_session)
     = Some prism) ∧
  (displayed (react_scales ([nz 25; nz 300] ++ [nz 100]) prism_session)
     = displayed (react_scales [nz 100] prism_session) ∧
   displayed (react_scales ([nz 25; nz 300] ++ [nz 100; nz 100]) prism_session)
     = displayed (react_scales ([nz 25; nz 300] ++ [nz 100]) prism_session) ∧
   base (react_scales ([nz 25; nz 300] ++ [nz 100]) prism_session)
     = Some prism ∧
   ((extent axis_z prism <=? nz 0) = false →
    displayed (react_scales ([nz 25; nz 300] ++ [nz 100]) prism_session)
      = Some (baked axis_z (nz 100 / extent axis_z prism) prism))).
Proof.
  apply (C3_scale_is_function_of_base prism_session prism [nz 25; nz 300]
           (nz 100)).
  - exact wf_prism_session.
  - by eexists.
  - reflexivity.
Defined.

Section react_slides.

Lemma setParameters_frame (p : React.Parameters) (a : React.app) (m b : nat) :
  wf (React.scene a) → mesh (React.scene a) = Some m →
  baseGeometry (React.scene a) = Some b →
  let a' := React.setParameters p a in
  wf (React.scene a') ∧ is_Some (mesh (React.scene a')) ∧
  baseGeometry (React.scene a') = Some b ∧
  deref (React.scene a') b = deref (React.scene a) b ∧
  React.parameters a' = p.
Proof.
  intros Hwf Em Eb. unfold React.setParameters. simpl.
  destruct (decide _); [by split_and!|].
  destruct (react_scales_frame [React.depth p] _ m b Hwf Em Eb)
    as (? & ? & ? & ? & _).
  by destruct p.
Qed.

Lemma react_slides_frame (ts : list num) (a : React.app) (m b : nat) :
  wf (React.scene a) → mesh (React.scene a) = Some m →
  baseGeometry (React.scene a) = Some b →
  let a' := React.run (React.Slide <$> ts) a in
  wf (React.scene a') ∧ is_Some (mesh (React.scene a')) ∧
  baseGeometry (React.scene a') = Some b ∧
  deref (React.scene a') b = deref (React.scene a) b.
Proof.
  revert a m. induction ts as [|t ts IH]; intros a m Hwf Em Eb.
  { by split_and!. }
  destruct (setParameters_frame (React.mkParameters t) a m b Hwf Em Eb)
    as (Hwf' & [m' Em'] & Hb & Hbg & _).
  destruct (IH _ m' Hwf' Em' Hb) as (? & ? & ? & Hbg').
  split_and!; try done. cbn zeta in *. by rewrite <-Hbg.
Qed.

End react_slides.

(** C4.  The Reset button of the React variant breaks the reset law that
    the vanilla listener keeps.  The prism is 50 deep when loaded; after
    moving the slider to 100 and pressing Reset the depth effect has baked
    the base geometry to a depth of 10, so the displayed geometry is 10
    deep, not the 50 of the base geometry; the vanilla variant, given the
    same asset, slider input and reset, shows it 50 deep again. *)
Lemma C4_react_reset_counterexample :
  let loaded := React.run [React.Fetched prism_response] app0 in
  let a := React.run [React.Slide (nz 100); React.ResetClick] loaded in
  extent axis_z <$> displayed (React.scene loaded) = Some (nz 50) ∧
  extent axis_z <$> base (React.scene a) = Some (nz 50) ∧
  extent axis_z <$> displayed (React.scene a) = Some (nz 10) ∧
  extent axis_z <$> displayed (React.scene a)
    ≠ extent axis_z <$> base (React.scene a) ∧
  extent axis_z <$> displayed
    (Vanilla.run [Vanilla.Loaded prism_response; Vanilla.DepthInput (nz 100);
                  Vanilla.ResetClick] session0) = Some (nz 50).
Proof. split_and!; compute_done. Qed.

(** What reset does in general.  In the vanilla variant, after any number
    of scale operations the reset listener installs a fresh clone of the
    base geometry, whose extent along every axis is that of the base
    geometry.  In the React variant the Reset button sets the depth
    parameter to 10: when the depth was different from 10 the displayed
    geometry becomes the (finite, positive-depth) base geometry baked to a
    Z extent of 10, with the X and Y extents of the base geometry. *)
Lemma reset_in_both_variants
    (s : session) (g : BufferGeometry) (prior : list num) :
  wf s → is_Some (mesh s) → base s = Some g →
  (displayed (exec Vanilla.resetScaleBtn_click (vanilla_scales prior s))
     = Some (cloneOf g) ∧
   (∀ ax, extent ax (cloneOf g) = extent ax g)) ∧
  (∀ a, React.scene a = s →
        finite_geometry g = true → (extent axis_z g >? nz 0) = true →
        let before := React.run (React.Slide <$> prior) a in
        let a' := React.reset_onClick before in
        React.depth (React.parameters a') = nz 10 ∧
        (React.depth (React.parameters before) ≠ nz 10 →
         ∃ d, displayed (React.scene a') = Some d ∧ extent axis_z d = nz 10 ∧
              extent axis_x d = extent axis_x g ∧
              extent axis_y d = extent axis_y g)).
Proof.
  intros Hwf [m Em] Hbase.
  destruct (base_is_Some _ _ Hbase) as [b Eb].
  rewrite (base_deref _ _ Eb) in Hbase. injection Hbase as Hbase.
  split.
  - split; [|done].
    destruct (vanilla_scales_frame prior s m b Hwf Em Eb)
      as (Hwf' & [m' Em'] & Hb' & Hbg').
    destruct (reset_spec _ m' b Hwf' Em' Hb') as (_ & Hd & _).
    by rewrite Hd, Hbg', Hbase.
  - intros a <- Hg Hpos before a'. split; [done|].
    intros Hne.
    destruct (react_slides_frame prior a m b Hwf Em Eb)
      as (Hwf' & [m' Em'] & Hb' & Hbg').
    fold before in Hwf', Em', Hb', Hbg'.
    destruct (extent_finite_pos axis_z g Hg Hpos) as (c & Hc & Hcpos).
    assert ((extent axis_z (deref (React.scene before) b) <=? nz 0) = false)
      as Hnd.
    { rewrite Hbg', Hbase, Hc. by apply pos_not_le. }
    destruct (depthEffect_spec (React.mkParameters (nz 10)) _ m' b
                Hwf' Em' Hb' Hnd) as (_ & Hd & _).
    unfold a', React.reset_onClick, React.setParameters. simpl.
    destruct (decide _) as [E|_]; [by destruct Hne|].
    eexists. split; [exact Hd|]. simpl. rewrite Hbg', Hbase, Hc.
    split_and!.
    + by apply baked_extent_target.
    + by apply extent_baked_other.
    + by apply extent_baked_other.
Qed.

Section degenerate.

Lemma depthRange_input_quiet (target : num) (s : session) :
  returns (Vanilla.depthRange_input target) s = true ∧
  console (exec (Vanilla.depthRange_input target) s) = console s.
Proof.
  unfold Vanilla.depthRange_input, Vanilla.bakeScaleAlongAxis, exec, returns.
  unfold mbind, M_bind, get.
  destruct (mesh s) eqn:Em; [|done]. rewrite Em.
  by destruct (baseGeometry s) eqn:Eb.
Qed.

Lemma getScale_finite (g : BufferGeometry) (a : axis) (target : num) :
  is_finite target = true →
  is_finite (Vanilla.getScaleForTargetLength g a target) = true.
Proof.
  intros Ht. rewrite getScale_unfold.
  destruct target as [| |t|]; try discriminate.
  destruct (extent a g) as [| |c|]; try done.
  destruct (Fin c >? nz 0) eqn:Hc; [|done].
  unfold ngt in Hc. simpl in Hc. apply Qcltb_lt in Hc. by rewrite ndiv_fin.
Qed.

Lemma nle_not_gt (x : num) : (x <=? nz 0) = true → (x >? nz 0) = false.
Proof.
  destruct x as [| |c|]; try done. unfold ngt. simpl.
  rewrite Qcleb_Qcltb. by destruct (Qcltb _ _).
Qed.

Lemma getScale_degenerate (g : BufferGeometry) (a : axis) (target : num) :
  (extent a g <=? nz 0) = true →
  Vanilla.getScaleForTargetLength g a target = nz 1.
Proof. intros H. by rewrite getScale_unfold, (nle_not_gt _ H). Qed.

Lemma position_baked_1 (a : axis) (g : BufferGeometry) :
  finite_geometry g = true → position (baked a (nz 1) g) = position g.
Proof.
  intros Hg. rewrite position_baked by done.
  rewrite <-(map_id (position g)) at 2. apply map_ext.
  intros [x y z]. rewrite nz_1.
  destruct a; unfold scaleCoord; cbn [vx vy vz]; by rewrite nmul_1_l.
Qed.

End degenerate.

(** C5 as stated fails: for the flat triangle, whose extent along Z is 0,
    the factor computed is the ordinary number 1 and the listener neither
    throws nor writes to the console, so no error is reported. *)
Lemma C5_no_error_counterexample :
  (extent axis_z flat <=? nz 0) = true ∧
  Vanilla.getScaleForTargetLength flat axis_z (nz 100) = nz 1 ∧
  ¬ reports_error (Vanilla.depthRange_input (nz 100)) flat_session.
Proof.
  split_and!; [reflexivity|reflexivity|].
  intros [H|H]; [discriminate H|]. by apply H.
Qed.

(** C5, amended.  Computing the scale factor does not report the
    degenerate case: when the extent of the geometry along the axis is
    positive the factor is the target length divided by that extent,
    otherwise it is the default 1.  For a geometry with finite coordinates
    and a finite target length whose quotient by the extent does not
    overflow double precision, the factor is finite, so neither NaN nor an
    infinity is handed to the baking step, and the slider listener of a
    session with that base geometry neither throws nor writes to the
    console. *)
Theorem C5_scale_factor_total
    (g : BufferGeometry) (a : axis) (T : num) (s : session) :
  Vanilla.getScaleForTargetLength g a T
    = (if extent a g >? nz 0 then T / extent a g else nz 1) ∧
  (finite_geometry g = true → is_finite T = true →
   fits_double (T / extent a g) = true →
   is_finite (Vanilla.getScaleForTargetLength g a T) = true) ∧
  (base s = Some g → finite_geometry g = true → is_finite T = true →
   fits_double (T / extent axis_z g) = true →
   ¬ reports_error (Vanilla.depthRange_input T) s).
Proof.
  split_and!.
  - apply getScale_unfold.
  - intros _ HT _. by apply getScale_finite.
  - intros _ _ _ _. destruct (depthRange_input_quiet T s) as [Hr Hc].
    intros [H|H]; [congruence|done].
Qed.

Lemma C5_scale_factor_total_witness :
  Vanilla.getScaleForTargetLength prism axis_z (nz 100)
    = (if extent axis_z prism >? nz 0
       then nz 100 / extent axis_z prism else nz 1) ∧
  is_finite (Vanilla.getScaleForTargetLength prism axis_z (nz 100)) = true ∧
  ¬ reports_error (Vanilla.depthRange_input (nz 100)) prism_session.
Proof.
  destruct (C5_scale_factor_total prism axis_z (nz 100) prism_session)
    as (H1 & H2 & H3).
  split_and!; [exact H1|apply H2; reflexivity|apply H3; reflexivity].
Defined.

(** C6.  When the extent of the (finite) base geometry along the depth axis
    is not positive, the scale operation applies no scaling and cannot
    fail.  In the vanilla variant the factor defaults to 1 and, in every
    session reachable from the initial one, the listener returns normally
    and the displayed vertex positions stay what they were.  In the React
    variant the depth effect returns normally and leaves the whole session,
    and so the displayed geometry, as it was. *)
Theorem C6_degenerate_is_noop (g : BufferGeometry) (T : num) :
  finite_geometry g = true → (extent axis_z g <=? nz 0) = true →
  Vanilla.getScaleForTargetLength g axis_z T = nz 1 ∧
  (∀ es, let s := Vanilla.run es session0 in
         base s = Some g →
         returns (Vanilla.depthRange_input T) s = true ∧
         position <$> displayed (exec (Vanilla.depthRange_input T) s)
           = position <$> displayed s ∧
         base (exec (Vanilla.depthRange_input T) s) = Some g) ∧
  (∀ s, base s = Some g →
        React.depthEffect (React.mkParameters T) s = (Normal tt, s)).
Proof.
  intros Hg Hdeg. split_and!.
  - by apply getScale_degenerate.
  - intros es s Hbase.
    destruct (vanilla_inv_run es session0 vanilla_inv_session0)
      as (Hwf & Hboth & Hder). fold s in Hwf, Hboth, Hder.
    destruct (both_or_none s Hboth) as [(m & b & Em & Eb)|[Em Eb]];
      [|unfold base in Hbase; by rewrite Eb in Hbase].
    destruct (depthRange_input_spec T s m b Hwf Em Eb)
      as (_ & Hd & Hb & Hbg & _ & _ & Hret).
    rewrite (base_deref _ _ Eb) in Hbase. injection Hbase as <-.
    split_and!; [done|..].
    + rewrite Hd, getScale_degenerate by done. simpl.
      rewrite (displayed_deref _ _ Em). simpl. f_equal.
      destruct (Hder _ _ (displayed_deref _ _ Em) (base_deref _ _ Eb))
        as [->|[T' ->]].
      * by apply (position_baked_1 axis_z).
      * by rewrite getScale_degenerate by done.
    + by rewrite (base_deref _ _ Hb), Hbg.
  - intros s Hbase. destruct (base_is_Some _ _ Hbase) as [b Eb].
    rewrite (base_deref _ _ Eb) in Hbase. injection Hbase as Hbase.
    apply (depthEffect_degenerate _ _ b Eb). by rewrite Hbase.
Qed.

Lemma C6_degenerate_is_noop_witness :
  Vanilla.getScaleForTargetLength flat axis_z (nz 100) = nz 1 ∧
  (∀ es, let s := Vanilla.run es session0 in
         base s = Some flat →
         returns (Vanilla.depthRange_input (nz 100)) s = true ∧
         position <$> displayed (exec (Vanilla.depthRange_input (nz 100)) s)
           = position <$> displayed s ∧
         base (exec (Vanilla.depthRange_input (nz 100)) s) = Some flat) ∧
  (∀ s, base s = Some flat →
        React.depthEffect (React.mkParameters (nz 100)) s = (Normal tt, s)).
Proof.
  apply (C6_degenerate_is_noop flat (nz 100)); reflexivity.
Defined.

(** The scenario of the specification, in the vanilla variant: the prism is
    50 deep; a target of 100 gives the factor 2 and a depth of 100, a
    target of 25 the factor 1/2 and a depth of 25, with width 4 and height
    6 unchanged; a reset brings the depth back to 50. *)
Example depth_scenario :
  let loaded := Vanilla.run [Vanilla.Loaded prism_response] session0 in
  let s100 := Vanilla.run [Vanilla.DepthInput (nz 100)] loaded in
  let s25 := Vanilla.run [Vanilla.DepthInput (nz 25)] s100 in
  let back := Vanilla.run [Vanilla.ResetClick] s25 in
  base loaded = Some prism ∧
  Vanilla.getScaleForTargetLength prism axis_z (nz 100) = nz 2 ∧
  Vanilla.computeAxisLengths <$> displayed s100
    = Some (V3 (nz 4) (nz 6) (nz 100)) ∧
  Vanilla.getScaleForTargetLength prism axis_z (nz 25) = Fin (qfrac 1 2) ∧
  Vanilla.computeAxisLengths <$> displayed s25
    = Some (V3 (nz 4) (nz 6) (nz 25)) ∧
  Vanilla.computeAxisLengths <$> displayed back
    = Some (V3 (nz 4) (nz 6) (nz 50)).
Proof. split_and!; compute_done. Qed.

(** A session of the vanilla variant in which the flat triangle is the base
    geometry is reachable: loading it suffices. *)
Example flat_reachable :
  base (Vanilla.run [Vanilla.Loaded (mkResponse true 200 flat_vertices)]
          session0) = Some flat.
Proof. compute_done. Qed.

Section topology.

Lemma vertexCount_baked (a : axis) (scale : num) (g : BufferGeometry) :
  vertexCount (baked a scale g) = vertexCount g.
Proof. unfold vertexCount, baked, positions_applyMatrix4. apply length_map. Qed.

Lemma vertexCount_position (g d : BufferGeometry) :
  position d = position g → vertexCount d = vertexCount g.
Proof. unfold vertexCount. by intros ->. Qed.

End topology.

(** C8.  The scale operation never adds or removes vertices: a geometry
    baked from a base geometry, and a fresh clone of it, have as many
    vertices and triangles as the base geometry; hence in every session
    reachable from the initial one, in the vanilla and in the React
    variant, whatever was loaded, scaled or reset, the displayed geometry
    has as many vertices and triangles as the base geometry. *)
Theorem C8_topology_invariant :
  (∀ a scale g, vertexCount (baked a scale g) = vertexCount g ∧
                triangleCount (baked a scale g) = triangleCount g) ∧
  (∀ g, vertexCount (cloneOf g) = vertexCount g) ∧
  (∀ es d g, displayed (Vanilla.run es session0) = Some d →
             base (Vanilla.run es session0) = Some g →
             vertexCount d = vertexCount g ∧
             triangleCount d = triangleCount g) ∧
  (∀ es d g, displayed (React.scene (React.run es app0)) = Some d →
             base (React.scene (React.run es app0)) = Some g →
             vertexCount d = vertexCount g ∧
             triangleCount d = triangleCount g).
Proof.
  split_and!.
  - intros a scale g. unfold triangleCount. by rewrite vertexCount_baked.
  - done.
  - intros es d g Hd Hb.
    destruct (vanilla_inv_run es session0 vanilla_inv_session0)
      as (_ & _ & Hder).
    assert (vertexCount d = vertexCount g) as Hvc.
    { destruct (Hder d g Hd Hb) as [H|[T H]].
      - by apply vertexCount_position.
      - rewrite (vertexCount_position _ _ H). apply vertexCount_baked. }
    unfold triangleCount. by rewrite Hvc.
  - intros es d g Hd Hb.
    destruct (react_inv_run es app0 react_inv_session0) as (_ & _ & Hder).
    assert (vertexCount d = vertexCount g) as Hvc.
    { destruct (Hder d g Hd Hb) as [H|(T & _ & H)].
      - by apply vertexCount_position.
      - rewrite (vertexCount_position _ _ H). apply vertexCount_baked. }
    unfold triangleCount. by rewrite Hvc.
Qed.

(** The prism keeps its 6 vertices (2 triangles) through a load, two scale
    operations and a reset, in both variants. *)
Example prism_topology :
  vertexCount <$> displayed
    (Vanilla.run [Vanilla.Loaded prism_response; Vanilla.DepthInput (nz 100);
                  Vanilla.DepthInput (nz 25); Vanilla.ResetClick] session0)
    = Some 6%nat ∧
  vertexCount <$> displayed
    (React.scene (React.run [React.Fetched prism_response; React.Slide (nz 100);
                             React.Change (nz 25); React.ResetClick] app0))
    = Some 6%nat.
Proof. split; reflexivity. Qed.

(** C10.  Requesting an export while no mesh is loaded is harmless.  In the
    vanilla variant [exportCurrentMeshAsSTL] returns normally and leaves
    the session exactly as it was.  In the React variant [exportSTL]
    returns normally, offers no download, keeps the store and the scene
    references, and only appends the warning to the console; the
    parameters of the component are unchanged. *)
Theorem C10_export_without_mesh (s : session) (now : N) :
  mesh s = None →
  Vanilla.exportCurrentMeshAsSTL now s = (Normal tt, s) ∧
  (returns React.exportSTL s = true ∧
   let s' := exec React.exportSTL s in
   downloads s' = downloads s ∧ store s' = store s ∧ mesh s' = mesh s ∧
   baseGeometry s' = baseGeometry s ∧
   console s' = console s ++ [Warn "No mesh to export"]) ∧
  (∀ a, React.scene a = s →
        React.parameters (React.handleExportSTL a) = React.parameters a ∧
        downloads (React.scene (React.handleExportSTL a)) = downloads s).
Proof.
  intros Em. split_and!.
  - unfold Vanilla.exportCurrentMeshAsSTL, mbind, M_bind, get. by rewrite Em.
  - unfold React.exportSTL, returns, mbind, M_bind, get. by rewrite Em.
  - unfold React.exportSTL, exec, mbind, M_bind, get. by rewrite Em.
  - intros a <-. split; [done|].
    unfold React.handleExportSTL, React.exportSTL, exec, mbind, M_bind, get.
    simpl. by rewrite Em.
Qed.

Lemma C10_export_without_mesh_witness :
  Vanilla.exportCurrentMeshAsSTL 1700000000000 session0
    = (Normal tt, session0) ∧
  (returns React.exportSTL session0 = true ∧
   let s' := exec React.exportSTL session0 in
   downloads s' = downloads session0 ∧ store s' = store session0 ∧
   mesh s' = mesh session0 ∧ baseGeometry s' = baseGeometry session0 ∧
   console s' = console session0 ++ [Warn "No mesh to export"]) ∧
  (∀ a, React.scene a = session0 →
        React.parameters (React.handleExportSTL a) = React.parameters a ∧
        downloads (React.scene (React.handleExportSTL a)) = downloads session0).
Proof.
  apply (C10_export_without_mesh session0 1700000000000). reflexivity.
Defined.

(** C7 as stated fails in the React variant: typing 5 into the depth input
    stores 5 as the depth parameter at once, outside the domain, and the
    depth effect bakes the prism to a Z extent of 5; likewise for 400. *)
Lemma C7_unclamped_counterexample :
  let a := React.run [React.Fetched prism_response; React.Change (nz 5)] app0 in
  let a' :=
    React.run [React.Fetched prism_response; React.Change (nz 400)] app0 in
  React.depth (React.parameters a) = nz 5 ∧
  in_domain (React.depth (React.parameters a)) = false ∧
  extent axis_z <$> displayed (React.scene a) = Some (nz 5) ∧
  React.depth (React.parameters a') = nz 400 ∧
  extent axis_z <$> displayed (React.scene a') = Some (nz 400).
Proof. split_and!; compute_done. Qed.

(** C7, amended.  The depth typed into the number input is stored as
    typed, whatever its value (NaN excepted, which is ignored), and it is
    clamped to [10, 300] only when the input loses focus: a value below 10
    becomes 10, a value above 300 becomes 300, so that after the blur the
    depth parameter lies in the domain.  A typed value equal to the current
    depth recomputes nothing.  A typed value that differs from the current
    depth reaches the scale computation unclamped and is baked: for a base
    geometry with finite coordinates and positive depth, and a value whose
    scaled coordinates do not overflow (typed or clamped), the displayed
    geometry is the base geometry baked with [typed / depth]; after the
    blur it is the base geometry baked with [clamped / depth], whose Z
    extent is the clamped value. *)
Theorem C7_clamped_on_blur (v : num) (a : React.app) (g : BufferGeometry) :
  isNaN v = false →
  let typed := React.depth_onChange v a in
  let blurred := React.depth_onBlur v typed in
  let clamped := if v <? nz 10 then nz 10
                 else if v >? nz 300 then nz 300 else v in
  (React.depth (React.parameters typed) = v ∧
   React.depth (React.parameters blurred) = clamped ∧
   in_domain clamped = true) ∧
  (v = React.depth (React.parameters a) →
   React.scene typed = React.scene a) ∧
  (wf (React.scene a) → is_Some (mesh (React.scene a)) →
   base (React.scene a) = Some g →
   finite_geometry g = true → (extent axis_z g >? nz 0) = true →
   v ≠ React.depth (React.parameters a) →
   no_overflow (v / extent axis_z g) g = true →
   no_overflow (clamped / extent axis_z g) g = true →
   displayed (React.scene typed)
   = Some (baked axis_z (v / extent axis_z g) g) ∧
   displayed (React.scene blurred)
   = Some (baked axis_z (clamped / extent axis_z g) g) ∧
   extent axis_z (baked axis_z (clamped / extent axis_z g) g) = clamped).
Proof.
  intros Hv typed blurred clamped.
  assert (typed = React.setParameters (React.mkParameters v) a) as Htyped.
  { unfold typed, React.depth_onChange. by rewrite Hv. }
  assert (blurred = if decide (clamped = v) then typed
                    else React.setParameters (React.mkParameters clamped) typed)
    as Hblurred.
  { unfold blurred, clamped, React.depth_onBlur, React.updateParameter.
    destruct (v <? nz 10) eqn:H1.
    - rewrite decide_False; [done|]. intros <-. discriminate H1.
    - destruct (v >? nz 300) eqn:H2; [|by rewrite decide_True].
      rewrite decide_False; [done|]. intros <-. discriminate H2. }
  assert (in_domain clamped = true) as Hdom.
  { unfold clamped. destruct v as [| |q|]; try done.
    unfold ngt, in_domain. simpl.
    destruct (Qcltb q (qz 10)) eqn:H1; [done|].
    destruct (Qcltb (qz 300) q) eqn:H2; [done|].
    simpl. by rewrite !Qcleb_Qcltb, H1, H2. }
  split_and!.
  - by rewrite Htyped.
  - rewrite Hblurred. destruct (decide _) as [->|_]; [by rewrite Htyped|done].
  - done.
  - intros ->. rewrite Htyped. unfold React.setParameters. cbn [React.scene].
    by rewrite decide_True.
  - intros Hwf [m Em] Hbase Hg Hpos Hne _ _.
    destruct (base_is_Some _ _ Hbase) as [b Eb].
    rewrite (base_deref _ _ Eb) in Hbase. injection Hbase as Hbase.
    destruct (extent_finite_pos axis_z g Hg Hpos) as (c & Hc & Hcpos).
    assert ((extent axis_z (deref (React.scene a) b) <=? nz 0) = false)
      as Hnd.
    { rewrite Hbase, Hc. by apply pos_not_le. }
    destruct (depthEffect_spec (React.mkParameters v) _ m b Hwf Em Eb Hnd)
      as (Hwf1 & Hd1 & Hb1 & Hbg1 & _).
    cbn [React.depth] in Hd1. rewrite Hbase in Hd1.
    assert (React.scene typed
            = exec (React.depthEffect (React.mkParameters v)) (React.scene a))
      as Hts.
    { rewrite Htyped. unfold React.setParameters. cbn [React.scene].
      by rewrite decide_False. }
    assert (displayed (React.scene typed)
            = Some (baked axis_z (v / extent axis_z g) g)) as Htd
      by by rewrite Hts.
    split_and!; [done| |].
    + rewrite Hblurred. destruct (decide _) as [->|Hcv]; [done|].
      destruct (displayed_is_Some _ _ Htd) as [m1 Em1].
      rewrite Hts in Em1.
      assert ((extent axis_z
                 (deref (exec (React.depthEffect (React.mkParameters v))
                           (React.scene a)) b) <=? nz 0) = false) as Hnd1
        by by rewrite Hbg1.
      destruct (depthEffect_spec (React.mkParameters clamped) _ m1 b
                  Hwf1 Em1 Hb1 Hnd1) as (_ & Hd2 & _).
      cbn [React.depth] in Hd2. rewrite Hbg1, Hbase in Hd2.
      assert (React.depth (React.parameters typed) = v) as Hpt
        by by rewrite Htyped.
      unfold React.setParameters. cbn [React.scene React.depth].
      rewrite Hpt, decide_False by done. by rewrite Hts.
    + destruct (in_domain_inv _ Hdom) as (q & Hq & _ & _ & Hqpos).
      rewrite Hq, Hc. by apply baked_extent_target.
Qed.

Lemma C7_clamped_on_blur_witness :
  let a := React.mkApp (React.mkParameters (nz 10)) prism_session in
  let typed := React.depth_onChange (nz 5) a in
  let blurred := React.depth_onBlur (nz 5) typed in
  (React.depth (React.parameters typed) = nz 5 ∧
   React.depth (React.parameters blurred) = nz 10 ∧
   in_domain (nz 10) = true) ∧
  displayed (React.scene typed)
  = Some (baked axis_z (nz 5 / extent axis_z prism) prism) ∧
  displayed (React.scene blurred)
  = Some (baked axis_z (nz 10 / extent axis_z prism) prism) ∧
  extent axis_z (baked axis_z (nz 10 / extent axis_z prism) prism) = nz 10.
Proof.
  destruct (C7_clamped_on_blur (nz 5)
              (React.mkApp (React.mkParameters (nz 10)) prism_session) prism)
    as (Hparam & _ & Hscene); [reflexivity|].
  split; [exact Hparam|].
  apply Hscene.
  - exact wf_prism_session.
  - by eexists.
  - reflexivity.
  - reflexivity.
  - reflexivity.
  - by vm_compute.
  - reflexivity.
  - reflexivity.
Defined.

(** Typing the depth the component already holds changes nothing: after
    the load the prism is shown 50 deep while the depth parameter is 10,
    and typing 10 leaves it 50 deep. *)
Example typed_current_depth :
  let a := React.run [React.Fetched prism_response; React.Change (nz 10)]
             app0 in
  React.depth (React.parameters a) = nz 10 ∧
  extent axis_z <$> displayed (React.scene a) = Some (nz 50).
Proof. split; compute_done. Qed.

(** The clamp scenario: 5 becomes 10 and 400 becomes 300 at the blur. *)
Example clamp_scenario :
  React.depth (React.parameters
    (React.run [React.Change (nz 5); React.Blur (nz 5)] app0)) = nz 10 ∧
  React.depth (React.parameters
    (React.run [React.Change (nz 400); React.Blur (nz 400)] app0)) = nz 300.
Proof. split; reflexivity. Qed.

Section depth_height.

Lemma bounds_finite_pos (a : axis) (g : BufferGeometry) :
  finite_geometry g = true → (extent a g <=? nz 0) = false →
  ∃ lo hi : Qc,
    lmin (map (coord a) (position g)) = Fin lo ∧
    lmax (map (coord a) (position g)) = Fin hi ∧ (lo < hi)%Qc.
Proof.
  intros Hg. rewrite extent_lmax_lmin.
  destruct (bounds_finite a g Hg) as [Hmax Hmin].
  destruct (lmax _) as [| |hi|], (lmin _) as [| |lo|];
    destruct Hmax as [?|?], Hmin as [?|?]; try discriminate.
  unfold nsub. simpl. rewrite Qcleb_Qcltb.
  intros Hlt%negb_false_iff%Qcltb_lt. exists lo, hi. split_and!; try done.
  apply Qclt_minus_iff. by change (qz 0) with 0%Qc in Hlt.
Qed.

Lemma box_coord (a : axis) (g : BufferGeometry) :
  coord a (bmin (computeBoundingBox g)) = lmin (map (coord a) (position g)) ∧
  coord a (bmax (computeBoundingBox g)) = lmax (map (coord a) (position g)).
Proof.
  unfold computeBoundingBox, setFromBufferAttribute, lmin, lmax.
  destruct (fold_expandByPoint_coord a (position g) makeEmpty) as [-> ->].
  by destruct a.
Qed.

(** The part of the height above the threshold is positive, so with a
    height scale of at most 1 the extrusion height is not positive. *)
Lemma above_threshold_pos (lo hi : Qc) :
  (lo < hi)%Qc →
  (0 < hi + - (lo + (hi + - lo) * qfrac 55 100))%Qc.
Proof.
  intros Hlt.
  replace (hi + - (lo + (hi + - lo) * qfrac 55 100))%Qc
    with ((hi + - lo) * (1 + - qfrac 55 100))%Qc by ring.
  apply Qcmult_pos_pos.
  - by apply Qclt_minus_iff in Hlt.
  - by apply Qcltb_lt.
Qed.

Lemma extrusion_not_pos (hs : num) (lo hi : Qc) :
  (lo < hi)%Qc → (hs <=? nz 1) = true →
  ((hs - nz 1) * (Fin hi - (Fin lo + (Fin hi - Fin lo) * Fin (qfrac 55 100)))
     >? nz 0) = false.
Proof.
  intros Hlt Hhs. pose proof (above_threshold_pos lo hi Hlt) as Hx.
  unfold nsub at 2 3. cbn [nneg nadd nmul].
  set (x := (hi + - (lo + (hi + - lo) * qfrac 55 100))%Qc) in *.
  destruct hs as [| |q|]; try discriminate.
  - unfold nsub. cbn [nneg nadd nz nmul]. by rewrite signed_inf_pos.
  - unfold nsub, ngt. cbn [nneg nadd nz nmul nlt].
    simpl in Hhs. apply Qcleb_le in Hhs.
    destruct (Qcltb (qz 0) ((q + - qz 1) * x)) eqn:E; [|done].
    apply Qcltb_lt in E. exfalso. apply (Qclt_not_le _ _ E).
    change (qz 0) with (Q2Qc 0). rewrite <-(Qcmult_0_l x).
    apply Qcmult_le_compat_r; [|by apply Qclt_le_weak].
    apply Qcle_minus_iff.
    replace (0 + - (q + - qz 1))%Qc with (qz 1 + - q)%Qc by ring.
    by apply Qcle_minus_iff in Hhs.
Qed.

(** With a height scale of at most 1 the height step leaves the geometry
    alone. *)
Lemma heightStep_noop (hs : num) (l : nat) (s : session) (lo hi : Qc) :
  lmin (map (coord axis_y) (position (deref s l))) = Fin lo →
  lmax (map (coord axis_y) (position (deref s l))) = Fin hi →
  (lo < hi)%Qc → (hs <=? nz 1) = true →
  DepthHeight.heightStep hs l s = (Normal tt, s).
Proof.
  intros Hlo Hhi Hlt Hhs. unfold DepthHeight.heightStep, mbind, M_bind, get.
  destruct (box_coord axis_y (deref s l)) as [Hmin Hmax].
  simpl in Hmin, Hmax. rewrite Hmin, Hmax, Hlo, Hhi.
  by rewrite extrusion_not_pos.
Qed.

Lemma vy_makeScale_z (ds : num) (ps : list Vector3) :
  forallb finiteV ps = true →
  map (coord axis_y) (positions_applyMatrix4 (makeScale (nz 1) (nz 1) ds) ps)
  = map (coord axis_y) ps.
Proof.
  unfold positions_applyMatrix4.
  induction ps as [|v ps IH]; cbn [map forallb]; [done|].
  intros [Hv Hps]%andb_true_iff. rewrite IH by done. f_equal.
  rewrite applyMatrix4_makeScale by done.
  cbn [coord vy]. by rewrite nz_1, nmul_1_l.
Qed.

Lemma effect_guard (p : DepthHeight.Parameters) (s : session) (b : nat) :
  baseGeometry s = Some b →
  (extent axis_z (deref s b) <=? nz 0) || (extent axis_y (deref s b) <=? nz 0)
    = true →
  DepthHeight.effect p s = (Normal tt, s).
Proof.
  intros Eb Hguard. unfold DepthHeight.effect, mbind, M_bind, get.
  rewrite Eb. destruct (mesh s); [|done].
  unfold extent, computeBoundingBox in Hguard. simpl in *. by rewrite Hguard.
Qed.

Lemma effect_spec (p : DepthHeight.Parameters) (s : session) (m b : nat) :
  wf s → mesh s = Some m → baseGeometry s = Some b →
  finite_geometry (deref s b) = true →
  (extent axis_z (deref s b) <=? nz 0) || (extent axis_y (deref s b) <=? nz 0)
    = false →
  (DepthHeight.height p / extent axis_y (deref s b) <=? nz 1) = true →
  ∃ d, displayed (exec (DepthHeight.effect p) s) = Some d ∧
       map (coord axis_y) (position d)
         = map (coord axis_y) (position (deref s b)).
Proof.
  intros (Hm & Hb & Hmb) Em Eb Hg Hguard Hhs.
  apply orb_false_iff in Hguard as [HZ HY].
  destruct (bounds_finite_pos axis_y _ Hg HY) as (lo & hi & Hlo & Hhi & Hlt).
  unfold DepthHeight.effect, exec.
  unfold mbind, M_bind, get. rewrite Em, Eb.
  unfold extent, computeBoundingBox in HZ, HY, Hhs. simpl in HZ, HY, Hhs.
  simpl. rewrite HZ, HY. simpl.
  specialize (Hmb _ _ Em Eb). specialize (Hb _ Eb). specialize (Hm _ Em).
  set (ds := DepthHeight.depth p / _).
  set (hs := DepthHeight.height p / _) in *.
  assert (∀ s1 l, map (coord axis_y) (position (deref s1 l))
                  = map (coord axis_y) (position (deref s b)) →
                  DepthHeight.heightStep hs l s1 = (Normal tt, s1)) as Hstep.
  { intros s1 l E. apply (heightStep_noop hs l s1 lo hi); by rewrite ?E. }
  name_fresh.
  assert (l ≠ m ∧ l ≠ b) as [Hlm Hlb] by set_solver.
  assert (map (coord axis_y)
            (positions_applyMatrix4 (makeScale (nz 1) (nz 1) ds)
               (position (deref s b)))
          = map (coord axis_y) (position (deref s b))) as Hds
    by by apply vy_makeScale_z.
  destruct (nneq ds (nz 1)), (nneq hs (nz 1)); simpl.
  all: try rewrite Hstep
    by (unfold deref; simpl; rewrite !lookup_total_insert_eq; simpl; done).
  all: simpl; eexists; (split; [unfold displayed; simpl; reflexivity|]).
  all: unfold deref; simpl.
  all: rewrite lookup_total_insert_ne by done.
  all: rewrite !lookup_total_insert_eq; simpl; done.
Qed.

End depth_height.

(** C9.  In the depth-and-height variant, when the requested height scale
    (target height divided by the height of the finite base geometry) is
    at most 1, the effect modifies no Y coordinate: either it returns
    early because the base geometry is degenerate and leaves the session
    as it was, or the geometry it installs has, vertex by vertex, the Y
    coordinates of the base geometry, and therefore the same Y extent. *)
Theorem C9_no_shrink (p : DepthHeight.Parameters) (s : session)
    (g : BufferGeometry) :
  wf s → is_Some (mesh s) → base s = Some g → finite_geometry g = true →
  (DepthHeight.height p / extent axis_y g <=? nz 1) = true →
  if (extent axis_z g <=? nz 0) || (extent axis_y g <=? nz 0)
  then DepthHeight.effect p s = (Normal tt, s)
  else ∃ d, displayed (exec (DepthHeight.effect p) s) = Some d ∧
            map vy (position d) = map vy (position g) ∧
            extent axis_y d = extent axis_y g.
Proof.
  intros Hwf [m Em] Hbase Hg Hhs.
  destruct (base_is_Some _ _ Hbase) as [b Eb].
  rewrite (base_deref _ _ Eb) in Hbase. injection Hbase as <-.
  destruct (_ || _) eqn:Hguard.
  - by apply (effect_guard p s b).
  - destruct (effect_spec p s m b Hwf Em Eb Hg Hguard Hhs) as (d & Hd & Hy).
    exists d. split_and!; [done|done|].
    by rewrite !extent_lmax_lmin, Hy.
Qed.

Lemma C9_no_shrink_witness :
  if (extent axis_z prism <=? nz 0) || (extent axis_y prism <=? nz 0)
  then DepthHeight.effect (DepthHeight.mkParameters (nz 100) (nz 4))
         prism_session = (Normal tt, prism_session)
  else ∃ d, displayed (exec (DepthHeight.effect
                               (DepthHeight.mkParameters (nz 100) (nz 4)))
                         prism_session) = Some d ∧
            map vy (position d) = map vy (position prism) ∧
            extent axis_y d = extent axis_y prism.
Proof.
  apply (C9_no_shrink (DepthHeight.mkParameters (nz 100) (nz 4))
           prism_session prism).
  - exact wf_prism_session.
  - by eexists.
  - reflexivity.
  - reflexivity.
  - reflexivity.
Defined.

(** Shrinking the prism from 6 to 4 high while stretching it to 100 deep
    leaves its height at 6. *)
Example prism_height :
  extent axis_y <$> displayed (exec (DepthHeight.effect
                                  (DepthHeight.mkParameters (nz 100) (nz 4)))
                            prism_session) = Some (nz 6) ∧
  extent axis_z <$> displayed (exec (DepthHeight.effect
                                  (DepthHeight.mkParameters (nz 100) (nz 4)))
                            prism_session) = Some (nz 100).
Proof. split; compute_done. Qed.

(** Growing the bracket from 6 to 12 high raises its two outer upper
    corners by 2.7 and moves no other vertex. *)
Example bracket_extrusion :
  map vy <$> (position <$> displayed
    (exec (DepthHeight.effect (DepthHeight.mkParameters (nz 50) (nz 12)))
       bracket_session))
  = Some [nz (-3); nz (-3); Fin (qfrac 57 10); Fin (qfrac 57 10); nz 0;
          nz (-3)].
Proof. compute_done. Qed.


(** No handler of either variant lets an error escape: the only [throw] of
    the sources sits inside the [try] of the loader. *)
Lemma handlers_return (s : session) :
  (∀ e, returns (Vanilla.handle e) s = true) ∧
  (∀ res, returns (React.loadSTL res) s = true) ∧
  (∀ p, returns (React.depthEffect p) s = true) ∧
  returns React.exportSTL s = true ∧
  (∀ p, returns (DepthHeight.effect p) s = true).
Proof.
  split_and!.
  - intros [res|target| |now]; simpl.
    + unfold returns, Vanilla.autoLoadProvidedSTL, try_catch.
      destruct (ok res); [|done]. simpl.
      unfold Vanilla.loadSTLFromArrayBuffer, Vanilla.clearModel.
      unfold mbind, M_bind, get. simpl.
      by destruct (mesh s), (baseGeometry s).
    + apply depthRange_input_quiet.
    + unfold returns, Vanilla.resetScaleBtn_click, mbind, M_bind, get.
      by destruct (mesh s), (baseGeometry s).
    + unfold returns, Vanilla.exportCurrentMeshAsSTL, mbind, M_bind, get.
      by destruct (mesh s).
  - intros res. unfold returns, React.loadSTL, try_catch.
    destruct (ok res); [|done]. simpl.
    unfold BufferGeometry_center, BufferGeometry_translate.
    unfold mbind, M_bind, get. simpl. by destruct (mesh s).
  - intros p. unfold returns, React.depthEffect, mbind, M_bind, get.
    destruct (mesh s), (baseGeometry s); try done. simpl.
    by destruct (_ <=? _).
  - unfold returns, React.exportSTL, mbind, M_bind, get. by destruct (mesh s).
  - intros p. unfold returns, DepthHeight.effect, DepthHeight.heightStep.
    unfold mbind, M_bind, get.
    destruct (mesh s), (baseGeometry s); try done. simpl.
    repeat (match goal with
            | |- context [if ?c then _ else _] =>
                lazymatch type of c with bool => destruct c end
            end; simpl; try done).
Qed.

(** The session used in the examples is the one a successful load of the
    prism produces, in both variants. *)
Example prism_loaded :
  let v := Vanilla.run [Vanilla.Loaded prism_response] session0 in
  let r := React.scene (React.run [React.Fetched prism_response] app0) in
  (mesh v = mesh prism_session ∧ baseGeometry v = baseGeometry prism_session ∧
   displayed v = displayed prism_session ∧ base v = base prism_session) ∧
  (mesh r = mesh prism_session ∧ baseGeometry r = baseGeometry prism_session ∧
   displayed r = displayed prism_session ∧ base r = base prism_session).
Proof. split; split_and!; compute_done. Qed.

(** ** Bounds of lists of finite numbers *)

Section finite_bounds.
Local Open Scope Qc_scope.

Lemma fold_nmax_Fin (qs : list Qc) (acc : Qc) :
  ∃ m, fold_left nmax (map Fin qs) (Fin acc) = Fin m ∧
       m ∈ acc :: qs ∧ ∀ x, x ∈ acc :: qs → x ≤ m.
Proof.
  revert acc. induction qs as [|q qs IH]; intros acc; cbn [map fold_left].
  { exists acc. split_and!; [done|by left|].
    intros x ->%list_elem_of_singleton. apply Qcle_refl. }
  cbn [nmax nlt]. destruct (Qcltb acc q) eqn:E.
  - destruct (IH q) as (m & Hm & Hmem & Hub). rewrite Hm. exists m.
    split_and!; [done|revert Hmem; rewrite !elem_of_cons; tauto|].
    apply Qcltb_lt, Qclt_le_weak in E.
    intros x [->|Hx]%elem_of_cons; [|by apply Hub].
    apply Qcle_trans with q; [done|]. apply Hub; rewrite !elem_of_cons; tauto.
  - destruct (IH acc) as (m & Hm & Hmem & Hub). rewrite Hm. exists m.
    split_and!; [done|revert Hmem; rewrite !elem_of_cons; tauto|].
    intros x [->|[->|Hx]%elem_of_cons]%elem_of_cons.
    + apply Hub; rewrite !elem_of_cons; tauto.
    + apply Qcle_trans with acc; [|apply Hub; by left].
      apply Qcnot_lt_le. intros H%Qcltb_lt. congruence.
    + apply Hub; rewrite !elem_of_cons; tauto.
Qed.

Lemma fold_nmin_Fin (qs : list Qc) (acc : Qc) :
  ∃ m, fold_left nmin (map Fin qs) (Fin acc) = Fin m ∧
       m ∈ acc :: qs ∧ ∀ x, x ∈ acc :: qs → m ≤ x.
Proof.
  revert acc. induction qs as [|q qs IH]; intros acc; cbn [map fold_left].
  { exists acc. split_and!; [done|by left|].
    intros x ->%list_elem_of_singleton. apply Qcle_refl. }
  cbn [nmin nlt]. destruct (Qcltb q acc) eqn:E.
  - destruct (IH q) as (m & Hm & Hmem & Hlb). rewrite Hm. exists m.
    split_and!; [done|revert Hmem; rewrite !elem_of_cons; tauto|].
    apply Qcltb_lt, Qclt_le_weak in E.
    intros x [->|Hx]%elem_of_cons; [|by apply Hlb].
    apply Qcle_trans with q; [|done]. apply Hlb; rewrite !elem_of_cons; tauto.
  - destruct (IH acc) as (m & Hm & Hmem & Hlb). rewrite Hm. exists m.
    split_and!; [done|revert Hmem; rewrite !elem_of_cons; tauto|].
    intros x [->|[->|Hx]%elem_of_cons]%elem_of_cons.
    + apply Hlb; rewrite !elem_of_cons; tauto.
    + apply Qcle_trans with acc; [apply Hlb; by left|].
      apply Qcnot_lt_le. intros H%Qcltb_lt. congruence.
    + apply Hlb; rewrite !elem_of_cons; tauto.
Qed.

(** The running maximum of a non-empty list of finite numbers is its
    greatest element, the running minimum its least. *)
Lemma lmax_Fin (qs : list Qc) :
  qs ≠ [] →
  ∃ m, lmax (map Fin qs) = Fin m ∧ m ∈ qs ∧ ∀ x, x ∈ qs → x ≤ m.
Proof.
  destruct qs as [|q qs]; [done|]. intros _. unfold lmax. cbn [map fold_left].
  apply (fold_nmax_Fin qs q).
Qed.

Lemma lmin_Fin (qs : list Qc) :
  qs ≠ [] →
  ∃ m, lmin (map Fin qs) = Fin m ∧ m ∈ qs ∧ ∀ x, x ∈ qs → m ≤ x.
Proof.
  destruct qs as [|q qs]; [done|]. intros _. unfold lmin. cbn [map fold_left].
  apply (fold_nmin_Fin qs q).
Qed.

Lemma lmax_Fin_unique (qs : list Qc) (m : Qc) :
  m ∈ qs → (∀ x, x ∈ qs → x ≤ m) → lmax (map Fin qs) = Fin m.
Proof.
  intros Hmem Hub. destruct (lmax_Fin qs) as (m' & Hm' & Hmem' & Hub'); [|rewrite Hm'].
  { by intros ->; inversion Hmem. }
  f_equal. apply Qcle_antisym; auto.
Qed.

Lemma lmin_Fin_unique (qs : list Qc) (m : Qc) :
  m ∈ qs → (∀ x, x ∈ qs → m ≤ x) → lmin (map Fin qs) = Fin m.
Proof.
  intros Hmem Hlb. destruct (lmin_Fin qs) as (m' & Hm' & Hmem' & Hlb'); [|rewrite Hm'].
  { by intros ->; inversion Hmem. }
  f_equal. apply Qcle_antisym; auto.
Qed.

(** The coordinates of finitely many finite vertices along an axis. *)
Lemma finite_coords_Fin (a : axis) (ps : list Vector3) :
  forallb finiteV ps = true →
  ∃ qs : list Qc, map (coord a) ps = map Fin qs ∧ length qs = length ps.
Proof.
  induction ps as [|v ps IH]; cbn [forallb map].
  { by exists []. }
  intros [Hv Hps]%andb_true_iff. destruct (IH Hps) as (qs & Hqs & Hlen). rewrite Hqs.
  apply finiteV_inv in Hv as (x & y & z & ->).
  destruct a; [exists (x :: qs)|exists (y :: qs)|exists (z :: qs)];
    (split; [done|]); cbn [length]; by rewrite Hlen.
Qed.

End finite_bounds.

Section monotone_images.
Local Open Scope Qc_scope.

Lemma lmax_Fin_inv (qs : list Qc) (hi : Qc) :
  lmax (map Fin qs) = Fin hi → hi ∈ qs ∧ ∀ x, x ∈ qs → x ≤ hi.
Proof.
  intros H. destruct (lmax_Fin qs) as (m & Hm & Hmem & Hub).
  { by intros ->. }
  rewrite Hm in H. by injection H as <-.
Qed.

Lemma lmin_Fin_inv (qs : list Qc) (lo : Qc) :
  lmin (map Fin qs) = Fin lo → lo ∈ qs ∧ ∀ x, x ∈ qs → lo ≤ x.
Proof.
  intros H. destruct (lmin_Fin qs) as (m & Hm & Hmem & Hlb).
  { by intros ->. }
  rewrite Hm in H. by injection H as <-.
Qed.

Lemma elem_of_map (f : Qc → Qc) (qs : list Qc) (x : Qc) :
  x ∈ map f qs ↔ ∃ y, x = f y ∧ y ∈ qs.
Proof.
  rewrite list_elem_of_In, in_map_iff. split.
  - intros (y & <- & Hy). exists y. by rewrite list_elem_of_In.
  - intros (y & -> & Hy). exists y. by rewrite <-list_elem_of_In.
Qed.

(** The bounds of the image of a list under a monotone map are the images
    of its bounds; under an antitone map they are exchanged. *)
Lemma bounds_map_mono (f : Qc → Qc) (qs : list Qc) (lo hi : Qc) :
  (∀ x y, x ≤ y → f x ≤ f y) →
  lmin (map Fin qs) = Fin lo → lmax (map Fin qs) = Fin hi →
  lmin (map Fin (map f qs)) = Fin (f lo) ∧
  lmax (map Fin (map f qs)) = Fin (f hi).
Proof.
  intros Hf [Hlo Hlb]%lmin_Fin_inv [Hhi Hub]%lmax_Fin_inv. split.
  - apply lmin_Fin_unique.
    + apply elem_of_map. by exists lo.
    + intros x (y & -> & Hy)%elem_of_map. auto.
  - apply lmax_Fin_unique.
    + apply elem_of_map. by exists hi.
    + intros x (y & -> & Hy)%elem_of_map. auto.
Qed.

Lemma bounds_map_anti (f : Qc → Qc) (qs : list Qc) (lo hi : Qc) :
  (∀ x y, x ≤ y → f y ≤ f x) →
  lmin (map Fin qs) = Fin lo → lmax (map Fin qs) = Fin hi →
  lmin (map Fin (map f qs)) = Fin (f hi) ∧
  lmax (map Fin (map f qs)) = Fin (f lo).
Proof.
  intros Hf [Hlo Hlb]%lmin_Fin_inv [Hhi Hub]%lmax_Fin_inv. split.
  - apply lmin_Fin_unique.
    + apply elem_of_map. by exists hi.
    + intros x (y & -> & Hy)%elem_of_map. auto.
  - apply lmax_Fin_unique.
    + apply elem_of_map. by exists lo.
    + intros x (y & -> & Hy)%elem_of_map. auto.
Qed.

Lemma Qcmult_le_anti_l (s x y : Qc) : s ≤ 0 → x ≤ y → s * y ≤ s * x.
Proof.
  intros Hs Hxy. apply Qcopp_le_compat in Hs.
  replace (- 0) with 0 in Hs by ring.
  pose proof (Qcmult_le_mono_nonneg_l x y (- s) Hs Hxy) as H.
  apply Qcopp_le_compat in H.
  by replace (- (- s * y)) with (s * y) in H by ring;
     replace (- (- s * x)) with (s * x) in H by ring.
Qed.

(** The bounds of a finite geometry along an axis, when it has vertices. *)
Lemma geometry_bounds (a : axis) (g : BufferGeometry) (c : Qc) :
  finite_geometry g = true → extent a g = Fin c →
  ∃ (qs : list Qc) (lo hi : Qc),
    map (coord a) (position g) = map Fin qs ∧
    lmin (map Fin qs) = Fin lo ∧ lmax (map Fin qs) = Fin hi ∧
    c = hi - lo ∧ lo ≤ hi.
Proof.
  intros Hg. rewrite extent_lmax_lmin.
  destruct (finite_coords_Fin a _ Hg) as (qs & Hqs & _). rewrite Hqs.
  destruct qs as [|q qs]; [done|].
  destruct (lmax_Fin (q :: qs)) as (hi & Hhi & Hmhi & Hub); [done|].
  destruct (lmin_Fin (q :: qs)) as (lo & Hlo & Hmlo & Hlb); [done|].
  rewrite Hhi, Hlo. unfold nsub. cbn [nneg nadd]. intros [= <-].
  exists (q :: qs), lo, hi. split_and!; try done. by apply Hub.
Qed.

End monotone_images.

Section any_factor.
Local Open Scope Qc_scope.

Lemma coords_baked (a : axis) (s : Qc) (g : BufferGeometry) (qs : list Qc) :
  finite_geometry g = true → map (coord a) (position g) = map Fin qs →
  map (coord a) (position (baked a (Fin s) g)) = map Fin (map (Qcmult s) qs).
Proof.
  intros Hg Hqs. rewrite position_baked by done. rewrite map_map.
  rewrite (map_ext _ (λ v, (Fin s * coord a v)%num))
    by (intros; apply coord_scaleCoord_same).
  rewrite <-(map_map (coord a) (nmul (Fin s))), Hqs. by rewrite !map_map.
Qed.

(** Baking any finite factor multiplies the extent along the scale axis by
    the absolute value of the factor. *)
Lemma extent_baked_abs (a : axis) (s c : Qc) (g : BufferGeometry) :
  finite_geometry g = true → extent a g = Fin c →
  extent a (baked a (Fin s) g) = (nabs (Fin s) * Fin c)%num.
Proof.
  intros Hg Hc.
  destruct (geometry_bounds a g c Hg Hc) as (qs & lo & hi & Hqs & Hlo & Hhi & -> & _).
  rewrite extent_lmax_lmin, (coords_baked a s g qs Hg Hqs).
  cbn [nabs nmul]. destruct (Qcltb s 0) eqn:Hs.
  - apply Qcltb_lt, Qclt_le_weak in Hs.
    destruct (bounds_map_anti (Qcmult s) qs lo hi) as [-> ->]; try done.
    { intros x y. by apply Qcmult_le_anti_l. }
    unfold nsub. cbn [nneg nadd]. f_equal. ring.
  - assert (0 ≤ s) as Hs'.
    { apply Qcnot_lt_le. intros H%Qcltb_lt. congruence. }
    destruct (bounds_map_mono (Qcmult s) qs lo hi) as [-> ->]; try done.
    { intros x y. by apply Qcmult_le_mono_nonneg_l. }
    unfold nsub. cbn [nneg nadd]. f_equal. ring.
Qed.

Lemma Qcltb_div_0 (t c : Qc) : 0 < c → Qcltb (t / c) 0 = Qcltb t 0.
Proof.
  intros Hc. apply eq_true_iff_eq. rewrite !Qcltb_lt.
  rewrite (Qcmult_lt_mono_pos_r (t / c) 0 c Hc).
  by rewrite Qcdiv_mult_cancel, Qcmult_0_l by by apply Qc_pos_neq_0.
Qed.

Lemma baked_extent_abs_target (a : axis) (g : BufferGeometry) (t c : Qc) :
  finite_geometry g = true → 0 < c → extent a g = Fin c →
  extent a (baked a (Fin t / Fin c) g) = nabs (Fin t).
Proof.
  intros Hg Hc Hext. rewrite ndiv_fin by done.
  rewrite (extent_baked_abs a (t / c) c g Hg Hext).
  cbn [nabs nmul]. rewrite Qcltb_div_0 by done. f_equal.
  pose proof (Qc_pos_neq_0 c Hc). destruct (Qcltb t 0); by field.
Qed.

End any_factor.

(** ** Loading centres the geometry *)

Section centring.
Local Open Scope Qc_scope.

Lemma applyMatrix4_makeTranslation (tx ty tz x y z : Qc) :
  Vector3_applyMatrix4 (makeTranslation (Fin tx) (Fin ty) (Fin tz))
    (V3 (Fin x) (Fin y) (Fin z))
  = V3 (Fin (x + tx)) (Fin (y + ty)) (Fin (z + tz)).
Proof.
  unfold Vector3_applyMatrix4, makeTranslation. cbn [vx vy vz n11 n12 n13 n14
    n21 n22 n23 n24 n31 n32 n33 n34 n41 n42 n43 n44].
  rewrite nz_0, nz_1, !nmul_0_fin, !nmul_1_l.
  assert ((Fin 0 + Fin 0 + Fin 0 + Fin 1)%num = Fin 1) as -> by compute_done.
  assert ((Fin 1 / Fin 1)%num = Fin 1) as -> by compute_done.
  by rewrite !nmul_1_r, !nadd_0_r, !nadd_0_l.
Qed.

Lemma coords_translated (a : axis) (t : Vector3) (ps : list Vector3)
    (qs : list Qc) (ta : Qc) :
  forallb finiteV ps = true → finiteV t = true → coord a t = Fin ta →
  map (coord a) ps = map Fin qs →
  map (coord a) (translated t ps) = map Fin (map (λ x, x + ta) qs) ∧
  forallb finiteV (translated t ps) = true.
Proof.
  intros Hps (tx & ty & tz & ->)%finiteV_inv Hta. revert qs.
  unfold translated, positions_applyMatrix4. cbn [vx vy vz].
  induction ps as [|v ps IH]; intros qs Hqs.
  { by destruct qs. }
  cbn [forallb] in Hps. apply andb_true_iff in Hps as [Hv Hps].
  destruct qs as [|q qs]; [done|]. cbn [map] in Hqs. injection Hqs as Hq Hqs.
  destruct (IH Hps qs Hqs) as [IH1 IH2]. cbn [map forallb].
  rewrite IH1, IH2. apply finiteV_inv in Hv as (x & y & z & ->).
  rewrite applyMatrix4_makeTranslation. split; [|done]. f_equal.
  destruct a; cbn [coord vx vy vz] in *; by simplify_eq.
Qed.

Lemma half_half : qfrac 1 2 = 1 / (1 + 1).
Proof. compute_done. Qed.

Lemma centre_symmetric (lo hi : Qc) :
  lo + - ((lo + hi) * qfrac 1 2) = - (hi + - ((lo + hi) * qfrac 1 2)).
Proof. rewrite half_half. field. compute_done. Qed.

(** The bounding box of finitely many finite vertices, axis by axis. *)
Lemma box_finite (a : axis) (ps : list Vector3) :
  forallb finiteV ps = true → ps ≠ [] →
  ∃ (qs : list Qc) (lo hi : Qc),
    map (coord a) ps = map Fin qs ∧
    coord a (bmin (setFromBufferAttribute ps)) = Fin lo ∧
    coord a (bmax (setFromBufferAttribute ps)) = Fin hi ∧
    lmin (map Fin qs) = Fin lo ∧ lmax (map Fin qs) = Fin hi ∧ lo ≤ hi.
Proof.
  intros Hps Hne. destruct (finite_coords_Fin a ps Hps) as (qs & Hqs & Hlen).
  assert (qs ≠ []) as Hqne.
  { intros ->. by destruct ps. }
  destruct (lmax_Fin qs Hqne) as (hi & Hhi & Hmhi & Hub).
  destruct (lmin_Fin qs Hqne) as (lo & Hlo & Hmlo & Hlb).
  exists qs, lo, hi.
  destruct (box_coord a (mkGeometry ps false)) as [Hmin Hmax].
  unfold computeBoundingBox in Hmin, Hmax. cbn [position] in Hmin, Hmax.
  rewrite Hmin, Hmax, Hqs. split_and!; try done. by apply Hub.
Qed.

Lemma coord_vanilla_offset (a : axis) (ps : list Vector3) :
  coord a (vanilla_offset ps)
  = nneg ((coord a (bmin (setFromBufferAttribute ps))
           + coord a (bmax (setFromBufferAttribute ps))) * half)%num.
Proof. by destruct a. Qed.

Lemma finite_vanilla_offset (ps : list Vector3) :
  forallb finiteV ps = true → ps ≠ [] → finiteV (vanilla_offset ps) = true.
Proof.
  intros Hps Hne.
  destruct (box_finite axis_x ps Hps Hne) as (_ & ? & ? & _ & Hx1 & Hx2 & _).
  destruct (box_finite axis_y ps Hps Hne) as (_ & ? & ? & _ & Hy1 & Hy2 & _).
  destruct (box_finite axis_z ps Hps Hne) as (_ & ? & ? & _ & Hz1 & Hz2 & _).
  unfold finiteV, vanilla_offset. cbn [coord] in *. cbn [vx vy vz
    Vector3_negate Vector3_multiplyScalar Vector3_addVectors].
  by rewrite Hx1, Hx2, Hy1, Hy2, Hz1, Hz2.
Qed.

(** On vertices that exist and are finite the box is not empty, so both
    loaders translate by the same vector. *)
Lemma react_offset_eq (ps : list Vector3) :
  forallb finiteV ps = true → ps ≠ [] → react_offset ps = vanilla_offset ps.
Proof.
  intros Hps Hne.
  destruct (box_finite axis_x ps Hps Hne) as (_ & ? & ? & _ & Hx1 & Hx2 & _ & _ & Hx).
  destruct (box_finite axis_y ps Hps Hne) as (_ & ? & ? & _ & Hy1 & Hy2 & _ & _ & Hy).
  destruct (box_finite axis_z ps Hps Hne) as (_ & ? & ? & _ & Hz1 & Hz2 & _ & _ & Hz).
  unfold react_offset, vanilla_offset, Box3_getCenter, Box3_isEmpty.
  cbn [coord] in *. rewrite Hx1, Hx2, Hy1, Hy2, Hz1, Hz2. cbn [nlt].
  apply Qcleb_le in Hx, Hy, Hz. rewrite Qcleb_Qcltb in Hx, Hy, Hz.
  apply negb_true_iff in Hx, Hy, Hz. by rewrite Hx, Hy, Hz.
Qed.

(** Translating finite vertices by the loader's offset puts the centre of
    their bounding box at the origin and keeps every extent. *)
Lemma centred_translated (ps : list Vector3) :
  forallb finiteV ps = true → ps ≠ [] →
  let g := mkGeometry (translated (vanilla_offset ps) ps) false in
  centred g ∧ finite_geometry g = true ∧
  ∀ a, extent a g = extent a (mkGeometry ps false).
Proof.
  intros Hps Hne g.
  assert (∀ a, coord a (bmin (computeBoundingBox g))
               = nneg (coord a (bmax (computeBoundingBox g))) ∧
               extent a g = extent a (mkGeometry ps false)) as H.
  { intros a.
    destruct (box_finite a ps Hps Hne)
      as (qs & lo & hi & Hqs & Hmin & Hmax & Hlo & Hhi & _).
    pose proof (finite_vanilla_offset ps Hps Hne) as Hoff.
    assert (coord a (vanilla_offset ps) = Fin (- ((lo + hi) * qfrac 1 2)))
      as Hta by by rewrite coord_vanilla_offset, Hmin, Hmax.
    destruct (coords_translated a _ ps qs _ Hps Hoff Hta Hqs) as [Hc _].
    destruct (bounds_map_mono (λ x, x + - ((lo + hi) * qfrac 1 2)) qs lo hi)
      as [Hlo' Hhi']; try done.
    { intros x y Hxy. by apply Qcplus_le_mono_r. }
    destruct (box_coord a g) as [Hbmin Hbmax].
    rewrite extent_lmax_lmin, Hbmin, Hbmax.
    rewrite (extent_lmax_lmin a (mkGeometry ps false)).
    unfold g. cbn [position]. rewrite Hc, Hlo', Hhi', Hqs, Hlo, Hhi.
    unfold nsub. cbn [nneg nadd]. split; f_equal.
    - apply centre_symmetric.
    - ring. }
  split_and!.
  - intros a. apply H.
  - pose proof (finite_vanilla_offset ps Hps Hne) as Hoff.
    destruct (finite_coords_Fin axis_x ps Hps) as (qs & Hqs & _).
    destruct (finiteV_inv _ Hoff) as (tx & ? & ? & Ht).
    eapply (coords_translated axis_x _ ps qs tx); try done. by rewrite Ht.
  - intros a. apply H.
Qed.

End centring.

Section loading.

Lemma autoLoad_positions (res : response) (s : session) :
  wf s → ok res = true →
  let s' := exec (Vanilla.autoLoadProvidedSTL res) s in
  let g := mkGeometry (translated (vanilla_offset (parsed res)) (parsed res))
                      false in
  wf s' ∧ displayed s' = Some g ∧ base s' = Some g ∧
  console s' = console s ∧ downloads s' = downloads s.
Proof.
  intros (Hm & Hb & Hmb) Hok.
  unfold Vanilla.autoLoadProvidedSTL, try_catch, exec. rewrite Hok. simpl.
  unfold Vanilla.loadSTLFromArrayBuffer, Vanilla.clearModel.
  unfold mbind, M_bind, get. simpl.
  destruct (mesh s) as [m|] eqn:Em, (baseGeometry s) as [b|] eqn:Eb; simpl.
  all: name_fresh; store_facts.
  all: split_and!; try done; try (intros; simplify_eq; set_solver).
Qed.

Lemma loadSTL_positions (res : response) (s : session) :
  wf s → ok res = true →
  let s' := exec (React.loadSTL res) s in
  let g := mkGeometry (translated (react_offset (parsed res)) (parsed res))
                      false in
  wf s' ∧ displayed s' = Some g ∧ base s' = Some g ∧
  console s' = console s ∧ downloads s' = downloads s.
Proof.
  intros (Hm & Hb & Hmb) Hok.
  unfold React.loadSTL, try_catch, exec. rewrite Hok. simpl.
  unfold BufferGeometry_center, BufferGeometry_translate.
  unfold mbind, M_bind, get. simpl.
  destruct (mesh s) as [m|] eqn:Em, (baseGeometry s) as [b|] eqn:Eb; simpl.
  all: name_fresh; store_facts.
  all: split_and!; try done; try (intros; simplify_eq; set_solver).
Qed.

End loading.

(** X1.  A successful load centres the asset: when the decoded vertices are
    finite and there is at least one, the geometry installed as mesh
    geometry and as base geometry has its bounding box centred at the
    origin along every axis, keeps every extent and the number of vertices
    of the decoded asset, and has finite coordinates.  This holds for the
    vanilla loader and for [geometry.center()] in the React loader. *)
Theorem load_centres_asset (res : response) (s : session) :
  wf s → ok res = true →
  forallb finiteV (parsed res) = true → parsed res ≠ [] →
  let loaded (s' : session) :=
    ∃ g, displayed s' = Some g ∧ base s' = Some g ∧
         centred g ∧ finite_geometry g = true ∧
         vertexCount g = length (parsed res) ∧
         ∀ a, extent a g = extent a (mkGeometry (parsed res) false) in
  loaded (exec (Vanilla.autoLoadProvidedSTL res) s) ∧
  loaded (exec (React.loadSTL res) s).
Proof.
  intros Hwf Hok Hfin Hne loaded.
  destruct (centred_translated (parsed res) Hfin Hne) as (Hc & Hf & He).
  assert (vertexCount (mkGeometry (translated (vanilla_offset (parsed res))
            (parsed res)) false) = length (parsed res)) as Hvc
    by apply length_map.
  split.
  - destruct (autoLoad_positions res s Hwf Hok) as (_ & Hd & Hb & _).
    eexists. by split_and!.
  - destruct (loadSTL_positions res s Hwf Hok) as (_ & Hd & Hb & _).
    rewrite react_offset_eq in Hd, Hb by done.
    eexists. by split_and!.
Qed.

Lemma load_centres_asset_witness :
  let loaded (s' : session) :=
    ∃ g, displayed s' = Some g ∧ base s' = Some g ∧
         centred g ∧ finite_geometry g = true ∧
         vertexCount g = length (parsed shifted_response) ∧
         ∀ a, extent a g
              = extent a (mkGeometry (parsed shifted_response) false) in
  loaded (exec (Vanilla.autoLoadProvidedSTL shifted_response) session0) ∧
  loaded (exec (React.loadSTL shifted_response) session0).
Proof.
  apply (load_centres_asset shifted_response session0).
  - apply vanilla_inv_session0.
  - reflexivity.
  - reflexivity.
  - discriminate.
Defined.

(** Loading the shifted prism yields the centred prism. *)
Example shifted_loaded :
  displayed (exec (Vanilla.autoLoadProvidedSTL shifted_response) session0)
    = Some prism ∧
  displayed (exec (React.loadSTL shifted_response) session0) = Some prism.
Proof. split; compute_done. Qed.

Section centred_scaling.
Local Open Scope Qc_scope.




End centred_scaling.

(** X2.  Every finite target length, whatever its sign, yields a depth
    equal to its absolute value, as long as nothing overflows: for a base
    geometry with finite coordinates and positive depth, and a target [T]
    whose factor fits double precision and whose scaled coordinates fit
    single precision, the vanilla listener and the React depth effect
    install a geometry whose Z extent is [|T|].  A target of 0 flattens the
    geometry, a negative target mirrors it. *)
Theorem any_target_gives_abs_depth
    (s : session) (g : BufferGeometry) (T : num) :
  wf s → is_Some (mesh s) → base s = Some g →
  finite_geometry g = true → (extent axis_z g >? nz 0) = true →
  is_finite T = true → no_overflow (T / extent axis_z g) g = true →
  (∃ d, displayed (exec (Vanilla.depthRange_input T) s) = Some d ∧
        extent axis_z d = nabs T) ∧
  (∃ d, displayed (exec (React.depthEffect (React.mkParameters T)) s) = Some d ∧
        extent axis_z d = nabs T).
Proof.
  intros Hwf [m Em] Hbase Hg Hpos HT _.
  destruct T as [| |t|]; try discriminate.
  destruct (base_is_Some _ _ Hbase) as [b Eb].
  rewrite (base_deref _ _ Eb) in Hbase. injection Hbase as Hbase.
  destruct (extent_finite_pos axis_z g Hg Hpos) as (c & Hc & Hcpos).
  split.
  - destruct (depthRange_input_spec (Fin t) s m b Hwf Em Eb) as (_ & Hd & _).
    eexists. split; [done|]. rewrite Hbase, getScale_unfold, Hpos, Hc.
    by apply baked_extent_abs_target.
  - assert ((extent axis_z (deref s b) <=? nz 0) = false) as Hnd.
    { rewrite Hbase, Hc. by apply pos_not_le. }
    destruct (depthEffect_spec (React.mkParameters (Fin t)) s m b Hwf Em Eb Hnd)
      as (_ & Hd & _).
    eexists. split; [done|]. simpl. rewrite Hbase, Hc.
    by apply baked_extent_abs_target.
Qed.

Lemma any_target_gives_abs_depth_witness :
  (∃ d, displayed (exec (Vanilla.depthRange_input (nz (-5))) prism_session)
        = Some d ∧ extent axis_z d = nabs (nz (-5))) ∧
  (∃ d, displayed (exec (React.depthEffect (React.mkParameters (nz (-5))))
                     prism_session) = Some d ∧
        extent axis_z d = nabs (nz (-5))).
Proof.
  apply (any_target_gives_abs_depth prism_session prism (nz (-5)));
    [exact wf_prism_session|by eexists|reflexivity..].
Defined.



Example prism_centred : centred prism.
Proof. intros a. destruct a; compute_done. Qed.

(** ** A failed load *)

Section failed_load.

Lemma same_scene_refl (s : session) : same_scene s s.
Proof. by split_and!. Qed.

Lemma same_scene_displayed (s1 s2 : session) :
  same_scene s1 s2 → displayed s1 = displayed s2 ∧ base s1 = base s2.
Proof.
  intros (Hs & Hm & Hb & _). unfold displayed, base, deref.
  by rewrite Hs, Hm, Hb.
Qed.

(** What a handler does to the scene does not depend on the console. *)
Lemma vanilla_handle_same_scene (e : Vanilla.event) (s1 s2 : session) :
  same_scene s1 s2 →
  same_scene (exec (Vanilla.handle e) s1) (exec (Vanilla.handle e) s2).
Proof.
  destruct s1 as [st1 m1 b1 c1 d1], s2 as [st2 m2 b2 c2 d2].
  unfold same_scene. cbn [store mesh baseGeometry downloads].
  intros (-> & -> & -> & ->). destruct e as [res|target| |now]; simpl.
  - unfold exec, Vanilla.autoLoadProvidedSTL, try_catch.
    destruct (ok res); [|done]. simpl.
    unfold Vanilla.loadSTLFromArrayBuffer, Vanilla.clearModel.
    unfold mbind, M_bind, get. simpl. by destruct m2, b2.
  - unfold exec, Vanilla.depthRange_input, Vanilla.bakeScaleAlongAxis.
    unfold mbind, M_bind, get. simpl. by destruct m2, b2.
  - unfold exec, Vanilla.resetScaleBtn_click, mbind, M_bind, get. simpl.
    by destruct m2, b2.
  - unfold exec, Vanilla.exportCurrentMeshAsSTL, mbind, M_bind, get. simpl.
    by destruct m2.
Qed.

Lemma vanilla_run_same_scene (es : list Vanilla.event) (s1 s2 : session) :
  same_scene s1 s2 → same_scene (Vanilla.run es s1) (Vanilla.run es s2).
Proof.
  revert s1 s2. induction es as [|e es IH]; intros s1 s2 H; [done|].
  apply IH. by apply vanilla_handle_same_scene.
Qed.

Lemma react_effect_same_scene (p : React.Parameters) (s1 s2 : session) :
  same_scene s1 s2 →
  same_scene (exec (React.depthEffect p) s1) (exec (React.depthEffect p) s2).
Proof.
  destruct s1 as [st1 m1 b1 c1 d1], s2 as [st2 m2 b2 c2 d2].
  unfold same_scene. cbn [store mesh baseGeometry downloads].
  intros (-> & -> & -> & ->).
  unfold exec, React.depthEffect, mbind, M_bind, get. simpl.
  destruct m2, b2; try done. unfold deref. simpl.
  by destruct (_ <=? _).
Qed.

Lemma react_handle_same_scene (e : React.event) (a1 a2 : React.app) :
  React.parameters a1 = React.parameters a2 →
  same_scene (React.scene a1) (React.scene a2) →
  React.parameters (React.handle e a1) = React.parameters (React.handle e a2) ∧
  same_scene (React.scene (React.handle e a1)) (React.scene (React.handle e a2)).
Proof.
  destruct a1 as [p1 s1], a2 as [p2 s2]. cbn [React.parameters React.scene].
  intros -> Hs.
  assert (∀ p, React.parameters (React.setParameters p (React.mkApp p2 s1))
               = React.parameters (React.setParameters p (React.mkApp p2 s2)) ∧
               same_scene
                 (React.scene (React.setParameters p (React.mkApp p2 s1)))
                 (React.scene (React.setParameters p (React.mkApp p2 s2))))
    as Hset.
  { intros p. unfold React.setParameters. simpl. split; [done|].
    destruct (decide _); [done|]. by apply react_effect_same_scene. }
  destruct e as [res|v|v|v| |]; simpl.
  - split; [done|]. clear Hset.
    destruct s1 as [st1 m1 b1 c1 d1], s2 as [st2 m2 b2 c2 d2].
    unfold same_scene in *. cbn [store mesh baseGeometry downloads] in *.
    destruct Hs as (-> & -> & -> & ->).
    unfold exec, React.loadSTL, try_catch. destruct (ok res); [|done]. simpl.
    unfold BufferGeometry_center, BufferGeometry_translate.
    unfold mbind, M_bind, get. simpl. by destruct m2.
  - unfold React.depth_onChange, React.updateParameter.
    destruct (negb _); [apply Hset|done].
  - unfold React.depth_onBlur, React.updateParameter.
    destruct (v <? nz 10); [apply Hset|].
    destruct (v >? nz 300); [apply Hset|done].
  - apply Hset.
  - apply Hset.
  - split; [done|]. clear Hset.
    destruct s1 as [st1 m1 b1 c1 d1], s2 as [st2 m2 b2 c2 d2].
    unfold same_scene in *. cbn [store mesh baseGeometry downloads] in *.
    destruct Hs as (-> & -> & -> & ->).
    unfold exec, React.exportSTL, mbind, M_bind, get. simpl. by destruct m2.
Qed.

Lemma react_run_same_scene (es : list React.event) (a1 a2 : React.app) :
  React.parameters a1 = React.parameters a2 →
  same_scene (React.scene a1) (React.scene a2) →
  React.parameters (React.run es a1) = React.parameters (React.run es a2) ∧
  same_scene (React.scene (React.run es a1)) (React.scene (React.run es a2)).
Proof.
  revert a1 a2. induction es as [|e es IH]; intros a1 a2 Hp Hs; [done|].
  destruct (react_handle_same_scene e a1 a2 Hp Hs). by apply IH.
Qed.

End failed_load.

(** X4.  A load that fails with an HTTP error is invisible to the scene.
    The loader returns normally, leaves the store, the scene references and
    the downloads as they were, and writes exactly one error naming the
    status to the console.  Anywhere in a sequence of events, the failed
    load can be dropped without changing the scene, the downloads or (in
    the React variant) the parameters that result. *)
Theorem failed_load_is_invisible
    (res : response) (s : session) (a : React.app)
    (es1 es2 : list Vanilla.event) (rs1 rs2 : list React.event) :
  ok res = false →
  Vanilla.autoLoadProvidedSTL res s
    = (Normal tt,
       mkSession (store s) (mesh s) (baseGeometry s)
         (console s ++ [Error ("Failed to load /model/4040_cableguide.stl: "
                               +:+ pretty (status res))])
         (downloads s)) ∧
  React.loadSTL res s
    = (Normal tt,
       mkSession (store s) (mesh s) (baseGeometry s)
         (console s ++ [Error ("Error loading STL: " +:+ "Failed to load STL: "
                               +:+ pretty (status res))])
         (downloads s)) ∧
  same_scene (Vanilla.run (es1 ++ Vanilla.Loaded res :: es2) s)
             (Vanilla.run (es1 ++ es2) s) ∧
  React.parameters (React.run (rs1 ++ React.Fetched res :: rs2) a)
    = React.parameters (React.run (rs1 ++ rs2) a) ∧
  same_scene (React.scene (React.run (rs1 ++ React.Fetched res :: rs2) a))
             (React.scene (React.run (rs1 ++ rs2) a)).
Proof.
  intros Hok.
  assert (Vanilla.autoLoadProvidedSTL res s
    = (Normal tt,
       mkSession (store s) (mesh s) (baseGeometry s)
         (console s ++ [Error ("Failed to load /model/4040_cableguide.stl: "
                               +:+ pretty (status res))])
         (downloads s))) as Hv.
  { unfold Vanilla.autoLoadProvidedSTL, try_catch. by rewrite Hok. }
  assert (∀ s, same_scene (exec (Vanilla.autoLoadProvidedSTL res) s) s) as Hvs.
  { intros s0. unfold exec, Vanilla.autoLoadProvidedSTL, try_catch.
    rewrite Hok. simpl. by split_and!. }
  assert (∀ s, same_scene (exec (React.loadSTL res) s) s) as Hrs.
  { intros s0. unfold exec, React.loadSTL, try_catch.
    rewrite Hok. simpl. by split_and!. }
  split_and!.
  - done.
  - unfold React.loadSTL, try_catch. by rewrite Hok.
  - unfold Vanilla.run. rewrite !fold_left_app. cbn [fold_left].
    apply vanilla_run_same_scene. apply Hvs.
  - unfold React.run. rewrite !fold_left_app. cbn [fold_left].
    apply react_run_same_scene; [done|]. apply Hrs.
  - unfold React.run. rewrite !fold_left_app. cbn [fold_left].
    apply react_run_same_scene; [done|]. apply Hrs.
Qed.

Lemma failed_load_is_invisible_witness :
  Vanilla.autoLoadProvidedSTL not_found prism_session
    = (Normal tt,
       mkSession (store prism_session) (mesh prism_session)
         (baseGeometry prism_session)
         (console prism_session
          ++ [Error ("Failed to load /model/4040_cableguide.stl: "
                     +:+ pretty (status not_found))])
         (downloads prism_session)) ∧
  React.loadSTL not_found prism_session
    = (Normal tt,
       mkSession (store prism_session) (mesh prism_session)
         (baseGeometry prism_session)
         (console prism_session
          ++ [Error ("Error loading STL: " +:+ "Failed to load STL: "
                     +:+ pretty (status not_found))])
         (downloads prism_session)) ∧
  same_scene
    (Vanilla.run ([Vanilla.DepthInput (nz 100)]
                  ++ Vanilla.Loaded not_found :: [Vanilla.ResetClick])
       prism_session)
    (Vanilla.run ([Vanilla.DepthInput (nz 100)] ++ [Vanilla.ResetClick])
       prism_session) ∧
  React.parameters
    (React.run ([React.Fetched prism_response]
                ++ React.Fetched not_found :: [React.Slide (nz 100)]) app0)
    = React.parameters
        (React.run ([React.Fetched prism_response] ++ [React.Slide (nz 100)])
           app0) ∧
  same_scene
    (React.scene
       (React.run ([React.Fetched prism_response]
                   ++ React.Fetched not_found :: [React.Slide (nz 100)]) app0))
    (React.scene
       (React.run ([React.Fetched prism_response] ++ [React.Slide (nz 100)])
          app0)).
Proof.
  apply (failed_load_is_invisible not_found prism_session app0
           [Vanilla.DepthInput (nz 100)] [Vanilla.ResetClick]
           [React.Fetched prism_response] [React.Slide (nz 100)]).
  reflexivity.
Defined.

(** ** Disposal of replaced geometries *)

Section disposal.

Lemma bake_disposal (a : axis) (scale : num) (s : session) :
  wf s → no_use_after_dispose s → no_leak s →
  let s' := exec (Vanilla.bakeScaleAlongAxis a scale) s in
  no_use_after_dispose s' ∧ no_leak s'.
Proof.
  intros (Hm & Hb & Hmb) Huse Hleak.
  destruct (mesh s) as [m|] eqn:Em;
    [|unfold exec; by rewrite bake_skip by by left].
  destruct (baseGeometry s) as [b|] eqn:Eb;
    [|unfold exec; by rewrite bake_skip by by right].
  unfold Vanilla.bakeScaleAlongAxis, exec.
  unfold mbind, M_bind, get. rewrite Em, Eb. simpl.
  specialize (Hmb _ _ eq_refl eq_refl). specialize (Hb _ eq_refl).
  specialize (Hm _ eq_refl). name_fresh.
  assert (l ≠ m ∧ l ≠ b) as [Hlm Hlb] by set_solver.
  disposal_solver.
Qed.

Lemma reset_disposal (s : session) :
  wf s → no_use_after_dispose s → no_leak s →
  let s' := exec Vanilla.resetScaleBtn_click s in
  no_use_after_dispose s' ∧ no_leak s'.
Proof.
  intros (Hm & Hb & Hmb) Huse Hleak.
  destruct (mesh s) as [m|] eqn:Em;
    [|unfold exec; by rewrite reset_skip by by left].
  destruct (baseGeometry s) as [b|] eqn:Eb;
    [|unfold exec; by rewrite reset_skip by by right].
  unfold Vanilla.resetScaleBtn_click, exec.
  unfold mbind, M_bind, get. rewrite Em, Eb. simpl.
  specialize (Hmb _ _ eq_refl eq_refl). specialize (Hb _ eq_refl).
  specialize (Hm _ eq_refl). name_fresh.
  assert (l ≠ m ∧ l ≠ b) as [Hlm Hlb] by set_solver.
  disposal_solver.
Qed.

Lemma load_disposal (vertices : list Vector3) (s : session) :
  wf s → no_use_after_dispose s → no_leak s →
  let s' := exec (Vanilla.loadSTLFromArrayBuffer vertices) s in
  no_use_after_dispose s' ∧ no_leak s'.
Proof.
  intros (Hm & Hb & Hmb) Huse Hleak.
  unfold Vanilla.loadSTLFromArrayBuffer, Vanilla.clearModel, exec.
  unfold mbind, M_bind, get. simpl.
  destruct (mesh s) as [m|] eqn:Em, (baseGeometry s) as [b|] eqn:Eb; simpl.
  all: name_fresh.
  all: try specialize (Hmb _ _ eq_refl eq_refl).
  all: try specialize (Hb _ eq_refl).
  all: try specialize (Hm _ eq_refl).
  all: assert (l0 ≠ l) by set_solver.
  all: try assert (l ≠ m ∧ l0 ≠ m) as [??] by set_solver.
  all: try assert (l ≠ b ∧ l0 ≠ b) as [??] by set_solver.
  all: disposal_solver.
Qed.

Lemma vanilla_handle_disposal (e : Vanilla.event) (s : session) :
  wf s → no_use_after_dispose s → no_leak s →
  let s' := exec (Vanilla.handle e) s in
  no_use_after_dispose s' ∧ no_leak s'.
Proof.
  intros Hwf Huse Hleak. destruct e as [res|target| |now]; cbn [Vanilla.handle].
  - unfold Vanilla.autoLoadProvidedSTL, try_catch, exec.
    destruct (ok res); cbn [negb].
    + pose proof (load_disposal (parsed res) s Hwf Huse Hleak) as H.
      unfold exec in H.
      by destruct (Vanilla.loadSTLFromArrayBuffer (parsed res) s) as [[|] ?].
    + done.
  - destruct (mesh s) as [m|] eqn:Em;
      [|unfold exec; by rewrite depthRange_input_skip by by left].
    destruct (baseGeometry s) as [b|] eqn:Eb;
      [|unfold exec; by rewrite depthRange_input_skip by by right].
    unfold exec. rewrite (depthRange_input_eq _ _ _ _ Em Eb).
    by apply bake_disposal.
  - by apply reset_disposal.
  - destruct (exportCurrentMeshAsSTL_frame now s) as (Hst & Hme & Hba & _).
    unfold no_use_after_dispose, no_leak, in_use in *.
    rewrite Hst, Hme, Hba. done.
Qed.

Lemma depthEffect_disposal (p : React.Parameters) (s : session) :
  wf s → no_use_after_dispose s →
  no_use_after_dispose (exec (React.depthEffect p) s).
Proof.
  intros (Hm & Hb & Hmb) Huse.
  destruct (mesh s) as [m|] eqn:Em;
    [|unfold exec; by rewrite depthEffect_skip by by left].
  destruct (baseGeometry s) as [b|] eqn:Eb;
    [|unfold exec; by rewrite depthEffect_skip by by right].
  unfold React.depthEffect, exec.
  unfold mbind, M_bind, get. rewrite Em, Eb. simpl.
  destruct (_ <=? _); simpl.
  { done. }
  specialize (Hmb _ _ eq_refl eq_refl). specialize (Hb _ eq_refl).
  specialize (Hm _ eq_refl). name_fresh.
  assert (l ≠ m ∧ l ≠ b) as [Hlm Hlb] by set_solver.
  unfold no_use_after_dispose, in_use in *; simpl.
  intros k gk Hk Hu; rewrite !lookup_insert_Some in Hk.
  unfold deref in Hk; simpl in Hk.
  rewrite ?lookup_total_insert_eq in Hk. naive_solver.
Qed.

Lemma loadSTL_disposal (res : response) (s : session) :
  wf s → no_use_after_dispose s →
  no_use_after_dispose (exec (React.loadSTL res) s).
Proof.
  intros (Hm & Hb & Hmb) Huse.
  unfold React.loadSTL, try_catch, exec. destruct (ok res); [|done]. simpl.
  unfold BufferGeometry_center, BufferGeometry_translate.
  unfold mbind, M_bind, get. simpl.
  destruct (mesh s) as [m|] eqn:Em; simpl.
  all: name_fresh.
  all: try specialize (Hm _ eq_refl).
  all: assert (l0 ≠ l) by set_solver.
  all: try assert (l ≠ m ∧ l0 ≠ m) as [??] by set_solver.
  all: unfold no_use_after_dispose, in_use in *; simpl.
  all: intros k gk Hk Hu; rewrite !lookup_insert_Some in Hk.
  all: unfold deref in Hk; simpl in Hk.
  all: rewrite ?lookup_total_insert_eq in Hk; naive_solver.
Qed.

Lemma react_handle_disposal (e : React.event) (a : React.app) :
  wf (React.scene a) → no_use_after_dispose (React.scene a) →
  no_use_after_dispose (React.scene (React.handle e a)).
Proof.
  intros Hwf Huse.
  assert (∀ p, no_use_after_dispose (React.scene (React.setParameters p a)))
    as Hset.
  { intros p. unfold React.setParameters. cbn [React.scene].
    destruct (decide _); [done|]. by apply depthEffect_disposal. }
  destruct e as [res|v|v|v| |]; cbn [React.handle].
  - by apply loadSTL_disposal.
  - unfold React.depth_onChange, React.updateParameter.
    by destruct (negb _).
  - unfold React.depth_onBlur, React.updateParameter.
    destruct (v <? nz 10); [done|]. by destruct (v >? nz 300).
  - apply Hset.
  - apply Hset.
  - destruct (exportSTL_frame (React.scene a)) as (Hst & Hme & Hba).
    unfold React.handleExportSTL. cbn [React.scene].
    unfold no_use_after_dispose, in_use in *.
    rewrite Hst, Hme, Hba. done.
Qed.

End disposal.

(** X5.  Disposal discipline of the vanilla variant.  After any sequence of
    events from the initial session, the geometry of the mesh and the base
    geometry have not been disposed, and every other geometry of the store
    (one that a slider input, a reset or a load has replaced as mesh
    geometry or base geometry) has been disposed.  The clones that
    [computeAxisLengths] measures are not objects of the store. *)
Theorem vanilla_disposal_discipline (es : list Vanilla.event) :
  no_use_after_dispose (Vanilla.run es session0) ∧
  no_leak (Vanilla.run es session0).
Proof.
  assert (∀ s, vanilla_inv s → no_use_after_dispose s → no_leak s →
               no_use_after_dispose (Vanilla.run es s) ∧
               no_leak (Vanilla.run es s)) as H.
  { induction es as [|e es IH]; intros s Hinv Huse Hleak; [done|].
    cbn [Vanilla.run fold_left].
    destruct (vanilla_handle_disposal e s) as [Huse' Hleak']; try done.
    { apply Hinv. }
    apply IH; [by apply vanilla_inv_handle|done|done]. }
  apply H.
  - apply vanilla_inv_session0.
  - by intros l g.
  - by intros l g.
Qed.

(** X6.  In the React variant, after any sequence of events from the
    initial state of the component, neither the geometry of the mesh nor
    the base geometry has been disposed. *)
Theorem react_never_uses_disposed (es : list React.event) :
  no_use_after_dispose (React.scene (React.run es app0)).
Proof.
  assert (∀ a, react_inv (React.scene a) →
               no_use_after_dispose (React.scene a) →
               no_use_after_dispose (React.scene (React.run es a))) as H.
  { induction es as [|e es IH]; intros a Hinv Huse; [done|].
    cbn [React.run fold_left].
    apply IH; [by apply react_inv_handle|].
    apply react_handle_disposal; [apply Hinv|done]. }
  apply H.
  - apply react_inv_session0.
  - by intros l g.
Qed.

(** The React loader disposes the geometry of the old mesh but not the old
    base geometry: after a second load the first base geometry (object 1)
    is out of use and not disposed. *)
Example react_reload_keeps_old_base :
  let s := React.scene (React.run [React.Fetched prism_response;
                                    React.Fetched prism_response] app0) in
  baseGeometry s = Some 3%nat ∧ mesh s = Some 2%nat ∧
  disposed <$> store s !! 1%nat = Some false ∧
  disposed <$> store s !! 0%nat = Some true.
Proof. split_and!; compute_done. Qed.

(** ** The React scene and the depth parameter *)

Section synchrony.

Lemma react_synced_ext (a a' : React.app) :
  store (React.scene a') = store (React.scene a) →
  mesh (React.scene a') = mesh (React.scene a) →
  baseGeometry (React.scene a') = baseGeometry (React.scene a) →
  React.depth (React.parameters a') = React.depth (React.parameters a) →
  react_synced a → react_synced a'.
Proof.
  unfold react_synced, displayed, base, deref. by intros -> -> -> ->.
Qed.

Lemma react_synced_setParameters (p : React.Parameters) (a : React.app) :
  react_inv (React.scene a) → react_synced a →
  react_synced (React.setParameters p a).
Proof.
  intros (Hwf & Hboth & _) Hsync. unfold React.setParameters.
  destruct (decide _) as [E|_].
  { by apply (react_synced_ext a). }
  destruct (both_or_none _ Hboth) as [(m & b & Em & Eb)|[Em Eb]].
  - destruct (extent axis_z (deref (React.scene a) b) <=? nz 0) eqn:Hdeg.
    + unfold exec. rewrite (depthEffect_degenerate _ _ _ Eb Hdeg).
      intros d g Hd Hg. cbn [React.scene snd] in Hd, Hg.
      destruct (Hsync d g Hd Hg) as [?|[Hpos _]]; [by left|].
      rewrite (base_deref _ _ Eb) in Hg. injection Hg as <-. congruence.
    + destruct (depthEffect_spec p _ m b Hwf Em Eb Hdeg)
        as (_ & Hd & Hb & Hbg & _).
      intros d g Hd' Hg. cbn [React.scene React.parameters] in *.
      rewrite (base_deref _ _ Hb), Hbg in Hg. simplify_eq. by right.
  - unfold exec. rewrite depthEffect_skip by by left.
    intros d g Hd. cbn [React.scene snd] in Hd.
    unfold displayed in Hd. by rewrite Em in Hd.
Qed.

Lemma react_synced_handle (e : React.event) (a : React.app) :
  react_inv (React.scene a) → react_synced a →
  react_synced (React.handle e a).
Proof.
  intros Hinv Hsync. destruct e as [res|v|v|v| |]; cbn [React.handle].
  - destruct (ok res) eqn:Hok.
    + destruct (loadSTL_ok_spec res _ (proj1 Hinv) Hok)
        as (g & _ & Hd & Hb & _).
      intros d g' Hd' Hb'. cbn [React.scene] in *. left. by simplify_eq.
    + destruct (loadSTL_fail_spec res (React.scene a) Hok) as (? & ? & ? & _).
      by apply (react_synced_ext a).
  - unfold React.depth_onChange, React.updateParameter.
    destruct (negb _); [|done]. by apply react_synced_setParameters.
  - unfold React.depth_onBlur, React.updateParameter.
    destruct (v <? nz 10); [by apply react_synced_setParameters|].
    destruct (v >? nz 300); [|done]. by apply react_synced_setParameters.
  - by apply react_synced_setParameters.
  - by apply react_synced_setParameters.
  - destruct (exportSTL_frame (React.scene a)) as (? & ? & ?).
    by apply (react_synced_ext a).
Qed.

End synchrony.

(** X7.  The scene of the React component never lags behind a depth it has
    been scaled to.  After any sequence of events from the initial state,
    the displayed geometry has the vertex positions of the base geometry
    (no scaling has taken effect since the load), or the base geometry has
    positive depth and the displayed geometry is the base geometry baked
    with the factor [depth / extent] for the depth the component holds
    now. *)
Theorem react_scene_follows_depth (es : list React.event) :
  react_synced (React.run es app0).
Proof.
  assert (∀ a, react_inv (React.scene a) → react_synced a →
               react_synced (React.run es a)) as H.
  { induction es as [|e es IH]; intros a Hinv Hsync; [done|].
    cbn [React.run fold_left].
    apply IH; [by apply react_inv_handle|by apply react_synced_handle]. }
  apply H; [apply react_inv_session0|]. by intros d g.
Qed.

(** ** The depth-and-height effect on the positions *)

Section height_step.

Lemma effect_positions_spec (p : DepthHeight.Parameters) (s : session)
    (m b : nat) :
  wf s → mesh s = Some m → baseGeometry s = Some b →
  (extent axis_z (deref s b) <=? nz 0) || (extent axis_y (deref s b) <=? nz 0)
    = false →
  displayed (exec (DepthHeight.effect p) s)
  = Some (mkGeometry (effect_positions p (position (deref s b))) false).
Proof.
  intros (Hm & Hb & Hmb) Em Eb Hguard.
  unfold DepthHeight.effect, exec.
  unfold mbind, M_bind, get. rewrite Em, Eb.
  unfold extent, computeBoundingBox in Hguard. simpl in Hguard.
  simpl. rewrite Hguard. simpl.
  specialize (Hmb _ _ Em Eb). specialize (Hb _ Eb). specialize (Hm _ Em).
  unfold effect_positions, heightStep_positions, DepthHeight.heightStep.
  unfold mbind, M_bind, get.
  set (ds := DepthHeight.depth p / _).
  set (hs := DepthHeight.height p / _) in *.
  name_fresh.
  assert (l ≠ m ∧ l ≠ b) as [Hlm Hlb] by set_solver.
  destruct (nneq ds (nz 1)), (nneq hs (nz 1)); simpl.
  all: unfold computeBoundingBox, deref; simpl.
  all: rewrite ?lookup_total_insert_eq; simpl.
  all: repeat (match goal with
            | |- context [if ?c then _ else _] =>
                lazymatch type of c with bool => destruct c eqn:? end
            end; simpl).
  all: unfold displayed, deref; simpl.
  all: rewrite ?lookup_total_insert_ne by done.
  all: rewrite ?lookup_total_insert_eq; simpl.
  all: rewrite ?lookup_total_insert_eq; simpl; try done.
Qed.

(** The depth step leaves X and Y as they are and multiplies Z. *)
Lemma coords_depth_scaled (a : axis) (ds : num) (ps : list Vector3) :
  forallb finiteV ps = true →
  map (coord a) (positions_applyMatrix4 (makeScale (nz 1) (nz 1) ds) ps)
  = map (λ v, if decide (a = axis_z) then ds * vz v else coord a v) ps.
Proof.
  unfold positions_applyMatrix4.
  induction ps as [|v ps IH]; cbn [map forallb]; [done|].
  intros [Hv Hps]%andb_true_iff. rewrite IH by done. f_equal.
  rewrite applyMatrix4_makeScale by done.
  destruct a; cbn [coord vx vy vz]; by rewrite ?nz_1, ?nmul_1_l.
Qed.

(** The extrusion loop writes Y only. *)
Lemma coords_extrude (a : axis) (thr cx xr e : num) (ps : list Vector3) :
  a ≠ axis_y →
  map (coord a) (DepthHeight.extrude thr cx xr e ps) = map (coord a) ps.
Proof.
  intros Ha. unfold DepthHeight.extrude. rewrite map_map. apply map_ext.
  intros v. destruct (_ && _); [|done]. by destruct a.
Qed.

Lemma coords_heightStep (a : axis) (hs : num) (ps : list Vector3) :
  a ≠ axis_y →
  map (coord a) (heightStep_positions hs ps) = map (coord a) ps.
Proof.
  intros Ha. unfold heightStep_positions.
  destruct (_ >? _); [|done]. by apply coords_extrude.
Qed.

Lemma length_heightStep (hs : num) (ps : list Vector3) :
  length (heightStep_positions hs ps) = length ps.
Proof.
  unfold heightStep_positions, DepthHeight.extrude.
  destruct (_ >? _); [|done]. apply length_map.
Qed.

(** Each vertex keeps its Y or, when it lies above the threshold, has it
    raised by the extrusion height. *)
Lemma extrude_ys (thr e : Qc) (cx xr : num) (ps : list Vector3)
    (ys : list Qc) :
  map vy ps = map Fin ys →
  ∃ ys', map vy (DepthHeight.extrude (Fin thr) cx xr (Fin e) ps) = map Fin ys' ∧
         Forall2 (λ y y', y' = y ∨ (y' = y + e ∧ thr < y))%Qc ys ys'.
Proof.
  revert ys. induction ps as [|v ps IH]; intros [|y ys] Hys; try done.
  { by exists []. }
  cbn [map] in Hys. injection Hys as Hy Hys.
  destruct (IH ys Hys) as (ys' & Hys' & Hall).
  unfold DepthHeight.extrude in *. cbn [map]. rewrite Hys', Hy.
  unfold ngt at 1. cbn [nlt].
  destruct (Qcltb thr y) eqn:Hthr; cbn [andb].
  - destruct (_ >? _).
    + exists ((y + e)%Qc :: ys'). split; [done|].
      constructor; [|done]. right. split; [done|]. by apply Qcltb_lt.
    + exists (y :: ys'). rewrite Hy. split; [done|].
      constructor; [|done]. by left.
  - exists (y :: ys'). rewrite Hy. split; [done|].
    constructor; [|done]. by left.
Qed.

(** Raising some elements that lie above the minimum by [e ≥ 0] keeps the
    minimum and moves the maximum up by at most [e]. *)
Lemma raise_bounds (ys ys' : list Qc) (lo hi thr e : Qc) :
  (0 ≤ e)%Qc → (lo < thr)%Qc →
  Forall2 (λ y y', y' = y ∨ (y' = y + e ∧ thr < y))%Qc ys ys' →
  lmin (map Fin ys) = Fin lo → lmax (map Fin ys) = Fin hi →
  ∃ hi', lmin (map Fin ys') = Fin lo ∧ lmax (map Fin ys') = Fin hi' ∧
         (hi ≤ hi')%Qc ∧ (hi' ≤ hi + e)%Qc.
Proof.
  intros He Hthr Hall [Hlo Hlb]%lmin_Fin_inv [Hhi Hub]%lmax_Fin_inv.
  assert (∀ y', y' ∈ ys' → ∃ y, y ∈ ys ∧ (y ≤ y')%Qc ∧ (y' ≤ y + e)%Qc)
    as Hback.
  { intros y' [i Hi]%list_elem_of_lookup.
    destruct (Forall2_lookup_r _ _ _ _ _ Hall Hi) as (y & Hy & Hrel).
    exists y. split; [by eapply list_elem_of_lookup_2|].
    destruct Hrel as [->|[-> _]].
    - split; [apply Qcle_refl|].
      rewrite <-(Qcplus_0_r y) at 1. by apply Qcplus_le_mono_l.
    - split; [|apply Qcle_refl].
      rewrite <-(Qcplus_0_r y) at 1. by apply Qcplus_le_mono_l. }
  assert (∀ y, y ∈ ys → ∃ y', y' ∈ ys' ∧ (y ≤ y')%Qc ∧
                         ((y ≤ thr)%Qc → y' = y)) as Hforth.
  { intros y [i Hi]%list_elem_of_lookup.
    destruct (Forall2_lookup_l _ _ _ _ _ Hall Hi) as (y' & Hy' & Hrel).
    exists y'. split; [by eapply list_elem_of_lookup_2|].
    destruct Hrel as [->|[-> Hlt]].
    - split; [apply Qcle_refl|done].
    - split.
      + rewrite <-(Qcplus_0_r y) at 1. by apply Qcplus_le_mono_l.
      + intros Hle. by destruct (Qclt_not_le _ _ Hlt). }
  assert (ys' ≠ []) as Hne.
  { destruct (Hforth lo Hlo) as (y' & Hy' & _). intros ->. inversion Hy'. }
  destruct (lmax_Fin ys' Hne) as (hi' & Hhi' & Hmem' & Hub').
  exists hi'. split_and!; [|done|..].
  - apply lmin_Fin_unique.
    + destruct (Hforth lo Hlo) as (y' & Hy' & _ & Heq).
      rewrite <-Heq; [done|]. by apply Qclt_le_weak.
    + intros y' (y & Hy & Hle & _)%Hback.
      apply Qcle_trans with y; [by apply Hlb|done].
  - destruct (Hforth hi Hhi) as (y' & Hy' & Hle & _).
    apply Qcle_trans with y'; [done|by apply Hub'].
  - destruct (Hback hi' Hmem') as (y & Hy & _ & Hle).
    apply Qcle_trans with (y + e)%Qc; [done|].
    apply Qcplus_le_mono_r. by apply Hub.
Qed.

Lemma threshold_above_min (lo hi : Qc) :
  (lo < hi)%Qc → (lo < lo + (hi + - lo) * qfrac 55 100)%Qc.
Proof.
  intros Hlt. rewrite <-(Qcplus_0_r lo) at 1. apply Qcplus_lt_mono_l.
  apply Qcmult_pos_pos; [by apply Qclt_minus_iff in Hlt|by apply Qcltb_lt].
Qed.

Lemma extrusion_height (k lo hi : Qc) :
  ((k + - qz 1) * (hi + - (lo + (hi + - lo) * qfrac 55 100))
   = qfrac 45 100 * ((k + - 1) * (hi + - lo)))%Qc.
Proof.
  change (qz 1) with 1%Qc.
  assert (qfrac 55 100 = 1 + - qfrac 45 100)%Qc as -> by compute_done. ring.
Qed.

(** With a height scale above 1 the height step keeps the lowest Y, lowers
    no vertex, and raises the highest Y by at most 45 % of the growth the
    scale asks for. *)
Lemma heightStep_grow (k lo hi : Qc) (ps : list Vector3) (ys : list Qc) :
  map vy ps = map Fin ys →
  lmin (map Fin ys) = Fin lo → lmax (map Fin ys) = Fin hi →
  (lo < hi)%Qc → (1 < k)%Qc →
  ∃ ys' hi',
    map vy (heightStep_positions (Fin k) ps) = map Fin ys' ∧
    lmin (map Fin ys') = Fin lo ∧ lmax (map Fin ys') = Fin hi' ∧
    (hi ≤ hi')%Qc ∧
    (hi' ≤ hi + qfrac 45 100 * ((k + - 1) * (hi + - lo)))%Qc ∧
    Forall2 Qcle ys ys'.
Proof.
  intros Hys Hlo Hhi Hlt Hk. unfold heightStep_positions.
  destruct (box_coord axis_y (mkGeometry ps false)) as [Hmin Hmax].
  unfold computeBoundingBox in Hmin, Hmax.
  cbn [position coord] in Hmin, Hmax.
  change (map (coord axis_y) ps) with (map vy ps) in Hmin, Hmax.
  rewrite Hmin, Hmax, Hys, Hlo, Hhi.
  unfold nsub. cbn [nneg nadd nmul nz].
  set (thr := (lo + (hi + - lo) * qfrac 55 100)%Qc).
  set (e := ((k + - qz 1) * (hi + - thr))%Qc).
  assert (0 < e)%Qc as He.
  { apply Qcmult_pos_pos; [|by apply above_threshold_pos].
    change (qz 1) with 1%Qc. by apply Qclt_minus_iff in Hk. }
  assert ((Fin e >? nz 0) = true) as -> by by apply Qcltb_lt.
  destruct (extrude_ys thr e
              ((vx (bmin (setFromBufferAttribute ps))
                + vx (bmax (setFromBufferAttribute ps))) / nz 2)
              (vx (bmax (setFromBufferAttribute ps))
               + nneg (vx (bmin (setFromBufferAttribute ps))))
              ps ys Hys) as (ys' & Hys' & Hall).
  destruct (raise_bounds ys ys' lo hi thr e) as (hi' & ? & ? & ? & Hup);
    try done.
  { by apply Qclt_le_weak. }
  { by apply threshold_above_min. }
  exists ys', hi'. split_and!; try done.
  - unfold e, thr in Hup. by rewrite extrusion_height in Hup.
  - eapply Forall2_impl; [exact Hall|]. intros y y' [->|[-> _]].
    + apply Qcle_refl.
    + rewrite <-(Qcplus_0_r y) at 1.
      apply Qcplus_le_mono_l. by apply Qclt_le_weak.
Qed.

Lemma effect_positions_unfold (p : DepthHeight.Parameters)
    (g : BufferGeometry) :
  effect_positions p (position g)
  = let depthScale := DepthHeight.depth p / extent axis_z g in
    let heightScale := DepthHeight.height p / extent axis_y g in
    let scaled :=
      if nneq depthScale (nz 1)
      then positions_applyMatrix4 (makeScale (nz 1) (nz 1) depthScale)
             (position g)
      else position g in
    if nneq heightScale (nz 1)
    then heightStep_positions heightScale scaled
    else scaled.
Proof. done. Qed.

Lemma nneq_false (a : num) : nneq a (nz 1) = false → a = nz 1.
Proof.
  destruct a; try done. unfold nneq, nz.
  intros H%negb_false_iff. by apply bool_decide_eq_true in H.
Qed.

(** The positions after the depth step, whether it runs or is skipped. *)
Lemma coords_scaled (a : axis) (ds : num) (ps : list Vector3) :
  forallb finiteV ps = true →
  map (coord a)
    (if nneq ds (nz 1)
     then positions_applyMatrix4 (makeScale (nz 1) (nz 1) ds) ps else ps)
  = map (λ v, if decide (a = axis_z) then ds * vz v else coord a v) ps.
Proof.
  intros Hps. destruct (nneq ds (nz 1)) eqn:E.
  { by apply coords_depth_scaled. }
  apply nneq_false in E as ->. apply map_ext_in.
  intros v Hv. destruct (decide _) as [->|_]; [|done].
  assert (finiteV v = true) as (x & y & z & ->)%finiteV_inv.
  { rewrite forallb_forall in Hps. by apply Hps. }
  cbn [coord vz]. by rewrite nz_1, nmul_1_l.
Qed.

Lemma guard_false (g : BufferGeometry) :
  finite_geometry g = true →
  (extent axis_z g >? nz 0) = true → (extent axis_y g >? nz 0) = true →
  (extent axis_z g <=? nz 0) || (extent axis_y g <=? nz 0) = false.
Proof.
  intros Hg HZ HY.
  destruct (extent_finite_pos axis_z g Hg HZ) as (cz & -> & Hcz).
  destruct (extent_finite_pos axis_y g Hg HY) as (cy & -> & Hcy).
  by rewrite !pos_not_le.
Qed.

End height_step.

(** X8.  In the depth-and-height variant the depth law does not depend on
    the height: for a base geometry with finite coordinates and positive
    depth and height, and a finite target depth [T] whose factor fits
    double precision and whose scaled coordinates fit single precision,
    the geometry the effect installs has Z extent [|T|], the X coordinates
    of the base geometry, and each Z multiplied by [T / depth], whatever
    the height parameter is. *)
Theorem depth_law_with_height
    (p : DepthHeight.Parameters) (s : session) (g : BufferGeometry) :
  wf s → is_Some (mesh s) → base s = Some g → finite_geometry g = true →
  (extent axis_z g >? nz 0) = true → (extent axis_y g >? nz 0) = true →
  is_finite (DepthHeight.depth p) = true →
  no_overflow (DepthHeight.depth p / extent axis_z g) g = true →
  ∃ d, displayed (exec (DepthHeight.effect p) s) = Some d ∧
       extent axis_z d = nabs (DepthHeight.depth p) ∧
       map vx (position d) = map vx (position g) ∧
       map vz (position d)
       = map (λ v, DepthHeight.depth p / extent axis_z g * vz v) (position g).
Proof.
  intros Hwf [m Em] Hbase Hg HZ HY HT _.
  destruct (base_is_Some _ _ Hbase) as [b Eb].
  rewrite (base_deref _ _ Eb) in Hbase. injection Hbase as Hbase.
  pose proof (guard_false g Hg HZ HY) as Hguard. rewrite <-Hbase in Hguard.
  rewrite (effect_positions_spec p s m b Hwf Em Eb Hguard), Hbase.
  eexists. split; [done|]. cbn [position].
  rewrite effect_positions_unfold. cbv zeta.
  set (ds := DepthHeight.depth p / extent axis_z g).
  set (hs := DepthHeight.height p / extent axis_y g).
  set (scaled := if nneq ds (nz 1) then _ else _).
  set (final := if nneq hs (nz 1) then _ else _).
  assert (∀ a, a ≠ axis_y → map (coord a) final
            = map (λ v, if decide (a = axis_z) then ds * vz v else coord a v)
                (position g)) as Hfinal.
  { intros a Ha. unfold final.
    destruct (nneq hs (nz 1)); rewrite ?coords_heightStep by done;
      by apply coords_scaled. }
  split_and!.
  - destruct (extent_finite_pos axis_z g Hg HZ) as (c & Hc & Hcpos).
    destruct (DepthHeight.depth p) as [| |t|] eqn:Et; try discriminate.
    rewrite <-(baked_extent_abs_target axis_z g t c Hg Hcpos Hc).
    rewrite !extent_lmax_lmin. cbn [position].
    rewrite (Hfinal axis_z) by done.
    rewrite position_baked by done. rewrite map_map.
    unfold ds. by rewrite Hc.
  - by apply (Hfinal axis_x).
  - by apply (Hfinal axis_z).
Qed.

Lemma depth_law_with_height_witness :
  ∃ d, displayed (exec (DepthHeight.effect
                          (DepthHeight.mkParameters (nz 100) (nz 12)))
                    bracket_session) = Some d ∧
       extent axis_z d = nabs (nz 100) ∧
       map vx (position d) = map vx (position bracket) ∧
       map vz (position d)
       = map (λ v, nz 100 / extent axis_z bracket * vz v) (position bracket).
Proof.
  apply (depth_law_with_height (DepthHeight.mkParameters (nz 100) (nz 12))
           bracket_session bracket).
  - split_and!; [intros ? [= <-]|intros ? [= <-]|intros ?? [= <-] [= <-]];
      compute_done.
  - by eexists.
  - reflexivity.
  - reflexivity.
  - reflexivity.
  - reflexivity.
  - reflexivity.
  - reflexivity.
Defined.

(** X9.  In the depth-and-height variant a height target above the height
    of the base geometry is not reached.  For a base geometry with finite
    coordinates and positive depth and height [h], and a finite target
    height [H > h] whose height scale fits double precision and whose
    raised Y coordinates fit single precision, the geometry the effect
    installs has the vertex count and the lowest Y of the base geometry,
    no vertex lower than in the base geometry, and a height between [h]
    and [h + 0.45 (H - h)], which is less than [H]. *)
Theorem height_growth_is_partial
    (p : DepthHeight.Parameters) (s : session) (g : BufferGeometry) :
  wf s → is_Some (mesh s) → base s = Some g → finite_geometry g = true →
  (extent axis_z g >? nz 0) = true → (extent axis_y g >? nz 0) = true →
  is_finite (DepthHeight.height p) = true →
  (extent axis_y g <? DepthHeight.height p) = true →
  height_fits (DepthHeight.height p) g = true →
  ∃ d, displayed (exec (DepthHeight.effect p) s) = Some d ∧
       vertexCount d = vertexCount g ∧
       vy (bmin (computeBoundingBox d)) = vy (bmin (computeBoundingBox g)) ∧
       Forall2 (λ v v', (vy v <=? vy v') = true) (position g) (position d) ∧
       (extent axis_y g <=? extent axis_y d) = true ∧
       (extent axis_y d
        <=? extent axis_y g
            + Fin (qfrac 45 100) * (DepthHeight.height p - extent axis_y g))
       = true ∧
       (extent axis_y d <? DepthHeight.height p) = true.
Proof.
  intros Hwf [m Em] Hbase Hg HZ HY HT Hgrow _.
  destruct (base_is_Some _ _ Hbase) as [b Eb].
  rewrite (base_deref _ _ Eb) in Hbase. injection Hbase as Hbase.
  pose proof (guard_false g Hg HZ HY) as Hguard. rewrite <-Hbase in Hguard.
  rewrite (effect_positions_spec p s m b Hwf Em Eb Hguard), Hbase.
  eexists. split; [done|].
  destruct (extent_finite_pos axis_y g Hg HY) as (h & Hh & Hhpos).
  destruct (geometry_bounds axis_y g h Hg Hh)
    as (ys & lo & hi & Hys & Hlo & Hhi & Hhdef & _).
  unfold Qcminus in Hhdef.
  destruct (DepthHeight.height p) as [| |th|] eqn:Eth; try discriminate.
  rewrite Hh in Hgrow. cbn [nlt] in Hgrow. apply Qcltb_lt in Hgrow.
  assert (lo < hi)%Qc as Hlt.
  { apply Qclt_minus_iff. by rewrite <-Hhdef. }
  assert (1 < th / h)%Qc as Hk.
  { apply (Qcmult_lt_mono_pos_r _ _ h Hhpos).
    by rewrite Qcdiv_mult_cancel, Qcmult_1_l by by apply Qc_pos_neq_0. }
  set (d := mkGeometry _ _).
  assert (∃ ys' hi',
    map vy (position d) = map Fin ys' ∧
    lmin (map Fin ys') = Fin lo ∧ lmax (map Fin ys') = Fin hi' ∧
    (hi ≤ hi')%Qc ∧
    (hi' ≤ hi + qfrac 45 100 * ((th / h + - 1) * (hi + - lo)))%Qc ∧
    Forall2 Qcle ys ys' ∧ length (position d) = length (position g))
    as (ys' & hi' & Hys' & Hlo' & Hhi' & Hge & Hle & Hall & Hlen).
  { unfold d. cbn [position]. rewrite effect_positions_unfold. cbv zeta.
    rewrite Eth, Hh, ndiv_fin by done.
    assert (nneq (Fin (th / h)) (nz 1) = true) as ->.
    { unfold nneq, nz. apply negb_true_iff, bool_decide_eq_false.
      intros E. assert (th / h = qz 1)%Qc as E' by congruence.
      rewrite E' in Hk. by apply Qclt_not_le in Hk. }
    set (scaled := if nneq _ (nz 1) then _ else _).
    assert (map vy scaled = map Fin ys) as Hsc.
    { rewrite <-Hys. unfold scaled. by apply (coords_scaled axis_y). }
    destruct (heightStep_grow (th / h) lo hi scaled ys Hsc Hlo Hhi Hlt Hk)
      as (ys' & hi' & ? & ? & ? & ? & ? & ?).
    exists ys', hi'. split_and!; try done.
    rewrite length_heightStep. unfold scaled, positions_applyMatrix4.
    destruct (nneq _ _); [apply length_map|done]. }
  assert (extent axis_y d = Fin (hi' + - lo)) as Hext.
  { rewrite extent_lmax_lmin.
    change (map (coord axis_y) (position d)) with (map vy (position d)).
    by rewrite Hys', Hlo', Hhi'. }
  assert (hi + qfrac 45 100 * ((th / h + - 1) * (hi + - lo)) + - lo
          = h + qfrac 45 100 * (th + - h))%Qc as Hval.
  { pose proof (Qc_pos_neq_0 _ Hhpos) as Hne. rewrite Hhdef in Hne |- *.
    generalize (qfrac 45 100). intros c. by field. }
  split_and!.
  - done.
  - destruct (box_coord axis_y d) as [Hmin _].
    destruct (box_coord axis_y g) as [Hmin' _]. cbn [coord] in Hmin, Hmin'.
    rewrite Hmin, Hmin'.
    change (map (coord axis_y) (position d)) with (map vy (position d)).
    by rewrite Hys', Hys, Hlo, Hlo'.
  - apply Forall2_same_length_lookup_2; [done|].
    intros i v v' Hv Hv'.
    assert (map vy (position g) !! i = Some (vy v)) as H1
      by by rewrite list_lookup_fmap, Hv.
    assert (map vy (position d) !! i = Some (vy v')) as H2
      by by rewrite list_lookup_fmap, Hv'.
    change (map (coord axis_y) (position g)) with (map vy (position g)) in Hys.
    rewrite Hys in H1. rewrite Hys' in H2.
    rewrite list_lookup_fmap in H1, H2.
    destruct (ys !! i) as [y|] eqn:Ey; [|done].
    destruct (ys' !! i) as [y'|] eqn:Ey'; [|done].
    cbn in H1, H2. injection H1 as <-. injection H2 as <-.
    apply Qcleb_le. by eapply (Forall2_lookup_lr _ ys ys').
  - rewrite Hext, Hh. apply Qcleb_le. rewrite Hhdef.
    by apply Qcplus_le_mono_r.
  - rewrite Hext, Hh. unfold nsub. cbn [nneg nadd nmul]. apply Qcleb_le.
    rewrite <-Hval. by apply Qcplus_le_mono_r.
  - rewrite Hext. cbn [nlt]. apply Qcltb_lt.
    apply Qcle_lt_trans with (h + qfrac 45 100 * (th + - h))%Qc.
    { rewrite <-Hval. by apply Qcplus_le_mono_r. }
    replace th with (h + (th + - h))%Qc at 2 by ring.
    apply Qcplus_lt_mono_l.
    rewrite <-(Qcmult_1_l (th + - h)) at 2.
    apply Qcmult_lt_mono_pos_r; [|by apply Qcltb_lt].
    by apply Qclt_minus_iff in Hgrow.
Qed.

Lemma height_growth_is_partial_witness :
  ∃ d, displayed (exec (DepthHeight.effect
                          (DepthHeight.mkParameters (nz 50) (nz 12)))
                    bracket_session) = Some d ∧
       vertexCount d = vertexCount bracket ∧
       vy (bmin (computeBoundingBox d))
       = vy (bmin (computeBoundingBox bracket)) ∧
       Forall2 (λ v v', (vy v <=? vy v') = true)
         (position bracket) (position d) ∧
       (extent axis_y bracket <=? extent axis_y d) = true ∧
       (extent axis_y d
        <=? extent axis_y bracket
            + Fin (qfrac 45 100) * (nz 12 - extent axis_y bracket)) = true ∧
       (extent axis_y d <? nz 12) = true.
Proof.
  apply (height_growth_is_partial (DepthHeight.mkParameters (nz 50) (nz 12))
           bracket_session bracket).
  - split_and!; [intros ? [= <-]|intros ? [= <-]|intros ?? [= <-] [= <-]];
      compute_done.
  - by eexists.
  - reflexivity.
  - reflexivity.
  - reflexivity.
  - reflexivity.
  - reflexivity.
  - reflexivity.
  - reflexivity.
Defined.

(** The bound is attained: growing the bracket from 6 to 12 high gives a
    height of 8.7, that is 6 + 0.45 (12 - 6). *)
Example bracket_height :
  extent axis_y <$> displayed
    (exec (DepthHeight.effect (DepthHeight.mkParameters (nz 50) (nz 12)))
       bracket_session) = Some (Fin (qfrac 87 10)).
Proof. compute_done. Qed.

Section height_vertexwise.



End height_vertexwise.



(** ** Export *)

Section export.

Lemma exportCurrentMeshAsSTL_spec (now : N) (s : session) (m : nat) :
  mesh s = Some m →
  exec (Vanilla.exportCurrentMeshAsSTL now) s
  = mkSession (store s) (mesh s) (baseGeometry s) (console s)
      (downloads s
       ++ [mkDownload
             ("auriga-simracing-cable-guide-" +:+ pretty now +:+ ".stl")
             "application/sla" (position (deref s m))]).
Proof.
  intros Em. unfold Vanilla.exportCurrentMeshAsSTL, exec, mbind, M_bind, get.
  rewrite Em. unfold offer_download. cbn [snd]. by rewrite Em.
Qed.

Lemma exportSTL_spec (s : session) (m : nat) :
  mesh s = Some m →
  exec React.exportSTL s
  = mkSession (store s) (mesh s) (baseGeometry s) (console s)
      (downloads s
       ++ [mkDownload "auriga_cable_guide.stl" "application/sla"
             (position (deref s m))]).
Proof.
  intros Em. unfold React.exportSTL, exec, mbind, M_bind, get.
  rewrite Em. unfold offer_download. cbn [snd]. by rewrite Em.
Qed.

Lemma displayed_mesh (s : session) (d : BufferGeometry) :
  displayed s = Some d → ∃ m, mesh s = Some m ∧ deref s m = d.
Proof.
  unfold displayed. destruct (mesh s) as [m|]; [|done].
  intros [= <-]. by exists m.
Qed.

Lemma length_append (s t : string) :
  String.length (s +:+ t) = (String.length s + String.length t)%nat.
Proof.
  induction s as [|c s IH]; [done|].
  change (String c s +:+ t) with (String c (s +:+ t)).
  cbn [String.length]. by rewrite IH.
Qed.

Lemma append_inj_l (t s1 s2 : string) : s1 +:+ t = s2 +:+ t → s1 = s2.
Proof.
  revert s2. induction s1 as [|c s1 IH]; intros [|c2 s2] H.
  - done.
  - apply (f_equal String.length) in H.
    change ("" +:+ t) with t in H.
    rewrite length_append in H. cbn [String.length] in H. lia.
  - apply (f_equal String.length) in H.
    change ("" +:+ t) with t in H.
    rewrite length_append in H. cbn [String.length] in H. lia.
  - change (String c s1 +:+ t) with (String c (s1 +:+ t)) in H.
    change (String c2 s2 +:+ t) with (String c2 (s2 +:+ t)) in H.
    injection H as -> H. f_equal. by apply IH.
Qed.

End export.

(** X10.  The file offered for download has the depth that was set.  For a
    base geometry with finite coordinates and positive depth, a slider
    input with a finite target [T], whose factor fits double precision and
    whose scaled coordinates fit single precision, followed by a click on
    the export button adds exactly one file to the downloads; it has the
    content type of the source, carries the vertices of the displayed
    geometry, as many as the base geometry has, and its Z extent is [|T|].
    The same holds in the React variant when the depth changes to [T] and
    the export button is clicked. *)
Theorem exported_file_has_target_depth
    (s : session) (g : BufferGeometry) (T T0 : num) (now : N) :
  wf s → is_Some (mesh s) → base s = Some g →
  finite_geometry g = true → (extent axis_z g >? nz 0) = true →
  is_finite T = true → no_overflow (T / extent axis_z g) g = true →
  T0 ≠ T →
  let v := Vanilla.run [Vanilla.DepthInput T; Vanilla.ExportClick now] s in
  let r := React.scene
             (React.run [React.Slide T; React.ExportClick]
                (React.mkApp (React.mkParameters T0) s)) in
  (∃ f, downloads v = downloads s ++ [f] ∧ mime f = "application/sla" ∧
        Some (body f) = position <$> displayed v ∧
        length (body f) = vertexCount g ∧
        extent axis_z (mkGeometry (body f) false) = nabs T) ∧
  (∃ f, downloads r = downloads s ++ [f] ∧ mime f = "application/sla" ∧
        filename f = "auriga_cable_guide.stl" ∧
        Some (body f) = position <$> displayed r ∧
        length (body f) = vertexCount g ∧
        extent axis_z (mkGeometry (body f) false) = nabs T).
Proof.
  intros Hwf [m Em] Hbase Hg Hpos HT _ Hne v r.
  destruct T as [| |t|]; try discriminate.
  destruct (base_is_Some _ _ Hbase) as [b Eb].
  rewrite (base_deref _ _ Eb) in Hbase. injection Hbase as Hbase.
  destruct (extent_finite_pos axis_z g Hg Hpos) as (c & Hc & Hcpos).
  assert (∀ d, position d = position (baked axis_z (Fin t / Fin c) g) →
               length (position d) = vertexCount g ∧
               extent axis_z (mkGeometry (position d) false) = Fin
                 (if Qcltb t 0 then - t else t)%Qc) as Hfile.
  { intros d ->. split.
    - unfold baked, positions_applyMatrix4. cbn [position]. apply length_map.
    - by apply (baked_extent_abs_target axis_z g t c). }
  split.
  - destruct (depthRange_input_spec (Fin t) s m b Hwf Em Eb)
      as (_ & Hd & _ & _ & _ & Hdl & _).
    destruct (displayed_mesh _ _ Hd) as (m' & Em' & Hm').
    unfold v. cbn [Vanilla.run fold_left Vanilla.handle].
    rewrite (exportCurrentMeshAsSTL_spec now _ m' Em').
    eexists. cbn [downloads]. rewrite Hdl. split; [done|]. cbn [mime body].
    split; [done|]. unfold displayed at 1. cbn [mesh store]. rewrite Em'.
    split; [done|]. apply Hfile. rewrite Hm'.
    by rewrite Hbase, getScale_unfold, Hpos, Hc.
  - assert ((extent axis_z (deref s b) <=? nz 0) = false) as Hnd.
    { rewrite Hbase, Hc. by apply pos_not_le. }
    destruct (depthEffect_spec (React.mkParameters (Fin t)) s m b Hwf Em Eb Hnd)
      as (_ & Hd & _ & _ & _ & Hdl & _).
    destruct (displayed_mesh _ _ Hd) as (m' & Em' & Hm').
    unfold r. cbn [React.run fold_left React.handle].
    unfold React.slider_onValueChange, React.updateParameter,
      React.setParameters, React.handleExportSTL.
    cbn [React.scene React.parameters React.depth].
    rewrite decide_False by done.
    rewrite (exportSTL_spec _ m' Em').
    eexists. cbn [downloads]. rewrite Hdl. split; [done|].
    cbn [mime body filename]. split; [done|]. split; [done|].
    unfold displayed at 1. cbn [mesh store]. rewrite Em'.
    split; [done|]. apply Hfile. rewrite Hm'. cbn [React.depth].
    by rewrite Hbase, Hc.
Qed.

Lemma exported_file_has_target_depth_witness :
  let v := Vanilla.run [Vanilla.DepthInput (nz 100); Vanilla.ExportClick 7]
             prism_session in
  let r := React.scene
             (React.run [React.Slide (nz 100); React.ExportClick]
                (React.mkApp (React.mkParameters (nz 10)) prism_session)) in
  (∃ f, downloads v = downloads prism_session ++ [f] ∧
        mime f = "application/sla" ∧
        Some (body f) = position <$> displayed v ∧
        length (body f) = vertexCount prism ∧
        extent axis_z (mkGeometry (body f) false) = nabs (nz 100)) ∧
  (∃ f, downloads r = downloads prism_session ++ [f] ∧
        mime f = "application/sla" ∧
        filename f = "auriga_cable_guide.stl" ∧
        Some (body f) = position <$> displayed r ∧
        length (body f) = vertexCount prism ∧
        extent axis_z (mkGeometry (body f) false) = nabs (nz 100)).
Proof.
  apply (exported_file_has_target_depth prism_session prism (nz 100) (nz 10) 7).
  - exact wf_prism_session.
  - by eexists.
  - reflexivity.
  - reflexivity.
  - reflexivity.
  - reflexivity.
  - reflexivity.
  - by vm_compute.
Defined.

(** X11.  Exports of the vanilla variant are told apart by their time: two
    clicks on the export button, in any two sessions that show a mesh,
    offer files of the same name exactly when [Date.now()] gave the same
    value.  The React variant offers every file under one name. *)
Theorem export_names
    (s1 s2 : session) (n1 n2 : N) :
  is_Some (mesh s1) → is_Some (mesh s2) →
  ∃ f1 f2 r1 r2,
    last (downloads (exec (Vanilla.exportCurrentMeshAsSTL n1) s1)) = Some f1 ∧
    last (downloads (exec (Vanilla.exportCurrentMeshAsSTL n2) s2)) = Some f2 ∧
    (filename f1 = filename f2 ↔ n1 = n2) ∧
    last (downloads (exec React.exportSTL s1)) = Some r1 ∧
    last (downloads (exec React.exportSTL s2)) = Some r2 ∧
    filename r1 = filename r2.
Proof.
  intros [m1 E1] [m2 E2].
  rewrite (exportCurrentMeshAsSTL_spec n1 s1 m1 E1).
  rewrite (exportCurrentMeshAsSTL_spec n2 s2 m2 E2).
  rewrite (exportSTL_spec s1 m1 E1), (exportSTL_spec s2 m2 E2).
  cbn [downloads]. rewrite !last_snoc.
  eexists _, _, _, _. split_and!; try done.
  cbn [filename]. split.
  - intros H%(inj (String.append _))%append_inj_l. by apply (inj pretty).
  - by intros ->.
Qed.

Lemma export_names_witness :
  ∃ f1 f2 r1 r2,
    last (downloads (exec (Vanilla.exportCurrentMeshAsSTL 7) prism_session))
    = Some f1 ∧
    last (downloads (exec (Vanilla.exportCurrentMeshAsSTL 8) bracket_session))
    = Some f2 ∧
    (filename f1 = filename f2 ↔ 7%N = 8%N) ∧
    last (downloads (exec React.exportSTL prism_session)) = Some r1 ∧
    last (downloads (exec React.exportSTL bracket_session)) = Some r2 ∧
    filename r1 = filename r2.
Proof.
  apply (export_names prism_session bracket_session 7 8); by eexists.
Defined.

(** ** What replaces the base geometry, and the depth parameter *)

Section base_preserved.

Lemma vanilla_handle_base (e : Vanilla.event) (s : session) :
  vanilla_inv s → vanilla_loads e = false →
  base (exec (Vanilla.handle e) s) = base s.
Proof.
  intros (Hwf & Hboth & _) He.
  destruct e as [res|target| |now]; cbn [Vanilla.handle vanilla_loads] in *.
  - destruct (autoLoad_fail_spec res s He) as (Hst & _ & Hb & _).
    unfold base, deref. by rewrite Hst, Hb.
  - destruct (both_or_none s Hboth) as [(m & b & Em & Eb)|[Em Eb]].
    + destruct (depthRange_input_spec target s m b Hwf Em Eb)
        as (_ & _ & Hb & Hbg & _).
      by rewrite (base_deref _ _ Hb), (base_deref _ _ Eb), Hbg.
    + unfold exec. by rewrite depthRange_input_skip by by left.
  - destruct (both_or_none s Hboth) as [(m & b & Em & Eb)|[Em Eb]].
    + destruct (reset_spec s m b Hwf Em Eb) as (_ & _ & Hb & Hbg & _).
      by rewrite (base_deref _ _ Hb), (base_deref _ _ Eb), Hbg.
    + unfold exec. by rewrite reset_skip by by left.
  - destruct (exportCurrentMeshAsSTL_frame now s) as (Hst & _ & Hb & _).
    unfold base, deref. by rewrite Hst, Hb.
Qed.

Lemma vanilla_run_base (es : list Vanilla.event) (s : session) :
  vanilla_inv s → existsb vanilla_loads es = false →
  base (Vanilla.run es s) = base s.
Proof.
  revert s. induction es as [|e es IH]; intros s Hinv Hes; [done|].
  cbn [existsb] in Hes. apply orb_false_iff in Hes as [He Hes].
  cbn [Vanilla.run fold_left].
  rewrite <-(vanilla_handle_base e s Hinv He).
  apply IH; [by apply vanilla_inv_handle|done].
Qed.

Lemma react_effect_base (p : React.Parameters) (a : React.app) :
  react_inv (React.scene a) →
  base (React.scene (React.setParameters p a)) = base (React.scene a).
Proof.
  intros (Hwf & Hboth & _). unfold React.setParameters. cbn [React.scene].
  destruct (decide _); [done|].
  destruct (both_or_none _ Hboth) as [(m & b & Em & Eb)|[Em Eb]].
  - destruct (extent axis_z (deref (React.scene a) b) <=? nz 0) eqn:Hdeg.
    + unfold exec. by rewrite (depthEffect_degenerate _ _ _ Eb Hdeg).
    + destruct (depthEffect_spec p _ m b Hwf Em Eb Hdeg)
        as (_ & _ & Hb & Hbg & _).
      by rewrite (base_deref _ _ Hb), (base_deref _ _ Eb), Hbg.
  - unfold exec. by rewrite depthEffect_skip by by left.
Qed.

Lemma react_handle_base (e : React.event) (a : React.app) :
  react_inv (React.scene a) → react_loads e = false →
  base (React.scene (React.handle e a)) = base (React.scene a).
Proof.
  intros Hinv He.
  destruct e as [res|v|v|v| |]; cbn [React.handle react_loads] in *.
  - destruct (loadSTL_fail_spec res (React.scene a) He) as (Hst & _ & Hb & _).
    unfold base, deref. cbn [React.scene]. by rewrite Hst, Hb.
  - unfold React.depth_onChange, React.updateParameter.
    destruct (negb _); [|done]. by apply react_effect_base.
  - unfold React.depth_onBlur, React.updateParameter.
    destruct (v <? nz 10); [by apply react_effect_base|].
    destruct (v >? nz 300); [|done]. by apply react_effect_base.
  - by apply react_effect_base.
  - by apply react_effect_base.
  - destruct (exportSTL_frame (React.scene a)) as (Hst & _ & Hb).
    unfold React.handleExportSTL, base, deref. cbn [React.scene].
    by rewrite Hst, Hb.
Qed.

Lemma react_run_base (es : list React.event) (a : React.app) :
  react_inv (React.scene a) → existsb react_loads es = false →
  base (React.scene (React.run es a)) = base (React.scene a).
Proof.
  revert a. induction es as [|e es IH]; intros a Hinv Hes; [done|].
  cbn [existsb] in Hes. apply orb_false_iff in Hes as [He Hes].
  cbn [React.run fold_left].
  rewrite <-(react_handle_base e a Hinv He).
  apply IH; [by apply react_inv_handle|done].
Qed.

Lemma depth_setParameters (p : React.Parameters) (a : React.app) :
  React.parameters (React.setParameters p a) = p.
Proof. done. Qed.

Lemma react_handle_number (e : React.event) (a : React.app) :
  slides_number e = true →
  isNaN (React.depth (React.parameters a)) = false →
  isNaN (React.depth (React.parameters (React.handle e a))) = false.
Proof.
  intros He Ha. destruct e as [res|v|v|v| |]; cbn [React.handle]; try done.
  - unfold React.depth_onChange, React.updateParameter.
    destruct (isNaN v) eqn:E; [done|]. cbn [negb].
    by rewrite depth_setParameters.
  - unfold React.depth_onBlur, React.updateParameter.
    destruct (v <? nz 10); [done|]. by destruct (v >? nz 300).
  - cbn [slides_number] in He. apply negb_true_iff in He.
    unfold React.slider_onValueChange, React.updateParameter.
    by rewrite depth_setParameters.
Qed.

End base_preserved.

(** X12.  The base geometry is only ever replaced by a successful load.
    After any events from the initial session, further slider inputs,
    resets, exports and failed loads leave the base geometry, positions and
    all, exactly as it was; the same holds for the React variant and its
    input, blur, slider, reset and export events. *)
Theorem base_geometry_is_preserved
    (es1 es2 : list Vanilla.event) (rs1 rs2 : list React.event) :
  existsb vanilla_loads es2 = false → existsb react_loads rs2 = false →
  base (Vanilla.run (es1 ++ es2) session0) = base (Vanilla.run es1 session0) ∧
  base (React.scene (React.run (rs1 ++ rs2) app0))
  = base (React.scene (React.run rs1 app0)).
Proof.
  intros Hes Hrs. split.
  - unfold Vanilla.run. rewrite fold_left_app.
    apply vanilla_run_base; [|done].
    apply vanilla_inv_run, vanilla_inv_session0.
  - unfold React.run. rewrite fold_left_app.
    apply react_run_base; [|done].
    apply react_inv_run, react_inv_session0.
Qed.

Lemma base_geometry_is_preserved_witness :
  base (Vanilla.run ([Vanilla.Loaded prism_response]
                     ++ [Vanilla.DepthInput (nz 100); Vanilla.ResetClick;
                         Vanilla.DepthInput (nz 20); Vanilla.ExportClick 7])
          session0)
  = base (Vanilla.run [Vanilla.Loaded prism_response] session0) ∧
  base (React.scene
          (React.run ([React.Fetched prism_response]
                      ++ [React.Slide (nz 100); React.Change (nz 20);
                          React.ResetClick; React.ExportClick]) app0))
  = base (React.scene (React.run [React.Fetched prism_response] app0)).
Proof.
  apply (base_geometry_is_preserved
           [Vanilla.Loaded prism_response]
           [Vanilla.DepthInput (nz 100); Vanilla.ResetClick;
            Vanilla.DepthInput (nz 20); Vanilla.ExportClick 7]
           [React.Fetched prism_response]
           [React.Slide (nz 100); React.Change (nz 20);
            React.ResetClick; React.ExportClick]);
    reflexivity.
Defined.

(** X13.  The depth the React component holds is never [NaN], as long as
    the slider delivers numbers: typed input is dropped when it does not
    parse, and blur and reset set fixed values. *)
Theorem depth_parameter_is_a_number (es : list React.event) :
  forallb slides_number es = true →
  isNaN (React.depth (React.parameters (React.run es app0))) = false.
Proof.
  assert (∀ a, forallb slides_number es = true →
               isNaN (React.depth (React.parameters a)) = false →
               isNaN (React.depth (React.parameters (React.run es a))) = false)
    as H.
  { induction es as [|e es IH]; intros a Hes Ha; [done|].
    cbn [forallb] in Hes. apply andb_true_iff in Hes as [He Hes].
    cbn [React.run fold_left]. apply IH; [done|].
    by apply react_handle_number. }
  intros Hes. by apply H.
Qed.

Lemma depth_parameter_is_a_number_witness :
  isNaN (React.depth (React.parameters
    (React.run [React.Fetched prism_response; React.Change NaN;
                React.Slide (nz 40); React.Blur NaN; React.Change PosInf]
       app0))) = false.
Proof.
  apply (depth_parameter_is_a_number
           [React.Fetched prism_response; React.Change NaN;
            React.Slide (nz 40); React.Blur NaN; React.Change PosInf]).
  reflexivity.
Defined.

(** ** The initial value of the depth slider *)

Section slider.

Lemma nle_refl (a : num) : isNaN a = false → (a <=? a) = true.
Proof. destruct a; try done. intros _. apply Qcleb_le, Qcle_refl. Qed.

Lemma nlt_false_nle (a b : num) :
  isNaN a = false → isNaN b = false → (a <? b) = false → (b <=? a) = true.
Proof.
  destruct a, b; try done. intros _ _. cbn [nlt nle].
  rewrite Qcleb_Qcltb. by intros ->.
Qed.

Lemma nlt_nle (a b : num) : (a <? b) = true → (a <=? b) = true.
Proof.
  destruct a, b; try done. cbn [nlt nle].
  intros H%Qcltb_lt. by apply Qcleb_le, Qclt_le_weak.
Qed.

Lemma nle_nlt_false (a b : num) : (a <=? b) = true → (b <? a) = false.
Proof.
  destruct a, b; try done. cbn [nlt nle]. rewrite Qcleb_Qcltb.
  by intros ->%negb_true_iff.
Qed.

Lemma nle_trans (a b c : num) :
  (a <=? b) = true → (b <=? c) = true → (a <=? c) = true.
Proof.
  destruct a, b, c; try done. cbn [nle].
  intros H1%Qcleb_le H2%Qcleb_le. apply Qcleb_le. by etrans.
Qed.

Lemma nmax_spec (a b : num) :
  isNaN a = false → isNaN b = false →
  isNaN (nmax a b) = false ∧ (b <=? nmax a b) = true ∧
  ((b <=? a) = true → nmax a b = a).
Proof.
  intros Ha Hb.
  assert (nmax a b = if a <? b then b else a) as ->
    by by destruct a, b.
  destruct (a <? b) eqn:E.
  - split_and!; [done|by apply nle_refl|].
    intros H%nle_nlt_false. congruence.
  - split_and!; [done|by apply nlt_false_nle|done].
Qed.

Lemma nmin_spec (a b : num) :
  isNaN a = false → isNaN b = false →
  isNaN (nmin a b) = false ∧ (nmin a b <=? b) = true ∧
  (∀ c, (c <=? a) = true → (c <=? b) = true → (c <=? nmin a b) = true) ∧
  ((a <=? b) = true → nmin a b = a).
Proof.
  intros Ha Hb.
  assert (nmin a b = if b <? a then b else a) as ->
    by by destruct a, b.
  destruct (b <? a) eqn:E.
  - split_and!; [done|by apply nle_refl|done|].
    intros H%nle_nlt_false. congruence.
  - split_and!; [done|by apply nlt_false_nle|done|done].
Qed.

Lemma isNaN_round (a : num) : isNaN (Math_round a) = isNaN a.
Proof. by destruct a. Qed.

Lemma isNaN_or (a : num) : isNaN (num_or a (nz 20)) = false ∧
                            isNaN (num_or a (nz 300)) = false.
Proof. destruct a as [| |q|]; try done. cbn. by destruct (bool_decide _). Qed.

Lemma extent_not_NaN (a : axis) (g : BufferGeometry) :
  finite_geometry g = true → isNaN (extent a g) = false.
Proof.
  intros Hg. destruct (extent_finite_cases a g Hg) as [H|H];
    by destruct (extent a g).
Qed.

End slider.

(** X14.  The depth slider starts inside its range.  After a load of a
    geometry with finite coordinates the value given to the slider is a
    number; when the lower bound of the range does not exceed the upper
    bound it lies between the two, and it is the rounded depth of the
    geometry (the value of the depth readout) whenever that lies between
    them.  A missing or zero bound counts as 20 and 300. *)
Theorem slider_starts_in_range
    (range_min range_max : num) (geo : BufferGeometry) :
  finite_geometry geo = true →
  let min := num_or range_min (nz 20) in
  let max := num_or range_max (nz 300) in
  let current := initial_slider_value range_min range_max geo in
  isNaN current = false ∧ (current <=? max) = true ∧
  ((min <=? max) = true → (min <=? current) = true) ∧
  ((min <=? updateCurrentDepthDisplay geo axis_z) = true →
   (updateCurrentDepthDisplay geo axis_z <=? max) = true →
   current = updateCurrentDepthDisplay geo axis_z).
Proof.
  intros Hg min max current.
  unfold current, initial_slider_value, updateCurrentDepthDisplay.
  fold min max. rewrite !coord_computeAxisLengths.
  change Vanilla.DEPTH_AXIS with axis_z.
  set (x := Math_round (extent axis_z geo)).
  assert (isNaN x = false) as Hx
    by by unfold x; rewrite isNaN_round, extent_not_NaN.
  destruct (isNaN_or range_min) as [Hmin _].
  destruct (isNaN_or range_max) as [_ Hmax]. fold min in Hmin. fold max in Hmax.
  destruct (nmax_spec x min Hx Hmin) as (Hm1 & Hm2 & Hm3).
  destruct (nmin_spec (nmax x min) max Hm1 Hmax) as (Hn1 & Hn2 & Hn3 & Hn4).
  split_and!; try done.
  - intros Hle. by apply Hn3.
  - intros Hlo Hhi. rewrite Hm3 in Hn4 |- * by done. by apply Hn4.
Qed.

Lemma slider_starts_in_range_witness :
  let min := num_or NaN (nz 20) in
  let max := num_or (nz 300) (nz 300) in
  let current := initial_slider_value NaN (nz 300) prism in
  isNaN current = false ∧ (current <=? max) = true ∧
  ((min <=? max) = true → (min <=? current) = true) ∧
  ((min <=? updateCurrentDepthDisplay prism axis_z) = true →
   (updateCurrentDepthDisplay prism axis_z <=? max) = true →
   current = updateCurrentDepthDisplay prism axis_z).
Proof.
  apply (slider_starts_in_range NaN (nz 300) prism). reflexivity.
Defined.

(** A geometry 500 deep sets the slider to its upper bound, a geometry 6.5
    deep to its lower bound; the prism, 50 deep, sets it to 50. *)
Example slider_examples :
  initial_slider_value (nz 10) (nz 300)
    (baked axis_z (nz 10) prism) = nz 300 ∧
  initial_slider_value (nz 10) (nz 300)
    (baked axis_z (Fin (qfrac 13 100)) prism) = nz 10 ∧
  updateCurrentDepthDisplay (baked axis_z (Fin (qfrac 13 100)) prism) axis_z
  = nz 7 ∧
  initial_slider_value (nz 10) (nz 300) prism = nz 50.
Proof. split_and!; compute_done. Qed.

(** ** The position of the mesh in the depth-and-height variant *)

Section mesh_position.

Lemma centred_bottom (lo hi lo' hi' : Qc) :
  (lo' = - hi')%Qc → (hi' - lo' = hi - lo)%Qc →
  (lo' + (- lo + qz 2) = qz 2 - (lo + hi) * qfrac 1 2)%Qc.
Proof.
  intros -> H. rewrite half_half.
  assert (hi' = (hi - lo) / (1 + 1))%Qc as ->.
  { rewrite <-H. field. compute_done. }
  field. compute_done.
Qed.

End mesh_position.

(** X16.  Where the depth-and-height variant puts the loaded mesh.  For
    decoded vertices that are finite and at least one, with Y between [lo]
    and [hi], the lowest point of the positioned mesh is at height
    [2 - (lo + hi) / 2]: two units above the grid exactly when the decoded
    asset is centred in Y, and lower by the Y centre of the asset
    otherwise. *)
Theorem mesh_bottom_level (vertices : list Vector3) :
  forallb finiteV vertices = true → vertices ≠ [] →
  ∃ lo hi : Qc,
    vy (bmin (setFromBufferAttribute vertices)) = Fin lo ∧
    vy (bmax (setFromBufferAttribute vertices)) = Fin hi ∧
    mesh_bottom vertices = Fin (qz 2 - (lo + hi) * qfrac 1 2)%Qc ∧
    (mesh_bottom vertices = nz 2 ↔ lo = (- hi)%Qc).
Proof.
  intros Hps Hne.
  destruct (box_finite axis_y vertices Hps Hne)
    as (ys & lo & hi & Hys & Hmin & Hmax & Hlo & Hhi & Hle).
  cbn [coord] in Hmin, Hmax. exists lo, hi.
  destruct (centred_translated vertices Hps Hne) as (Hcen & Hfin & Hext).
  set (ps' := translated (vanilla_offset vertices) vertices) in *.
  assert (ps' ≠ []) as Hne'.
  { unfold ps', translated, positions_applyMatrix4. by destruct vertices. }
  destruct (box_finite axis_y ps' Hfin Hne')
    as (ys' & lo' & hi' & _ & Hmin' & Hmax' & _ & _ & _).
  cbn [coord] in Hmin', Hmax'.
  specialize (Hcen axis_y). specialize (Hext axis_y).
  unfold extent in Hext. unfold computeBoundingBox in Hcen, Hext.
  cbn [position coord] in Hcen, Hext.
  rewrite Hmin', Hmax' in Hcen. rewrite Hmin', Hmax', Hmin, Hmax in Hext.
  unfold nsub in Hext. cbn [nneg nadd] in Hcen, Hext.
  assert (lo' = - hi')%Qc as E1 by congruence.
  assert (hi' + - lo' = hi + - lo)%Qc as E2 by congruence.
  assert (mesh_bottom vertices = Fin (qz 2 - (lo + hi) * qfrac 1 2)%Qc)
    as Hbottom.
  { unfold mesh_bottom, mesh_position_y.
    rewrite react_offset_eq by done. fold ps'.
    rewrite Hmin', Hmin. cbn [nneg nadd nz]. f_equal.
    by apply (centred_bottom lo hi lo' hi'). }
  split_and!; try done. rewrite Hbottom. split.
  - intros E. assert (qz 2 - (lo + hi) * qfrac 1 2 = qz 2)%Qc as E'
      by (unfold nz in E; congruence).
    assert ((lo + hi) * qfrac 1 2 = 0)%Qc as E0.
    { transitivity (qz 2 - (qz 2 - (lo + hi) * qfrac 1 2))%Qc; [ring|].
      rewrite E'. ring. }
    apply Qcmult_integral in E0 as [E0|E0]; [|done].
    rewrite <-(Qcplus_0_l (- hi)), <-E0. ring.
  - intros ->. unfold nz. f_equal.
    replace (- hi + hi)%Qc with 0%Qc by ring. ring.
Qed.

Lemma mesh_bottom_level_witness :
  ∃ lo hi : Qc,
    vy (bmin (setFromBufferAttribute shifted_vertices)) = Fin lo ∧
    vy (bmax (setFromBufferAttribute shifted_vertices)) = Fin hi ∧
    mesh_bottom shifted_vertices = Fin (qz 2 - (lo + hi) * qfrac 1 2)%Qc ∧
    (mesh_bottom shifted_vertices = nz 2 ↔ lo = (- hi)%Qc).
Proof.
  apply (mesh_bottom_level shifted_vertices); [reflexivity|done].
Defined.

(** The asset that spans Y from 17 to 23 ends up with its lowest point 18
    below the grid; the centred prism rests 2 above it. *)
Example mesh_bottom_examples :
  mesh_bottom shifted_vertices = nz (-18) ∧ mesh_bottom prism_vertices = nz 2.
Proof. split; compute_done. Qed.
